(** * OneDiff: compiled-graph caches and their life cycle

    A shallow embedding of three pieces of the repository:

    - [Pipeline]: the unet-graph cache of [OneFlowStableDiffusionPipeline]
      (src/diffusers/pipelines/stable_diffusion/pipeline_stable_diffusion_oneflow.py),
      a Python dict keyed by [(height, width)] with a logical clock;
    - [Deployable]: [OneflowDeployableModule]
      (src/onediff/infer_compiler/oneflow/deployable_module.py);
    - [Webui]: the sd-webui script
      (onediff_sd_webui_extensions/scripts/onediff.py).

    Python objects are modelled by identifiers, exceptions by an explicit
    outcome next to the state the interrupted call leaves behind. *)

From stdpp Require Import base decidable numbers option list strings gmap.
From Equations Require Import Equations.
From Equations.Prop Require Import Logic.

Set Default Proof Using "Type".

(** ** Python dictionaries in insertion order *)

Module PyDict.

Section Dict.
Context {K V : Type} `{EqDecision K}.

Definition dict : Type := list (K * V).

(** [d.get(k)] *)
Fixpoint dict_get (d : dict) (k : K) : option V :=
  match d with
  | [] => None
  | (k', v) :: d' => if decide (k = k') then Some v else dict_get d' k
  end.

(** [d[k] = v]: an existing key keeps its position, a new key goes last. *)
Fixpoint dict_set (d : dict) (k : K) (v : V) : dict :=
  match d with
  | [] => [(k, v)]
  | (k', v') :: d' =>
      if decide (k = k') then (k, v) :: d' else (k', v') :: dict_set d' k v
  end.

(** [del d[k]], used here only on keys taken from [d.keys()]. *)
Fixpoint dict_del (d : dict) (k : K) : dict :=
  match d with
  | [] => []
  | (k', v') :: d' =>
      if decide (k = k') then d' else (k', v') :: dict_del d' k
  end.

(** [d.keys()] *)
Definition dict_keys (d : dict) : list K := d.*1.

End Dict.

Arguments dict : clear implicits.

(** [min(xs, key=f)]: CPython keeps the first element and replaces it only
    by a strictly smaller one; the empty case raises [ValueError]. *)
Definition py_min {A : Type} (f : A → Z) (xs : list A) : option A :=
  match xs with
  | [] => None
  | x :: xs' =>
      Some (fold_left (λ best y, if bool_decide (f y < f best)%Z then y else best) xs' x)
  end.

End PyDict.

(** ** The stable-diffusion pipeline and its unet-graph cache *)

Module Pipeline.
Import PyDict.
Local Open Scope Z_scope.

(** The cache key [(height, width)]. *)
Abbreviation Shape := (Z * Z)%type (only parsing).

(** Identity of a graph object: its rank among the objects constructed. *)
Abbreviation GraphId := nat (only parsing).

Inductive GraphKind := UNetGraph | UnrolledDenoiseGraph.

(** What a call does to the outside world, in program order. *)
Inductive Event :=
| EvEvict (shape : Shape)
| EvConstruct (g : GraphId) (kind : GraphKind)
| EvCompile (g : GraphId) (ok : bool)
| EvWarmup (g : GraphId) (ok : bool)
| EvInsert (shape : Shape) (g : GraphId).

Abbreviation Entry := (Z * nat)%type (only parsing).

(** The attributes of [OneFlowStableDiffusionPipeline] that the cache uses;
    [objects] counts the graph objects constructed so far and [trace] is the
    history of effects. *)
Record Pipe := mkPipe {
  unet_in_channels : Z;
  tokenizer_model_max_length : Z;
  text_hidden_size : Z;
  unet_graphs : dict Shape Entry;
  unet_graphs_cache_size : Z;
  unet_graphs_lru_cache_time : Z;
  objects : nat;
  trace : list Event;
}.

(** [__init__] *)
Definition init (in_channels max_length hidden : Z) : Pipe :=
  mkPipe in_channels max_length hidden [] 1 0 0 [].

(** [set_unet_graphs_cache_size] *)
Definition set_unet_graphs_cache_size (cache_size : Z) (p : Pipe) : Pipe :=
  mkPipe (unet_in_channels p) (tokenizer_model_max_length p) (text_hidden_size p)
         (unet_graphs p) cache_size
         (unet_graphs_lru_cache_time p) (objects p) (trace p).

(** [lambda shape: self.unet_graphs[shape][0]] *)
Definition recency (d : dict Shape Entry) (shape : Shape) : Z :=
  match dict_get d shape with Some (t, _) => t | None => 0 end.

(** [min(self.unet_graphs.keys(), key=lambda shape: self.unet_graphs[shape][0])] *)
Definition shape_to_del (d : dict Shape Entry) : option Shape :=
  py_min (recency d) (dict_keys d).

Inductive LoopExit := LoopDone | LoopValueError.

(** The loop [while len(self.unet_graphs) >= self.unet_graphs_cache_size]:
    the dict it leaves, the shapes deleted in order, and whether it ended
    normally or in the [ValueError] of [min] on an empty dict. *)
Equations? evict_lru (size : Z) (d : dict Shape Entry)
  : dict Shape Entry * list Shape * LoopExit by wf (length d) lt :=
  evict_lru size d with decide (size ≤ Z.of_nat (length d)) := {
    | right _ := (d, [], LoopDone)
    | left _ with inspect (shape_to_del d) := {
        | exist _ None _ := (d, [], LoopValueError)
        | exist _ (Some k) Hk :=
            let '(d', gone, x) := evict_lru size (dict_del d k) in
            (d', k :: gone, x) } }.
Proof.
  match goal with H : shape_to_del d = Some ?key |- _ => set (k := key) in * end.
  assert (Hfold : ∀ (xs : list Shape) seed,
            fold_left (λ best y, if bool_decide (recency d y < recency d best) then y else best)
              xs seed ∈ seed :: xs).
  { induction xs as [|y ys Hrec]; intros seed; simpl; [apply list_elem_of_here|].
    pose proof (Hrec (if bool_decide (recency d y < recency d seed) then y else seed)) as Hin.
    apply elem_of_cons in Hin as [->|Hin].
    - case_bool_decide; [apply list_elem_of_further|]; apply list_elem_of_here.
    - by do 2 apply list_elem_of_further. }
  assert (Hshorter : ∀ d0 : dict Shape Entry,
            k ∈ dict_keys d0 → S (length (dict_del d0 k)) = length d0).
  { induction d0 as [|[k' v] d0 Hrec]; simpl; [by intros ?%elem_of_nil|].
    intros Hin. case_decide; [done|]. simpl. f_equal. apply Hrec.
    apply elem_of_cons in Hin as [?|?]; done. }
  assert (Hin : k ∈ dict_keys d).
  { revert Hk. unfold shape_to_del, py_min.
    destruct (dict_keys d) as [|x xs]; [done|]. intros [= <-]. apply Hfold. }
  apply Hshorter in Hin. lia.
Qed.

(** *** One call of the pipeline *)

(** [prompt] is a [str], a [list] of some length, or anything else. *)
Inductive Prompt := PromptStr | PromptList (n : nat) | PromptOther.

(** The arguments of [__call__] that reach the cache.
    [do_classifier_free_guidance] stands for [guidance_scale > 1.0] and
    [latents] for the shape of the tensor passed in, if any. *)
Record CallArgs := mkArgs {
  prompt : Prompt;
  height : Z;
  width : Z;
  do_classifier_free_guidance : bool;
  latents : option (list Z);
  compile_unet : bool;
  unrolled_timesteps : bool;
}.

Inductive Exn :=
| ValueError_prompt
| ValueError_size
| ValueError_latents
| ValueError_min
| CompileError
| WarmupError.

(** A call either goes on to denoise with the graph bound to [unet_graph]
    (none when [compile_unet] is off) or raises. *)
Inductive Outcome :=
| Returned (unet_graph : option GraphId)
| Raised (e : Exn).

(** What [_compile] and the warmup run would do if this call reached them. *)
Inductive Compiler := CompilerOk | CompileRaises | WarmupRaises.

Definition cache_key (a : CallArgs) : Shape := (height a, width a).

Definition batch_size (pr : Prompt) : option Z :=
  match pr with
  | PromptStr => Some 1
  | PromptList n => Some (Z.of_nat n)
  | PromptOther => None
  end.

(** [(batch_size, self.unet.in_channels, height // 8, width // 8)] *)
Definition latents_shape (p : Pipe) (a : CallArgs) (bs : Z) : list Z :=
  [bs; unet_in_channels p; height a `div` 8; width a `div` 8].

Definition graph_kind (a : CallArgs) : GraphKind :=
  if unrolled_timesteps a then UnrolledDenoiseGraph else UNetGraph.

Definition with_cache (p : Pipe) (d : dict Shape Entry) (now : Z)
    (objs : nat) (evs : list Event) : Pipe :=
  mkPipe (unet_in_channels p) (tokenizer_model_max_length p) (text_hidden_size p)
         d (unet_graphs_cache_size p) now objs (trace p ++ evs).

(** The block under [if compile_unet:]. The scheduler is taken to have at
    least one timestep, which the branch for a graph that is not unrolled
    reads before it compiles. *)
Definition unet_cache_step (env : Compiler) (a : CallArgs) (p : Pipe)
  : Pipe * Outcome :=
  if compile_unet a then
    let now := unet_graphs_lru_cache_time p + 1 in
    let key := cache_key a in
    match dict_get (unet_graphs p) key with
    | Some (_, unet_graph) =>
        (with_cache p (dict_set (unet_graphs p) key (now, unet_graph)) now
                    (objects p) [],
         Returned (Some unet_graph))
    | None =>
        let '(d, gone, exit) :=
          evict_lru (unet_graphs_cache_size p) (unet_graphs p) in
        let evicted := EvEvict <$> gone in
        match exit with
        | LoopValueError =>
            (with_cache p d now (objects p) evicted, Raised ValueError_min)
        | LoopDone =>
            let g := objects p in
            let made := EvConstruct g (graph_kind a) in
            match env with
            | CompileRaises =>
                (with_cache p d now (S g)
                   (evicted ++ [made; EvCompile g false]),
                 Raised CompileError)
            | WarmupRaises =>
                (with_cache p d now (S g)
                   (evicted ++ [made; EvCompile g true; EvWarmup g false]),
                 Raised WarmupError)
            | CompilerOk =>
                (with_cache p (dict_set d key (now, g)) now (S g)
                   (evicted ++ [made; EvCompile g true; EvWarmup g true;
                                EvInsert key g]),
                 Returned (Some g))
            end
        end
    end
  else (p, Returned None).

(** The checks that [__call__] makes before it reaches the cache. *)
Definition args_ok (p : Pipe) (a : CallArgs) : bool :=
  match batch_size (prompt a) with
  | None => false
  | Some bs =>
      bool_decide (height a `mod` 8 = 0) && bool_decide (width a `mod` 8 = 0)
      && match latents a with
         | None => true
         | Some shp => bool_decide (shp = latents_shape p a bs)
         end
  end.

Definition pipeline_call (env : Compiler) (a : CallArgs) (p : Pipe)
  : Pipe * Outcome :=
  match batch_size (prompt a) with
  | None => (p, Raised ValueError_prompt)
  | Some bs =>
      if bool_decide (height a `mod` 8 ≠ 0 ∨ width a `mod` 8 ≠ 0)
      then (p, Raised ValueError_size)
      else
        match latents a with
        | Some shp =>
            if bool_decide (shp ≠ latents_shape p a bs)
            then (p, Raised ValueError_latents)
            else unet_cache_step env a p
        | None => unet_cache_step env a p
        end
  end.

(** Calls made one after the other on the same pipeline object. *)
Fixpoint run_calls (p : Pipe) (cs : list (Compiler * CallArgs))
  : Pipe * list Outcome :=
  match cs with
  | [] => (p, [])
  | (env, a) :: cs' =>
      let '(p1, o) := pipeline_call env a p in
      let '(pn, os) := run_calls p1 cs' in
      (pn, o :: os)
  end.

(** The call raises or is served by [g]: no other graph serves it. *)
Definition only_served_by (g : nat) (o : Outcome) : Prop :=
  o = Returned (Some g) ∨ ∃ e, o = Raised e.

(** How often [_compile] has been invoked. *)
Fixpoint compiler_calls (tr : list Event) : nat :=
  match tr with
  | [] => 0
  | EvCompile _ _ :: tr' => S (compiler_calls tr')
  | _ :: tr' => compiler_calls tr'
  end.

(** The shapes of the tensors handed to [_compile]: the latent input (twice
    the batch under classifier-free guidance unless the graph is unrolled)
    and the text embeddings. *)
Definition shape_signature (p : Pipe) (a : CallArgs) : list (list Z) :=
  match batch_size (prompt a) with
  | None => []
  | Some bs =>
      let bs2 := if do_classifier_free_guidance a then 2 * bs else bs in
      let emb := [bs2; tokenizer_model_max_length p; text_hidden_size p] in
      if unrolled_timesteps a
      then [latents_shape p a bs; emb]
      else [latents_shape p a bs2; emb]
  end.

(** A call with the default arguments of [__call__] and a given size, and
    a pipeline of Stable Diffusion 1.x dimensions. *)
Definition request (h w : Z) : CallArgs :=
  mkArgs PromptStr h w true None true false.

Definition sd_pipe : Pipe := init 4 77 768.

(** Entries have distinct keys and distinct graph objects, all of them
    constructed earlier. *)
Record cache_wf (p : Pipe) : Prop := mk_cache_wf {
  wf_keys : NoDup (dict_keys (unet_graphs p));
  wf_graphs : NoDup ((unet_graphs p).*2.*2);
  wf_fresh : ∀ g, g ∈ (unet_graphs p).*2.*2 → (g < objects p)%nat;
}.

(** Every cached graph has run to completion at least once. *)
Definition cache_warm (p : Pipe) : Prop :=
  ∀ g, g ∈ (unet_graphs p).*2.*2 → EvWarmup g true ∈ trace p.

End Pipeline.

(** ** The deployable module *)

Module Deployable.

(** The Python values that occur as options and as [file_path]. *)
Inductive PyVal := PyNone | PyStr (s : string) | PyInt (z : Z).

Global Instance PyVal_eq_dec : EqDecision PyVal.
Proof. solve_decision. Defined.

(** Truth value of an object in a condition. *)
Definition truthy (v : PyVal) : bool :=
  match v with
  | PyNone => false
  | PyStr s => negb (bool_decide (s = ""))
  | PyInt z => negb (bool_decide (z = 0%Z))
  end.

(** A graph object as this class looks at it: the number of [_blocks], the
    devices of the tensors that [_state()] yields, and whether its first
    call has built it. *)
Record Graph {Device : Type} := mkGraph {
  graph_size : PyVal;
  graph_dynamic : bool;
  graph_debug : list PyVal;
  _blocks : nat;
  _state : list Device;
  built : bool;
}.
Arguments Graph : clear implicits.

Definition set_built {Device} (g : Graph Device) : Graph Device :=
  mkGraph Device (graph_size g) (graph_dynamic g) (graph_debug g)
          (_blocks g) (_state g) true.

Definition debug {Device} (level : PyVal) (g : Graph Device) : Graph Device :=
  mkGraph Device (graph_size g) (graph_dynamic g) (graph_debug g ++ [level])
          (_blocks g) (_state g) (built g).

Record DeployableModule {Device DualModule : Type} := mkModule {
  _deployable_module_model : DualModule;
  _deployable_module_use_graph : bool;
  _deployable_module_enable_dynamic : bool;
  _deployable_module_options : gmap string PyVal;
  _deployable_module_dpl_graph : option (Graph Device);
  _load_graph_first_run : bool;
}.
Arguments DeployableModule : clear implicits.

Inductive Exn {Device : Type} :=
| RuntimeError_device (current_device target_device : Device)
| StopIteration
| CompilationFailed.
Arguments Exn : clear implicits.

Inductive Event := EvBuild (ok : bool) | EvGraphRun | EvEagerRun.

(** Whether building the graph succeeds if this call gets to it. *)
Inductive Builder := BuildOk | BuildRaises.

Section Module.
Context {Device DualModule ToArgs Args Out : Type}.

(** Helpers of the repository that this file imports: taken as given. *)
Variable parse_device : ToArgs → option Device.
Variable check_device : Device → Device → bool.
Variable debug_mode : bool.
(** What a graph made over the module holds. *)
Variable graph_blocks : DualModule → nat.
Variable graph_state : DualModule → list Device.
(** Methods of the wrapped dual module. *)
Variable model_to : ToArgs → DualModule → DualModule.
Variable del_oneflow_module : DualModule → DualModule.
(** The tensors a built graph, respectively the eager module, returns. *)
Variable graph_out : Args → Out.
Variable eager_out : Args → Out.

Local Abbreviation Mod := (DeployableModule Device DualModule).

Definition with_model (m : Mod) (dm : DualModule) : Mod :=
  mkModule _ _ dm (_deployable_module_use_graph m)
           (_deployable_module_enable_dynamic m)
           (_deployable_module_options m)
           (_deployable_module_dpl_graph m) (_load_graph_first_run m).

Definition with_graph (m : Mod) (g : option (Graph Device)) : Mod :=
  mkModule _ _ (_deployable_module_model m) (_deployable_module_use_graph m)
           (_deployable_module_enable_dynamic m)
           (_deployable_module_options m) g (_load_graph_first_run m).

Definition with_options (m : Mod) (o : gmap string PyVal) : Mod :=
  mkModule _ _ (_deployable_module_model m) (_deployable_module_use_graph m)
           (_deployable_module_enable_dynamic m) o
           (_deployable_module_dpl_graph m) (_load_graph_first_run m).

(** [get_oneflow_graph(module, size, dynamic)]: a new graph object, to
    be built by its first call. *)
Definition get_oneflow_graph (dm : DualModule) (size : PyVal) (dynamic : bool)
  : Graph Device :=
  mkGraph Device size dynamic [] (graph_blocks dm) (graph_state dm) false.

(** [get_graph] *)
Definition get_graph (m : Mod) : Mod * Graph Device :=
  match _deployable_module_dpl_graph m with
  | Some g => (m, g)
  | None =>
      let size :=
        match _deployable_module_options m !! "size" with
        | Some v => v
        | None => PyInt 9
        end in
      let g0 := get_oneflow_graph (_deployable_module_model m) size
                  (_deployable_module_enable_dynamic m) in
      let g1 := if debug_mode then debug (PyInt 0) g0 else g0 in
      let g2 :=
        match _deployable_module_options m !! "debug" with
        | Some v => debug v g1
        | None => g1
        end in
      (with_graph m (Some g2), g2)
  end.

(** The device a graph is bound to: that of its first state tensor. *)
Definition graph_device (g : Graph Device) : option Device :=
  if bool_decide (0 < _blocks g) then head (_state g) else None.

(** [to] *)
Definition to (args : ToArgs) (m : Mod) : Mod * option (Exn Device) :=
  let moved := with_model m (model_to args (_deployable_module_model m)) in
  match _deployable_module_dpl_graph m with
  | None => (moved, None)
  | Some g =>
      match parse_device args with
      | Some target_device =>
          if bool_decide (0 < _blocks g) then
            match _state g with
            | [] => (m, Some StopIteration)
            | t :: _ =>
                if check_device t target_device then (moved, None)
                else (m, Some (RuntimeError_device t target_device))
            end
          else (moved, None)
      | None => (moved, None)
      end
  end.

(** [get_graph_file] *)
Definition get_graph_file (m : Mod) : PyVal :=
  default PyNone (_deployable_module_options m !! "graph_file").

(** [_clear_old_graph] *)
Definition _clear_old_graph (m : Mod) : Mod :=
  mkModule _ _ (del_oneflow_module (_deployable_module_model m))
           (_deployable_module_use_graph m)
           (_deployable_module_enable_dynamic m)
           (_deployable_module_options m) None true.

(** [set_graph_file] *)
Definition set_graph_file (file_path : PyVal) (m : Mod) : Mod :=
  let old_file_path := get_graph_file m in
  if truthy file_path && bool_decide (old_file_path = file_path) then m
  else
    _clear_old_graph
      (with_options m (<["graph_file" := file_path]> (_deployable_module_options m))).

(** Calling a graph object: the first call builds it, which may fail. *)
Definition graph_call (env : Builder) (g : Graph Device) (args : Args)
  : Graph Device * (Out + Exn Device) * list Event :=
  if built g then (g, inl (graph_out args), [EvGraphRun])
  else
    match env with
    | BuildOk => (set_built g, inl (graph_out args), [EvBuild true; EvGraphRun])
    | BuildRaises => (g, inr CompilationFailed, [EvBuild false])
    end.

(** The body of [__call__], below its decorators. *)
Definition call_body (env : Builder) (args : Args) (m : Mod)
  : Mod * (Out + Exn Device) * list Event :=
  if _deployable_module_use_graph m then
    let '(m1, dpl_graph) := get_graph m in
    let '(g', output, evs) := graph_call env dpl_graph args in
    (with_graph m1 (Some g'), output, evs)
  else (m, inl (eager_out args), [EvEagerRun]).

(** Modelled from the spec: the decorator [handle_deployable_exception]
    of onediff/infer_compiler/oneflow/utils.py, which is not among the
    sources. Section 4.3 of the specification: on a failed compilation the
    call is executed eagerly and the module is left as it was before the
    call. The decorators [input_output_processor] and
    [graph_file_management] convert tensors and load or save the graph
    file; they are left out. *)
Definition handle_deployable_exception
    (f : Builder → Args → Mod → Mod * (Out + Exn Device) * list Event)
    (env : Builder) (args : Args) (m : Mod)
  : Mod * (Out + Exn Device) * list Event :=
  match f env args m with
  | (_, inr CompilationFailed, evs) =>
      (m, inl (eager_out args), evs ++ [EvEagerRun])
  | r => r
  end.

(** [__call__] *)
Definition call := handle_deployable_exception call_body.

End Module.

End Deployable.

(** ** The sd-webui script *)

Module Webui.

(** A Python reference: [None] or an object. *)
Inductive Val := VNone | VObj (id : nat).

Global Instance Val_eq_dec : EqDecision Val.
Proof. solve_decision. Defined.

(** The dict built by [get_model_type]. *)
Record ModelType := mkType {
  is_sdxl : bool;
  is_sd2 : bool;
  is_sd1 : bool;
  is_ssd : bool;
}.

Global Instance ModelType_eq_dec : EqDecision ModelType.
Proof. solve_decision. Defined.

Inductive Exn := TypeError_not_iterable | UnboundLocalError | HostError (code : nat).

Inductive Event :=
| EvCopy (name : string) (target : nat)
| EvCompileUnet (model : Val) (quantization : bool).

(** The module globals, the attributes of [shared] and of the [Script]
    instance that [run] reads or writes; [allocated] numbers the objects
    that [compile_unet] returns and [log] records the effects. *)
Record World := mkWorld {
  diffusion_model : Val;
  sd_model_type : ModelType;
  sd_model_checkpoint : string;
  compiled_unet : Val;
  compiled_ckpt_name : option string;
  current_type : option ModelType;
  convname_dict : option (list (string * option nat));
  allocated : nat;
  log : list Event;
}.

Definition set_diffusion_model (v : Val) (w : World) : World :=
  mkWorld v (sd_model_type w) (sd_model_checkpoint w) (compiled_unet w)
          (compiled_ckpt_name w) (current_type w) (convname_dict w)
          (allocated w) (log w).

Definition set_current_type (t : option ModelType) (w : World) : World :=
  mkWorld (diffusion_model w) (sd_model_type w) (sd_model_checkpoint w)
          (compiled_unet w) (compiled_ckpt_name w) t (convname_dict w)
          (allocated w) (log w).

Definition set_convname_dict (d : option (list (string * option nat)))
    (w : World) : World :=
  mkWorld (diffusion_model w) (sd_model_type w) (sd_model_checkpoint w)
          (compiled_unet w) (compiled_ckpt_name w) (current_type w) d
          (allocated w) (log w).

Definition emit (evs : list Event) (w : World) : World :=
  mkWorld (diffusion_model w) (sd_model_type w) (sd_model_checkpoint w)
          (compiled_unet w) (compiled_ckpt_name w) (current_type w)
          (convname_dict w) (allocated w) (log w ++ evs).

(** *** The [with] statement *)

(** [with C(): body] for one context manager: [__exit__] runs on every way
    out of [body] and its result says whether an exception is swallowed
    ([inl None] is the statement ending normally after that). *)
Definition with_ctx {S C A E : Type}
    (enter : S → S * C) (exit : C → option E → S → S * bool)
    (body : S → S * (A + E)) (s : S) : S * (option A + E) :=
  let '(s1, c) := enter s in
  let '(s2, r) := body s1 in
  match r with
  | inl a => let '(s3, _) := exit c None s2 in (s3, inl (Some a))
  | inr e =>
      let '(s3, swallow) := exit c (Some e) s2 in
      (s3, if swallow then inl None else inr e)
  end.

(** [UnetCompileCtx]: the object holds [_original_model]. *)
Record UnetCompileCtx := mkCtx { _original_model : Val }.

Definition UnetCompileCtx_enter (w : World) : World * UnetCompileCtx :=
  (set_diffusion_model (compiled_unet w) w, mkCtx (diffusion_model w)).

Definition UnetCompileCtx_exit (self : UnetCompileCtx) (exc : option Exn)
    (w : World) : World * bool :=
  (set_diffusion_model (_original_model self) w, false).

(** *** [Script] *)

(** [check_model_structure_change]: the loop compares the four recorded
    flags with the model's. *)
Definition check_model_structure_change (w : World) : World * bool :=
  let is_changed :=
    match current_type w with
    | None => true
    | Some t =>
        negb (eqb (is_sdxl t) (is_sdxl (sd_model_type w)))
        || negb (eqb (is_sd2 t) (is_sd2 (sd_model_type w)))
        || negb (eqb (is_sd1 t) (is_sd1 (sd_model_type w)))
        || negb (eqb (is_ssd t) (is_ssd (sd_model_type w)))
    end in
  (if is_changed then set_current_type (Some (sd_model_type w)) w else w,
   is_changed).

(** The loop [for k in self.convname_dict]: the copies made before it ends
    or breaks, and the value it leaves in [need_recompile]. *)
Fixpoint copy_conv_weights (d : list (string * option nat))
  : list Event * bool :=
  match d with
  | [] => ([], false)
  | (k, None) :: _ => ([], true)
  | (k, Some target_tensor) :: d' =>
      let '(evs, need_recompile) := copy_conv_weights d' in
      (EvCopy k target_tensor :: evs, need_recompile)
  end.

(** [compile_unet], which for a model of a supported type returns a new
    object, and the three assignments under [if need_recompile]. *)
Definition recompile (quantization : bool) (ckpt_name : string) (w : World)
  : World :=
  mkWorld (diffusion_model w) (sd_model_type w) (sd_model_checkpoint w)
          (VObj (allocated w)) (Some ckpt_name) (current_type w) None
          (S (allocated w))
          (log w ++ [EvCompileUnet (diffusion_model w) quantization]).

(** [run] up to the [with] statement. *)
Definition run_prepare (quantization : bool) (w : World)
  : World * option Exn :=
  let current_checkpoint := sd_model_checkpoint w in
  let ckpt_name :=
    if quantization then current_checkpoint +:+ "_quantized"
    else current_checkpoint in
  let model_changed := bool_decide (Some ckpt_name ≠ compiled_ckpt_name w) in
  let '(w1, model_structure_changed) := check_model_structure_change w in
  let need_recompile :=
    (quantization && model_changed) || model_structure_changed in
  if need_recompile then (recompile quantization ckpt_name w1, None)
  else if model_changed then
    match convname_dict w1 with
    | None => (w1, Some TypeError_not_iterable)
    | Some d =>
        let '(evs, need_recompile) := copy_conv_weights d in
        let w2 := emit evs w1 in
        if need_recompile then (recompile quantization ckpt_name w2, None)
        else (w2, None)
    end
  else (w1, None).

(** The checkbox value, or the HTML string of the community edition. *)
Inductive QuantArg := QuantBool (b : bool) | QuantHtml.

Section Run.
Context {Proc : Type}.
(** [process_images(p)] inside the other three context managers. *)
Variable process_images : World → World * (Proc + Exn).
(** The dict comprehension over [get_runtime_var_states()]. *)
Variable runtime_convnames : Val → list (string * option nat).

(** [Script.run] *)
Definition run (quantization : QuantArg) (w : World) : World * (Proc + Exn) :=
  let quantization :=
    match quantization with QuantBool b => b | QuantHtml => false end in
  match run_prepare quantization w with
  | (w1, Some e) => (w1, inr e)
  | (w1, None) =>
      match with_ctx UnetCompileCtx_enter UnetCompileCtx_exit process_images w1 with
      | (w2, inr e) => (w2, inr e)
      | (w2, inl None) => (w2, inr UnboundLocalError)
      | (w2, inl (Some proc)) =>
          let w3 :=
            match convname_dict w2 with
            | None =>
                if quantization then w2
                else set_convname_dict
                       (Some (runtime_convnames (compiled_unet w2))) w2
            | Some _ => w2
            end in
          (w3, inl proc)
      end
  end.
End Run.

(** The host loads a checkpoint: a new diffusion model, its structure and
    its name. *)
Definition load_checkpoint (name : string) (model : Val) (t : ModelType)
    (w : World) : World :=
  mkWorld model t name (compiled_unet w) (compiled_ckpt_name w)
          (current_type w) (convname_dict w) (allocated w) (log w).

(** The world when the script is loaded, with an SD 1.x checkpoint. *)
Definition sd1 : ModelType := mkType false false true false.

Definition startup : World :=
  mkWorld (VObj 0) sd1 "v1-5-pruned" VNone None None None 1 [].

(** How often [compile_unet] has been called. *)
Fixpoint compile_unet_calls (l : list Event) : nat :=
  match l with
  | [] => 0
  | EvCompileUnet _ _ :: l' => S (compile_unet_calls l')
  | _ :: l' => compile_unet_calls l'
  end.

End Webui.

(** ** Sequences of operations on a pipeline *)

Module PipelineOps.
Import PyDict Pipeline.
Local Open Scope Z_scope.

(** What a user does with a pipeline object: call it, or change the cache
    size. *)
Inductive Op :=
| OpCall (env : Compiler) (a : CallArgs)
| OpSetCacheSize (cache_size : Z).

Definition step_op (p : Pipe) (o : Op) : Pipe :=
  match o with
  | OpCall env a => (pipeline_call env a p).1
  | OpSetCacheSize n => set_unet_graphs_cache_size n p
  end.

Definition run_ops (p : Pipe) (ops : list Op) : Pipe := foldl step_op p ops.

(** How many calls at the head of a sequence have a compilation or a
    warmup that raises if the call gets to it. *)
Fixpoint failing_prefix (cs : list (Compiler * CallArgs)) : nat :=
  match cs with
  | [] => 0
  | (CompilerOk, _) :: _ => 0
  | _ :: cs' => S (failing_prefix cs')
  end.

(** How a call that misses and finds room ends: served by the graph [g]
    it has made, or in the exception of [_compile] or of the warmup. *)
Definition miss_outcome (env : Compiler) (g : nat) : Outcome :=
  match env with
  | CompilerOk => Returned (Some g)
  | CompileRaises => Raised CompileError
  | WarmupRaises => Raised WarmupError
  end.

(** The graph objects in the cache, and the recency counters. *)
Definition cached_graphs (p : Pipe) : list nat := (unet_graphs p).*2.*2.

Definition cached_times (p : Pipe) : list Z := (unet_graphs p).*2.*1.

(** No two entries have the same recency counter, and none is ahead of
    the clock. *)
Definition recency_wf (p : Pipe) : Prop :=
  NoDup (cached_times p)
  ∧ ∀ t, t ∈ cached_times p → t ≤ unet_graphs_lru_cache_time p.

End PipelineOps.

(** ** The whole of [__call__]: the stages around the cache *)

Module PipelineStages.
Import PyDict Pipeline.
Local Open Scope Z_scope.

(** The pipeline object with the two graphs that [__call__] makes on
    demand beside the unet graphs; [made] numbers the objects of these two
    classes. *)
Record State := mkState {
  cache : Pipe;
  text_encoder_graph : option nat;
  vae_graph : option nat;
  made : nat;
}.

(** [__init__] *)
Definition init (in_channels max_length hidden : Z) : State :=
  mkState (Pipeline.init in_channels max_length hidden) None None 0.

Definition with_pipe (s : State) (p : Pipe) : State :=
  mkState p (text_encoder_graph s) (vae_graph s) (made s).

(** The arguments of [__call__] that decide which stages are compiled. *)
Record FullArgs := mkFull {
  base : CallArgs;
  compile_text_encoder : bool;
  compile_vae : bool;
}.

(** What denoises: [unrolled_timesteps_graph(latents, text_embeddings)]
    once, or in the loop over the timesteps
    [unet_graph(latent_model_input, t, text_embeddings)] or [self.unet]. *)
Inductive Denoiser :=
| UnrolledCall (g : GraphId)
| StepGraph (g : GraphId)
| StepEager.

(** What decodes: [self.vae_graph(latents)] or [self.vae.decode]. *)
Inductive Decoder := DecodeGraph (g : nat) | DecodeEager.

Inductive Result :=
| Generated (den : Denoiser) (dec : Decoder)
| Failed (e : Exn)
| UnboundLocalError
| TypeError_none_not_callable.

(** [if compile_text_encoder and self.text_encoder_graph is None] *)
Definition ensure_text_encoder_graph (fa : FullArgs) (s : State) : State :=
  if compile_text_encoder fa then
    match text_encoder_graph s with
    | None => mkState (cache s) (Some (made s)) (vae_graph s) (S (made s))
    | Some _ => s
    end
  else s.

(** [if compile_vae and (self.vae_graph is None)] *)
Definition ensure_vae_graph (fa : FullArgs) (s : State) : State :=
  if compile_vae fa then
    match vae_graph s with
    | None => mkState (cache s) (text_encoder_graph s) (Some (made s)) (S (made s))
    | Some _ => s
    end
  else s.

(** The denoising stage reads the local names [unrolled_timesteps_graph]
    and [unet_graph], which only the block under [if compile_unet:]
    binds. *)
Definition denoise (a : CallArgs) (unet_graph : option GraphId)
  : option Denoiser :=
  if unrolled_timesteps a then UnrolledCall <$> unet_graph
  else if compile_unet a then StepGraph <$> unet_graph
  else Some StepEager.

Definition decode (fa : FullArgs) (s : State) : option Decoder :=
  if compile_vae fa then DecodeGraph <$> vae_graph s else Some DecodeEager.

(** [__call__], in the order of its statements. The tokenizer, the text
    encoder, the scheduler, the denoising graph once compiled and the
    decoder are taken to return. *)
Definition call (env : Compiler) (fa : FullArgs) (s : State) : State * Result :=
  let a := base fa in
  match batch_size (prompt a) with
  | None => (s, Failed ValueError_prompt)
  | Some bs =>
      if bool_decide (height a `mod` 8 ≠ 0 ∨ width a `mod` 8 ≠ 0)
      then (s, Failed ValueError_size)
      else
        let s1 := ensure_text_encoder_graph fa s in
        let bad_latents :=
          match latents a with
          | Some shp => bool_decide (shp ≠ latents_shape (cache s1) a bs)
          | None => false
          end in
        if bad_latents then (s1, Failed ValueError_latents)
        else
          match unet_cache_step env a (cache s1) with
          | (p', Raised e) => (with_pipe s1 p', Failed e)
          | (p', Returned unet_graph) =>
              let s2 := ensure_vae_graph fa (with_pipe s1 p') in
              match denoise a unet_graph with
              | None => (s2, UnboundLocalError)
              | Some den =>
                  match decode fa s2 with
                  | None => (s2, TypeError_none_not_callable)
                  | Some dec => (s2, Generated den dec)
                  end
              end
          end
  end.

(** Calls made one after the other on the same pipeline object. *)
Fixpoint calls (s : State) (cs : list (Compiler * FullArgs))
  : State * list Result :=
  match cs with
  | [] => (s, [])
  | (env, fa) :: cs' =>
      let '(s1, r) := call env fa s in
      let '(sn, rs) := calls s1 cs' in
      (sn, r :: rs)
  end.

(** The class a graph object was constructed from, by the history. *)
Definition constructed_as (g : GraphId) (kind : GraphKind) (s : State) : Prop :=
  EvConstruct g kind ∈ trace (cache s).

(** How many of the two graphs may still be made. *)
Definition missing (g : option nat) : nat :=
  match g with Some _ => 0 | None => 1 end.

(** From [s] to [s'] the graphs held are kept, and an object is made only
    for a graph that was missing. *)
Definition keeps_stage_graphs (s s' : State) : Prop :=
  (∀ g, text_encoder_graph s = Some g → text_encoder_graph s' = Some g)
  ∧ (∀ g, vae_graph s = Some g → vae_graph s' = Some g)
  ∧ (made s' + missing (text_encoder_graph s') + missing (vae_graph s')
     ≤ made s + missing (text_encoder_graph s) + missing (vae_graph s))%nat.

(** Every graph object in the history was numbered before the next one to
    be constructed. *)
Definition trace_fresh (p : Pipe) : Prop :=
  ∀ g kind, EvConstruct g kind ∈ trace p → (g < objects p)%nat.

(** The class whose [build] takes the arguments a denoiser passes. *)
Definition expects (den : Denoiser) : option (GraphId * GraphKind) :=
  match den with
  | UnrolledCall g => Some (g, UnrolledDenoiseGraph)
  | StepGraph g => Some (g, UNetGraph)
  | StepEager => None
  end.

End PipelineStages.

(** ** Sequences of operations on a deployable module *)

Module DeployableOps.
Import Deployable.

Section Ops.
Context {Device DualModule ToArgs : Type}.
Variable parse_device : ToArgs → option Device.
Variable check_device : Device → Device → bool.
Variable debug_mode : bool.
Variable graph_blocks : DualModule → nat.
Variable graph_state : DualModule → list Device.
Variable model_to : ToArgs → DualModule → DualModule.

(** The two methods that read or assign the graph and are not wrapped by
    a decorator: [to] and [get_graph]. *)
Inductive Op :=
| OpTo (args : ToArgs)
| OpGetGraph.

Definition step (m : DeployableModule Device DualModule) (o : Op)
  : DeployableModule Device DualModule :=
  match o with
  | OpTo args => (to parse_device check_device model_to args m).1
  | OpGetGraph => (get_graph debug_mode graph_blocks graph_state m).1
  end.

(** The module after the operations, a refused [to] leaving it as it
    is. *)
Definition run (m : DeployableModule Device DualModule) (ops : list Op)
  : DeployableModule Device DualModule :=
  foldl step m ops.

End Ops.

End DeployableOps.

(** ** Modules that share an options dict *)

Module DeployableShared.
Import Deployable.

(** The dict objects by address. The [def] statement of [__init__]
    evaluates the default [options={}] once: every call that leaves
    [options] out gets the dict at [default_options]. *)
Abbreviation Heap := (gmap nat (gmap string PyVal)) (only parsing).

Definition default_options : nat := 0.

Section Shared.
Context {Device DualModule : Type}.
Variable del_oneflow_module : DualModule → DualModule.

(** A module object: [_deployable_module_options] is a reference, the
    other attributes are those of [attrs]. *)
Record Obj := mkObj {
  attrs : DeployableModule Device DualModule;
  options_ref : nat;
}.

(** [__init__], with [options] left out or the address of a dict. *)
Definition init (dual : DualModule) (use_graph dynamic : bool)
    (options : option nat) : Obj :=
  mkObj (mkModule _ _ dual use_graph dynamic ∅ None true)
        (default default_options options).

(** The module as its methods see it. *)
Definition view (h : Heap) (o : Obj) : DeployableModule Device DualModule :=
  with_options (attrs o) (h !!! options_ref o).

(** A method that may assign attributes and write into the options. *)
Definition method
    (f : DeployableModule Device DualModule → DeployableModule Device DualModule)
    (h : Heap) (o : Obj) : Heap * Obj :=
  let m' := f (view h o) in
  (<[options_ref o := _deployable_module_options m']> h,
   mkObj m' (options_ref o)).

(** [set_graph_file] on an object. *)
Definition set_graph_file_obj (file_path : PyVal) (h : Heap) (o : Obj)
  : Heap * Obj :=
  method (set_graph_file del_oneflow_module file_path) h o.

End Shared.

End DeployableShared.

(** ** The script over several runs *)

Module WebuiOps.
Import Webui.

(** [process_images] generates images and leaves the module globals, the
    attributes of the script and the checkpoint loaded as they are. *)
Definition leaves_script_state {Proc : Type}
    (process_images : World → World * (Proc + Exn)) : Prop :=
  ∀ w, (process_images w).1 = w.

(** [quantization] after the first statement of [run]. *)
Definition quantized (quantization : QuantArg) : bool :=
  match quantization with QuantBool b => b | QuantHtml => false end.

(** The copies that the loop makes when it runs to its end. *)
Definition copies (d : list (string * option nat)) : list Event :=
  omap (λ e, EvCopy e.1 <$> e.2) d.

(** Whether [compile_unet] returns, or raises, if the run gets to it. *)
Inductive CompileEnv := UnetCompiles | UnetCompileRaises (code : nat).

(** The statements under [if need_recompile:] with a [compile_unet] that
    may raise: the call is made, and the assignments to [compiled_unet],
    [compiled_ckpt_name] and [convname_dict] follow only if it returns. *)
Definition try_recompile (env : CompileEnv) (quantization : bool)
    (ckpt_name : string) (w : World) : World * option Exn :=
  match env with
  | UnetCompiles => (recompile quantization ckpt_name w, None)
  | UnetCompileRaises code =>
      (emit [EvCompileUnet (diffusion_model w) quantization] w,
       Some (HostError code))
  end.

(** [run] up to the [with] statement, with such a [compile_unet]. *)
Definition run_prepare_env (env : CompileEnv) (quantization : bool) (w : World)
  : World * option Exn :=
  let current_checkpoint := sd_model_checkpoint w in
  let ckpt_name :=
    if quantization then current_checkpoint +:+ "_quantized"
    else current_checkpoint in
  let model_changed := bool_decide (Some ckpt_name ≠ compiled_ckpt_name w) in
  let '(w1, model_structure_changed) := check_model_structure_change w in
  let need_recompile :=
    (quantization && model_changed) || model_structure_changed in
  if need_recompile then try_recompile env quantization ckpt_name w1
  else if model_changed then
    match convname_dict w1 with
    | None => (w1, Some TypeError_not_iterable)
    | Some d =>
        let '(evs, need_recompile) := copy_conv_weights d in
        let w2 := emit evs w1 in
        if need_recompile then try_recompile env quantization ckpt_name w2
        else (w2, None)
    end
  else (w1, None).

Section RunEnv.
Context {Proc : Type}.
Variable process_images : World → World * (Proc + Exn).
Variable runtime_convnames : Val → list (string * option nat).

(** [Script.run], with such a [compile_unet]. *)
Definition run_env (env : CompileEnv) (quantization : QuantArg) (w : World)
  : World * (Proc + Exn) :=
  let quantization := quantized quantization in
  match run_prepare_env env quantization w with
  | (w1, Some e) => (w1, inr e)
  | (w1, None) =>
      match with_ctx UnetCompileCtx_enter UnetCompileCtx_exit process_images w1 with
      | (w2, inr e) => (w2, inr e)
      | (w2, inl None) => (w2, inr UnboundLocalError)
      | (w2, inl (Some proc)) =>
          let w3 :=
            match convname_dict w2 with
            | None =>
                if quantization then w2
                else set_convname_dict
                       (Some (runtime_convnames (compiled_unet w2))) w2
            | Some _ => w2
            end in
          (w3, inl proc)
      end
  end.

End RunEnv.

End WebuiOps.

(** ** The mock-torch context *)

Module MockTorch.
Import Webui.

(** What [onediff_mock_torch] reads and writes: the attribute
    [__version__] of the modules [oneflow] and [torch], if present, and
    the dict [sys.modules] from names to module objects. *)
Record Interp := mkInterp {
  flow_version : option string;
  torch_version : option string;
  sys_modules : gmap string nat;
}.

Definition set_flow_version (v : option string) (w : Interp) : Interp :=
  mkInterp v (torch_version w) (sys_modules w).

Definition set_sys_modules (d : gmap string nat) (w : Interp) : Interp :=
  mkInterp (flow_version w) (torch_version w) d.

(** From [w] to [w'] the two version attributes are not touched. *)
Definition keeps_versions (w w' : Interp) : Prop :=
  flow_version w' = flow_version w ∧ torch_version w' = torch_version w.

Section Manager.
Context {C A E : Type}.
(** [flow.mock_torch.enable(lazy=True)] *)
Variable enable_enter : Interp → Interp * C.
Variable enable_exit : C → option E → Interp → Interp * bool.

(** [with onediff_mock_torch(): body]. The function is a generator under
    [contextmanager]: an exception of the body is raised at the [yield];
    if the inner [with] does not swallow it, the generator is left by it
    and nothing after the inner [with] runs. *)
Definition onediff_mock_torch (body : Interp → Interp * (A + E)) (w : Interp)
  : Interp * (option A + E) :=
  let both := bool_decide (is_Some (flow_version w) ∧ is_Some (torch_version w)) in
  let restore_funcs := if both then [flow_version w] else [] in
  let w1 := if both then set_flow_version (torch_version w) w else w in
  let backup := sys_modules w1 in
  match with_ctx enable_enter enable_exit body w1 with
  | (w2, inr e) => (w2, inr e)
  | (w2, inl r) =>
      let w3 := foldl (λ w' orig_flow_attr, set_flow_version orig_flow_attr w')
                      w2 restore_funcs in
      let need_backup := bool_decide (size (sys_modules w3) ≠ size backup) in
      (if need_backup then set_sys_modules backup w3 else w3, inl r)
  end.

End Manager.

End MockTorch.

(** ** Names of the transposed variables *)

Module ConvNames.
Import Stdlib.Strings.Ascii.
Local Open Scope string_scope.

(** [str.removeprefix] *)
Fixpoint strip_prefix (prefix s : string) : option string :=
  match prefix, s with
  | EmptyString, _ => Some s
  | String a prefix', String b s' =>
      if decide (a = b) then strip_prefix prefix' s' else None
  | String _ _, EmptyString => None
  end.

Definition removeprefix (prefix s : string) : string :=
  default s (strip_prefix prefix s).

(** The class [[0-9]] *)
Definition is_digit (c : Ascii.ascii) : bool :=
  (48 <=? Ascii.nat_of_ascii c)%nat && (Ascii.nat_of_ascii c <=? 57)%nat.

Fixpoint drop_digits (s : string) : string :=
  match s with
  | String c s' => if is_digit c then drop_digits s' else s
  | EmptyString => s
  end.

(** A match of [_[0-9]+$] at the start of [s], and what follows it: [$]
    matches at the end of the string and before a newline that ends it. *)
Definition match_numbered (s : string) : option string :=
  match s with
  | String "_"%char (String d s') =>
      if is_digit d then
        let rest := drop_digits s' in
        if decide (rest = "" ∨ rest = String "010"%char "") then Some rest else None
      else None
  | _ => None
  end.

(** [re.sub(r"_[0-9]+$", "", s)]: the leftmost match is cut out; what
    follows a match holds no other one. *)
Fixpoint sub_numbered (s : string) : string :=
  match match_numbered s with
  | Some rest => rest
  | None =>
      match s with
      | String c s' => String c (sub_numbered s')
      | EmptyString => EmptyString
      end
  end.

(** [convert_var_name] *)
Definition convert_var_name (s prefix : string) : string :=
  removeprefix "model." (sub_numbered (removeprefix prefix s)).

Definition digits (s : string) : Prop :=
  Forall (λ c, is_digit c = true) (String.list_ascii_of_string s).

End ConvNames.

(** ** The attention patches of the ComfyUI nodes *)

Module ComfyPatches.
Import PyDict.

(** Calls on patch objects, which are numbered as they are made. *)
Inductive Event :=
| EvNewPatch (patch : nat)
| EvUpdate (patch : nat)
| EvSetNewCondition (patch : nat)
| EvSetCache (patch : nat).

Inductive Exn := KeyError | UnboundLocalError.

Section Patches.
Context {Key : Type} `{EqDecision Key}.

(** [cache_dict] is the dict that the patch executor keeps for the
    diffusion model; [patches_replace] is the entry of that name in the
    transformer options, if any, and in it the entry ["attn2"], if any. *)
Record State := mkState {
  cache_dict : dict Key nat;
  patches_replace : option (option (dict Key nat));
  allocated : nat;
  log : list Event;
}.

Definition attn2 (s : State) : dict Key nat :=
  match patches_replace s with Some (Some d) => d | _ => [] end.

Definition set_attn2 (d : dict Key nat) (s : State) : State :=
  mkState (cache_dict s) (Some (Some d)) (allocated s) (log s).

Definition emit (evs : list Event) (s : State) : State :=
  mkState (cache_dict s) (patches_replace s) (allocated s) (log s ++ evs).

(** [if "patches_replace" not in to] and [if "attn2" not in ...] *)
Definition ensure_attn2 (s : State) : State := set_attn2 (attn2 s) s.

(** [patch = CrossAttentionPatch_OF(...)] with the keyword arguments *)
Definition new_patch (s : State) : State * nat :=
  (mkState (cache_dict s) (patches_replace s) (S (allocated s))
           (log s ++ [EvNewPatch (allocated s)]),
   allocated s).

Definition set_cache_dict (key : Key) (patch : nat) (s : State) : State :=
  mkState (dict_set (cache_dict s) key patch) (patches_replace s)
          (allocated s) (log s).

(** [set_model_patch_replace_fn_of] of hijack_ipadapter_plus *)
Definition set_model_patch_replace_fn_of (key : Key) (s : State)
  : State * option Exn :=
  let s1 := ensure_attn2 s in
  let s2 :=
    match dict_get (cache_dict s1) key with
    | Some patch => emit [EvUpdate patch] s1
    | None => s1
    end in
  match dict_get (attn2 s2) key with
  | None =>
      let s3 :=
        match dict_get (cache_dict s2) key with
        | None =>
            let '(s', patch) := new_patch s2 in
            emit [EvSetCache patch] (set_cache_dict key patch s')
        | Some _ => s2
        end in
      match dict_get (cache_dict s3) key with
      | Some patch => (set_attn2 (dict_set (attn2 s3) key patch) s3, None)
      | None => (s3, Some KeyError)
      end
  | Some patch => (emit [EvSetNewCondition patch; EvSetCache patch] s2, None)
  end.

(** [_set_model_patch_replace] of hijack_comfyui_instantid; [retrieved]
    says whether [patch.retrieve_from_cache(id(patch), None)] is not
    [None] when the call gets to it. *)
Definition _set_model_patch_replace (retrieved : bool) (key : Key) (s : State)
  : State * option Exn :=
  let s1 := ensure_attn2 s in
  let rest (patch : option nat) : State * option Exn :=
    match dict_get (attn2 s1) key with
    | None =>
        let '(s2, new) := new_patch s1 in
        let s3 := set_attn2 (dict_set (attn2 s2) key new) s2 in
        (set_cache_dict key new (emit [EvSetCache new] s3), None)
    | Some installed =>
        let s2 := emit [EvSetNewCondition installed] s1 in
        match patch with
        | Some p => (emit [EvSetCache p] s2, None)
        | None => (s2, Some UnboundLocalError)
        end
    end in
  match dict_get (cache_dict s1) key with
  | Some patch =>
      if retrieved then (emit [EvUpdate patch] s1, None)
      else rest (Some patch)
  | None => rest None
  end.

(** The hijacked functions as the nodes call them. *)
Inductive Op :=
| OpIPAdapter (key : Key)
| OpInstantID (retrieved : bool) (key : Key).

Definition step (o : Op) (s : State) : State * option Exn :=
  match o with
  | OpIPAdapter key => set_model_patch_replace_fn_of key s
  | OpInstantID retrieved key => _set_model_patch_replace retrieved key s
  end.

(** The calls in turn, up to the first one that raises. *)
Fixpoint run (ops : list Op) (s : State) : State * option Exn :=
  match ops with
  | [] => (s, None)
  | o :: ops' =>
      match step o s with
      | (s', None) => run ops' s'
      | r => r
      end
  end.

(** Every key installed in the options has a patch in the cache. *)
Definition installed_cached (s : State) : Prop :=
  ∀ key, is_Some (dict_get (attn2 s) key) → is_Some (dict_get (cache_dict s) key).

End Patches.

Arguments State : clear implicits.
Arguments Op : clear implicits.

(** How many patch objects have been made. *)
Fixpoint patches_made (evs : list Event) : nat :=
  match evs with
  | [] => 0
  | EvNewPatch _ :: evs' => S (patches_made evs')
  | _ :: evs' => patches_made evs'
  end.

End ComfyPatches.

(** * Properties *)

(** ** Dictionaries *)

Section DictFacts.
Import PyDict.
Context {K V : Type} `{EqDecision K}.
Implicit Types (d : dict K V) (k : K) (v : V).

Lemma dict_get_set_eq d k v : dict_get (dict_set d k v) k = Some v.
Proof.
  induction d as [|[k' v'] d IH]; simpl.
  - by rewrite decide_True.
  - destruct (decide (k = k')) as [->|Hne]; simpl.
    + by rewrite decide_True.
    + by rewrite decide_False.
Qed.

Lemma dict_get_set_ne d k k' v :
  k ≠ k' → dict_get (dict_set d k v) k' = dict_get d k'.
Proof.
  intros Hne. induction d as [|[k0 v0] d IH]; simpl.
  - by rewrite decide_False.
  - destruct (decide (k = k0)) as [->|?]; simpl.
    + by rewrite !decide_False.
    + by rewrite IH.
Qed.

Lemma dict_get_None d k : dict_get d k = None ↔ k ∉ dict_keys d.
Proof.
  unfold dict_keys. induction d as [|[k' v'] d IH]; simpl.
  - split; [intros _; apply not_elem_of_nil | done].
  - rewrite not_elem_of_cons. destruct (decide (k = k')) as [->|Hne].
    + split; [done | by intros [? _]].
    + rewrite IH. split; [by intros ? | by intros [_ ?]].
Qed.

Lemma dict_get_Some_in d k v : dict_get d k = Some v → (k, v) ∈ d.
Proof.
  induction d as [|[k' v'] d IH]; simpl; [done|].
  destruct (decide (k = k')) as [->|?].
  - intros [= ->]. apply list_elem_of_here.
  - intros. by apply list_elem_of_further, IH.
Qed.

Lemma dict_get_mid d1 d2 k v :
  k ∉ dict_keys d1 → dict_get (d1 ++ (k, v) :: d2) k = Some v.
Proof.
  unfold dict_keys. induction d1 as [|[k' v'] d1 IH]; simpl.
  - by rewrite decide_True.
  - rewrite not_elem_of_cons. intros [? ?]. by rewrite decide_False, IH.
Qed.

Lemma dict_set_absent d k v :
  dict_get d k = None → dict_set d k v = d ++ [(k, v)].
Proof.
  induction d as [|[k' v'] d IH]; simpl; [done|].
  destruct (decide (k = k')); [done|]. intros. by rewrite IH.
Qed.

Lemma dict_set_keys_present d k v v0 :
  dict_get d k = Some v0 → dict_keys (dict_set d k v) = dict_keys d.
Proof.
  unfold dict_keys. induction d as [|[k' v'] d IH]; csimpl; [done|].
  destruct (decide (k = k')) as [->|?]; csimpl; [done|].
  intros. f_equal. by apply IH.
Qed.

Lemma dict_set_length_present d k v v0 :
  dict_get d k = Some v0 → length (dict_set d k v) = length d.
Proof.
  intros Hget.
  pose proof (f_equal length (dict_set_keys_present d k v v0 Hget)) as E.
  unfold dict_keys in E. by rewrite !length_fmap in E.
Qed.

Lemma dict_del_mid d1 d2 k v :
  k ∉ dict_keys d1 → dict_del (d1 ++ (k, v) :: d2) k = d1 ++ d2.
Proof.
  unfold dict_keys. induction d1 as [|[k' v'] d1 IH]; simpl.
  - by rewrite decide_True.
  - rewrite not_elem_of_cons. intros [? ?]. by rewrite decide_False, IH.
Qed.

Lemma dict_get_del_ne d k k' :
  k ≠ k' → dict_get (dict_del d k) k' = dict_get d k'.
Proof.
  intros Hne. induction d as [|[k0 v0] d IH]; simpl; [done|].
  destruct (decide (k = k0)) as [->|?]; simpl.
  - by rewrite decide_False.
  - by rewrite IH.
Qed.

Lemma dict_del_sublist d k : dict_del d k `sublist_of` d.
Proof.
  induction d as [|[k0 v0] d IH]; simpl; [done|].
  destruct (decide (k = k0)).
  - by apply sublist_cons.
  - by apply sublist_skip.
Qed.


Lemma dict_split_key d k l1 l2 :
  dict_keys d = l1 ++ k :: l2 →
  ∃ d1 v d2, d = d1 ++ (k, v) :: d2 ∧ dict_keys d1 = l1 ∧ dict_keys d2 = l2.
Proof.
  unfold dict_keys. intros Hk.
  apply fmap_app_inv in Hk as (d1 & d' & E1 & E2 & ->).
  symmetry in E2.
  apply fmap_cons_inv in E2 as ([k' v] & d2 & Ek & E3 & ->).
  simpl in Ek. subst k'. by exists d1, v, d2.
Qed.

End DictFacts.

Lemma py_min_fold_in {A : Type} (f : A → Z) (xs : list A) (seed : A) :
  fold_left (λ best y, if bool_decide (f y < f best)%Z then y else best) xs seed
    ∈ seed :: xs.
Proof.
  revert seed. induction xs as [|y ys Hrec]; intros seed; simpl.
  - apply list_elem_of_here.
  - pose proof (Hrec (if bool_decide (f y < f seed)%Z then y else seed)) as Hin.
    apply elem_of_cons in Hin as [->|Hin].
    + case_bool_decide; [apply list_elem_of_further|]; apply list_elem_of_here.
    + by do 2 apply list_elem_of_further.
Qed.

Lemma py_min_in {A : Type} (f : A → Z) (xs : list A) (x : A) :
  PyDict.py_min f xs = Some x → x ∈ xs.
Proof.
  destruct xs as [|x0 xs]; simpl; [done|].
  intros [= <-]. apply py_min_fold_in.
Qed.


(** [min(xs, key=f)] returns the first of the smallest elements. *)
Lemma py_min_fold_first {A : Type} (f : A → Z) (l pre mid : list A) (best : A) :
  (∀ y, y ∈ pre → (f best < f y)%Z) →
  (∀ y, y ∈ mid → (f best ≤ f y)%Z) →
  ∃ l1 l2,
    pre ++ best :: mid ++ l
      = l1 ++ fold_left (λ b y, if bool_decide (f y < f b)%Z then y else b) l best :: l2
    ∧ (∀ y, y ∈ l1 →
         (f (fold_left (λ b y, if bool_decide (f y < f b)%Z then y else b) l best) < f y)%Z)
    ∧ (∀ y, y ∈ l2 →
         (f (fold_left (λ b y, if bool_decide (f y < f b)%Z then y else b) l best) ≤ f y)%Z).
Proof.
  revert pre mid best. induction l as [|y l IH]; intros pre mid best Hpre Hmid.
  - exists pre, mid. by rewrite app_nil_r.
  - simpl. case_bool_decide as Hlt.
    + destruct (IH (pre ++ best :: mid) [] y) as (l1 & l2 & E & H1 & H2).
      * intros z [Hz|Hz]%elem_of_app.
        -- specialize (Hpre z Hz). lia.
        -- apply elem_of_cons in Hz as [->|Hz]; [done|].
           specialize (Hmid z Hz). lia.
      * by intros z ?%elem_of_nil.
      * exists l1, l2. split; [|done]. rewrite <-E. simpl.
        by rewrite <-app_assoc.
    + destruct (IH pre (mid ++ [y]) best) as (l1 & l2 & E & H1 & H2).
      * done.
      * intros z [Hz|Hz]%elem_of_app; [by apply Hmid|].
        apply list_elem_of_singleton in Hz as ->. lia.
      * exists l1, l2. split; [|done]. rewrite <-E.
        by rewrite <-app_assoc.
Qed.

Lemma py_min_first {A : Type} (f : A → Z) (xs : list A) (x : A) :
  PyDict.py_min f xs = Some x →
  ∃ l1 l2, xs = l1 ++ x :: l2
    ∧ (∀ y, y ∈ l1 → (f x < f y)%Z) ∧ (∀ y, y ∈ l2 → (f x ≤ f y)%Z).
Proof.
  destruct xs as [|x0 xs]; simpl; [done|]. intros [= <-].
  destruct (py_min_fold_first f xs [] [] x0) as (l1 & l2 & E & H1 & H2).
  - by intros z ?%elem_of_nil.
  - by intros z ?%elem_of_nil.
  - by exists l1, l2.
Qed.

Lemma dict_get_in_NoDup {K V : Type} `{EqDecision K}
    (d : PyDict.dict K V) (k : K) (v : V) :
  NoDup (PyDict.dict_keys d) → (k, v) ∈ d → PyDict.dict_get d k = Some v.
Proof.
  intros Hnd [d1 [d2 ->]]%list_elem_of_split.
  apply dict_get_mid. unfold PyDict.dict_keys in *.
  rewrite fmap_app, fmap_cons in Hnd. simpl in Hnd.
  apply NoDup_app in Hnd as (_ & Hd1 & _).
  intros Hin. apply (Hd1 k Hin). apply list_elem_of_here.
Qed.

(** ** The unet-graph cache *)

Section PipelineFacts.
Import PyDict Pipeline.
Local Open Scope Z_scope.
Implicit Types (d : dict Shape Entry) (p : Pipe) (a : CallArgs).

(** *** The eviction loop *)

Lemma shape_to_del_in d k : shape_to_del d = Some k → k ∈ dict_keys d.
Proof. apply py_min_in. Qed.

Lemma dict_del_length (d : dict Shape Entry) k :
  k ∈ dict_keys d → S (length (dict_del d k)) = length d.
Proof.
  induction d as [|[k' v] d IH]; simpl.
  - by intros ?%elem_of_nil.
  - intros Hin. case_decide; [done|].
    simpl. f_equal. apply IH.
    apply elem_of_cons in Hin as [?|?]; done.
Qed.


Lemma evict_lru_done size d :
  Z.of_nat (length d) < size → evict_lru size d = (d, [], LoopDone).
Proof.
  intros Hlt. rewrite evict_lru_equation_1.
  destruct (decide _); [lia | done].
Qed.

Lemma evict_lru_step size d k :
  size ≤ Z.of_nat (length d) → shape_to_del d = Some k →
  evict_lru size d
  = let '(d', gone, x) := evict_lru size (dict_del d k) in (d', k :: gone, x).
Proof.
  intros Hle Hk. rewrite (evict_lru_equation_1 size d).
  destruct (decide _); [|lia]. simpl.
  generalize (@eq_refl _ (shape_to_del d)).
  generalize (shape_to_del d) at 2 3. intros o e.
  destruct o as [k'|]; [|congruence].
  assert (k' = k) as -> by congruence. done.
Qed.

Lemma evict_lru_empty size d :
  size ≤ Z.of_nat (length d) → shape_to_del d = None →
  evict_lru size d = (d, [], LoopValueError).
Proof.
  intros Hle Hk. rewrite (evict_lru_equation_1 size d).
  destruct (decide _); [|lia]. simpl.
  generalize (@eq_refl _ (shape_to_del d)).
  generalize (shape_to_del d) at 2 3. intros o e.
  destruct o as [k'|]; [congruence | done].
Qed.

Lemma shape_to_del_None d : shape_to_del d = None → d = [].
Proof. by destruct d. Qed.

(** The shape chosen is that of the first entry among those with the
    smallest recency counter, and deleting it removes that entry only. *)
Lemma shape_to_del_first d k :
  NoDup (dict_keys d) → shape_to_del d = Some k →
  ∃ d1 e d2, d = d1 ++ (k, e) :: d2
    ∧ (∀ x, x ∈ d1 → e.1 < x.2.1) ∧ (∀ x, x ∈ d2 → e.1 ≤ x.2.1)
    ∧ dict_del d k = d1 ++ d2.
Proof.
  intros Hnd Hk. apply py_min_first in Hk as (l1 & l2 & Hkeys & Hl1 & Hl2).
  destruct (dict_split_key d k l1 l2 Hkeys) as (d1 & e & d2 & -> & E1 & E2).
  assert (Hk1 : k ∉ dict_keys d1).
  { rewrite Hkeys in Hnd. apply NoDup_app in Hnd as (_ & Hd & _).
    rewrite E1. intros Hin. apply (Hd k Hin), list_elem_of_here. }
  assert (Hrec : ∀ k' e', (k', e') ∈ d1 ++ (k, e) :: d2 →
                   recency (d1 ++ (k, e) :: d2) k' = e'.1).
  { intros k' [t' g'] Hin. unfold recency.
    by rewrite (dict_get_in_NoDup _ _ _ Hnd Hin). }
  assert (Hke : recency (d1 ++ (k, e) :: d2) k = e.1).
  { apply Hrec, elem_of_app. right. apply list_elem_of_here. }
  exists d1, e, d2. split_and!; [done| | |by apply dict_del_mid].
  - intros [k' e'] Hin. simpl. rewrite <-Hke, <-(Hrec k' e').
    + apply Hl1. rewrite <-E1. unfold dict_keys.
      apply list_elem_of_fmap. by exists (k', e').
    + apply elem_of_app. by left.
  - intros [k' e'] Hin. simpl. rewrite <-Hke, <-(Hrec k' e').
    + apply Hl2. rewrite <-E2. unfold dict_keys.
      apply list_elem_of_fmap. by exists (k', e').
    + apply elem_of_app. right. by apply list_elem_of_further.
Qed.

(** How the loop ends, whatever the dict. *)
Lemma evict_lru_exit size d d' gone x :
  evict_lru size d = (d', gone, x) →
  match x with
  | LoopDone =>
      Z.of_nat (length d') < size
      ∧ Z.of_nat (length d') = Z.min (Z.of_nat (length d)) (size - 1)
  | LoopValueError => d' = [] ∧ size ≤ 0
  end.
Proof.
  remember (length d) as n eqn:Hn. revert d Hn d' gone x.
  induction n as [n IH] using lt_wf_ind. intros d Hn d' gone x.
  destruct (decide (size ≤ Z.of_nat (length d))) as [Hle|Hgt].
  - destruct (shape_to_del d) as [k|] eqn:Hk.
    + rewrite (evict_lru_step _ _ _ Hle Hk).
      destruct (evict_lru size (dict_del d k)) as [[d0 gone0] x0] eqn:Hrec.
      intros [= <- <- <-].
      pose proof (dict_del_length _ _ (shape_to_del_in _ _ Hk)) as Hlen.
      assert (Hlt : (length (dict_del d k) < n)%nat) by lia.
      specialize (IH _ Hlt (dict_del d k) eq_refl d0 gone0 x0 Hrec).
      destruct x0; [|done]. lia.
    + rewrite (evict_lru_empty _ _ Hle Hk). intros [= <- <- <-].
      apply shape_to_del_None in Hk as ->. simpl in Hle. split; [done|lia].
  - rewrite evict_lru_done by lia. intros [= <- <- <-]. lia.
Qed.

(** What the loop keeps and what it deletes, on a dict with distinct
    keys: the entries kept are untouched, and none of them is older than
    a deleted one. *)
Lemma evict_lru_spec size d d' gone x :
  NoDup (dict_keys d) →
  evict_lru size d = (d', gone, x) →
  d' `sublist_of` d
  ∧ dict_keys d ≡ₚ gone ++ dict_keys d'
  ∧ (∀ k e, k ∈ gone → e ∈ d' → recency d k ≤ e.2.1)
  ∧ (Z.of_nat (length d) < size → d' = d ∧ gone = []).
Proof.
  remember (length d) as n eqn:Hn. revert d Hn d' gone x.
  induction n as [n IH] using lt_wf_ind. intros d Hn d' gone x Hnd.
  destruct (decide (size ≤ Z.of_nat (length d))) as [Hle|Hgt].
  - destruct (shape_to_del d) as [k|] eqn:Hk.
    + rewrite (evict_lru_step _ _ _ Hle Hk).
      destruct (evict_lru size (dict_del d k)) as [[d0 gone0] x0] eqn:Hrec.
      intros [= <- <- <-].
      destruct (shape_to_del_first d k Hnd Hk)
        as (d1 & e & d2 & Hd & Hold1 & Hold2 & Hdel).
      assert (Hnd' : NoDup (dict_keys (dict_del d k))).
      { eapply sublist_NoDup; [exact Hnd|].
        unfold dict_keys. apply fmap_sublist, dict_del_sublist. }
      assert (Hlen : (length (dict_del d k) < n)%nat).
      { apply shape_to_del_in, dict_del_length in Hk. lia. }
      destruct (IH _ Hlen (dict_del d k) eq_refl d0 gone0 x0 Hnd' Hrec)
        as (Hsub & Hperm & Hold & _).
      assert (Hkeys : dict_keys d ≡ₚ k :: dict_keys (dict_del d k)).
      { rewrite Hdel, Hd. unfold dict_keys. rewrite !fmap_app, fmap_cons.
        simpl. by rewrite Permutation_middle. }
      split_and!.
      * etrans; [exact Hsub | apply dict_del_sublist].
      * rewrite Hkeys, Hperm. done.
      * intros k' e' Hin He'.
        assert (He'' : e' ∈ d1 ++ d2).
        { rewrite <-Hdel. eapply elem_of_sublist; [exact He'|done]. }
        apply elem_of_cons in Hin as [->|Hin].
        -- assert (recency d k = e.1) as ->.
           { unfold recency. rewrite Hd at 1.
             rewrite (dict_get_in_NoDup _ k e); [done| by rewrite <-Hd |].
             apply elem_of_app. right. apply list_elem_of_here. }
           apply elem_of_app in He'' as [?|?]; [|by apply Hold2].
           apply Z.lt_le_incl. by apply Hold1.
        -- assert (k ≠ k').
           { intros ->. rewrite Hkeys in Hnd. apply NoDup_cons in Hnd as [Hk' _].
             apply Hk'. rewrite Hperm. apply elem_of_app. by left. }
           specialize (Hold k' e' Hin He'). unfold recency in *.
           by rewrite dict_get_del_ne in Hold.
      * lia.
    + rewrite (evict_lru_empty _ _ Hle Hk). intros [= <- <- <-].
      split_and!; [done|done|by intros ? ? ?%elem_of_nil|lia].
  - rewrite evict_lru_done by lia. intros [= <- <- <-].
    split_and!; [done|done|by intros ? ? ?%elem_of_nil|done].
Qed.

(** The loop only deletes. *)
Lemma evict_lru_sublist size d d' gone x :
  evict_lru size d = (d', gone, x) → d' `sublist_of` d.
Proof.
  remember (length d) as n eqn:Hn. revert d Hn d' gone x.
  induction n as [n IH] using lt_wf_ind. intros d Hn d' gone x.
  destruct (decide (size ≤ Z.of_nat (length d))) as [Hle|Hgt].
  - destruct (shape_to_del d) as [k|] eqn:Hk.
    + rewrite (evict_lru_step _ _ _ Hle Hk).
      destruct (evict_lru size (dict_del d k)) as [[d0 gone0] x0] eqn:Hrec.
      intros [= <- <- <-].
      pose proof (dict_del_length _ _ (shape_to_del_in _ _ Hk)) as Hlen.
      assert (Hlt : (length (dict_del d k) < n)%nat) by lia.
      etrans; [exact (IH _ Hlt (dict_del d k) eq_refl d0 gone0 x0 Hrec)|].
      apply dict_del_sublist.
    + rewrite (evict_lru_empty _ _ Hle Hk). by intros [= <- <- <-].
  - rewrite evict_lru_done by lia. by intros [= <- <- <-].
Qed.

(** *** One call *)

Lemma compiler_calls_app tr1 tr2 :
  compiler_calls (tr1 ++ tr2) = (compiler_calls tr1 + compiler_calls tr2)%nat.
Proof.
  induction tr1 as [|ev tr1 IH]; simpl; [done|]. destruct ev; simpl; lia.
Qed.

Lemma compiler_calls_evict (gone : list Shape) :
  compiler_calls (EvEvict <$> gone) = 0%nat.
Proof. by induction gone. Qed.

Lemma args_ok_ext p q a :
  unet_in_channels p = unet_in_channels q → args_ok p a = args_ok q a.
Proof. unfold args_ok, latents_shape. by intros ->. Qed.

Lemma pipeline_call_ok env a p :
  args_ok p a = true → pipeline_call env a p = unet_cache_step env a p.
Proof.
  unfold args_ok, pipeline_call. destruct (batch_size (prompt a)); [|done].
  intros [[Hh Hw]%andb_prop Hl]%andb_prop.
  apply bool_decide_eq_true in Hh, Hw.
  rewrite bool_decide_eq_false_2 by (intros [?|?]; done).
  destruct (latents a); [|done].
  apply bool_decide_eq_true in Hl. by rewrite bool_decide_eq_false_2 by auto.
Qed.

(** A call that raises in the checks leaves the pipeline as it was;
    otherwise it is the cache step. *)
Lemma pipeline_call_cases env a p :
  (args_ok p a = true ∧ pipeline_call env a p = unet_cache_step env a p)
  ∨ (args_ok p a = false ∧ ∃ e, pipeline_call env a p = (p, Raised e)).
Proof.
  destruct (args_ok p a) eqn:Hok.
  - left. by rewrite pipeline_call_ok.
  - right. split; [done|]. revert Hok. unfold args_ok, pipeline_call.
    destruct (batch_size (prompt a)); [|by eexists].
    destruct (decide (height a `mod` 8 = 0)) as [Hh|Hh];
      [|rewrite (bool_decide_eq_true_2 (_ ∨ _)) by auto; by eexists].
    destruct (decide (width a `mod` 8 = 0)) as [Hw|Hw];
      [|rewrite (bool_decide_eq_true_2 (_ ∨ _)) by auto; by eexists].
    rewrite (bool_decide_eq_false_2 (_ ∨ _)) by (intros [?|?]; done).
    rewrite !bool_decide_eq_true_2 by done. simpl.
    destruct (latents a); [|done].
    intros Hne%bool_decide_eq_false. rewrite bool_decide_eq_true_2 by done.
    by eexists.
Qed.

Lemma unet_cache_step_in_channels env a p :
  unet_in_channels (unet_cache_step env a p).1 = unet_in_channels p.
Proof.
  unfold unet_cache_step. destruct (compile_unet a); [|done].
  destruct (dict_get _ _) as [[t g]|]; [done|].
  destruct (evict_lru _ _) as [[d gone] []]; [by destruct env | done].
Qed.

Lemma pipeline_call_in_channels env a p :
  unet_in_channels (pipeline_call env a p).1 = unet_in_channels p.
Proof.
  destruct (pipeline_call_cases env a p) as [[_ ->]|[_ [e ->]]]; [|done].
  apply unet_cache_step_in_channels.
Qed.

(** A call that is served leaves its graph in the cache under its key. *)
Lemma unet_cache_step_served env a p p' g :
  unet_cache_step env a p = (p', Returned (Some g)) →
  compile_unet a = true
  ∧ ∃ t, dict_get (unet_graphs p') (cache_key a) = Some (t, g).
Proof.
  unfold unet_cache_step. destruct (compile_unet a); [|done].
  destruct (dict_get _ _) as [[t g0]|] eqn:Hget.
  - intros [= <- <-]. split; [done|]. eexists. apply dict_get_set_eq.
  - destruct (evict_lru _ _) as [[d gone] []]; [|done].
    destruct env; intros [= <- <-]. split; [done|]. eexists.
    apply dict_get_set_eq.
Qed.

Lemma pipeline_call_served env a p p' g :
  pipeline_call env a p = (p', Returned (Some g)) →
  args_ok p a = true ∧ compile_unet a = true
  ∧ ∃ t, dict_get (unet_graphs p') (cache_key a) = Some (t, g).
Proof.
  destruct (pipeline_call_cases env a p) as [[Hok ->]|[_ [e ->]]]; [|done].
  intros H. split; [done|]. by eapply unet_cache_step_served.
Qed.

(** A call whose key is cached is served from the cache. *)
Lemma unet_cache_step_hit env a p t g :
  compile_unet a = true →
  dict_get (unet_graphs p) (cache_key a) = Some (t, g) →
  unet_cache_step env a p
  = (with_cache p
       (dict_set (unet_graphs p) (cache_key a) (unet_graphs_lru_cache_time p + 1, g))
       (unet_graphs_lru_cache_time p + 1) (objects p) [],
     Returned (Some g)).
Proof. intros Hc Hget. unfold unet_cache_step. by rewrite Hc, Hget. Qed.

(** No call invokes the compiler more than once. *)
Lemma pipeline_call_compiles_once env a p :
  (compiler_calls (trace (pipeline_call env a p).1)
     ≤ S (compiler_calls (trace p)))%nat.
Proof.
  destruct (pipeline_call_cases env a p) as [[_ ->]|[_ [e ->]]]; [|simpl; lia].
  unfold unet_cache_step. destruct (compile_unet a); [|simpl; lia].
  destruct (dict_get _ _) as [[t g]|].
  - simpl. rewrite app_nil_r. lia.
  - destruct (evict_lru _ _) as [[d gone] []]; [destruct env|]; simpl;
      rewrite ?compiler_calls_app, ?compiler_calls_evict; simpl; lia.
Qed.

(** A call that can be served is: the checks pass, the capacity is
    positive and the compiler does not fail. *)
Lemma pipeline_call_total a p :
  args_ok p a = true → compile_unet a = true →
  1 ≤ unet_graphs_cache_size p →
  ∃ p' g, pipeline_call CompilerOk a p = (p', Returned (Some g)).
Proof.
  intros Hok Hc Hsize. rewrite pipeline_call_ok by done.
  unfold unet_cache_step. rewrite Hc.
  destruct (dict_get _ _) as [[t g]|]; [by eexists _, _|].
  destruct (evict_lru _ _) as [[d gone] x] eqn:Hev.
  apply evict_lru_exit in Hev. destruct x; [by eexists _, _|].
  destruct Hev as [_ ?]. lia.
Qed.

Lemma unet_cache_step_cache_size env a p :
  unet_graphs_cache_size (unet_cache_step env a p).1 = unet_graphs_cache_size p.
Proof.
  unfold unet_cache_step. destruct (compile_unet a); [|done].
  destruct (dict_get _ _) as [[t g]|]; [done|].
  destruct (evict_lru _ _) as [[d gone] []]; [by destruct env | done].
Qed.

Lemma pipeline_call_cache_size env a p :
  unet_graphs_cache_size (pipeline_call env a p).1 = unet_graphs_cache_size p.
Proof.
  destruct (pipeline_call_cases env a p) as [[_ ->]|[_ [e ->]]]; [|done].
  apply unet_cache_step_cache_size.
Qed.

Lemma pipeline_call_unserved env a p :
  compile_unet a = true → (pipeline_call env a p).2 ≠ Returned None.
Proof.
  intros Hc.
  destruct (pipeline_call_cases env a p) as [[_ ->]|[_ [e ->]]]; [|done].
  unfold unet_cache_step. rewrite Hc.
  destruct (dict_get _ _) as [[t g]|]; [done|].
  destruct (evict_lru _ _) as [[d gone] []]; [by destruct env | done].
Qed.

(** A call whose key is cached is served from the cache, unless it raises
    in the checks; the compiler is not invoked and the key keeps its
    graph. *)
Lemma pipeline_call_cached env a p t g :
  compile_unet a = true →
  dict_get (unet_graphs p) (cache_key a) = Some (t, g) →
  ((pipeline_call env a p).2 = Returned (Some g)
   ∨ ∃ e, (pipeline_call env a p).2 = Raised e)
  ∧ compiler_calls (trace (pipeline_call env a p).1) = compiler_calls (trace p)
  ∧ ∃ t', dict_get (unet_graphs (pipeline_call env a p).1) (cache_key a)
          = Some (t', g).
Proof.
  intros Hc Hget.
  destruct (pipeline_call_cases env a p) as [[_ ->]|[_ [e ->]]].
  - rewrite (unet_cache_step_hit _ _ _ _ _ Hc Hget). simpl.
    rewrite app_nil_r. split_and!; [by left|done|].
    eexists. apply dict_get_set_eq.
  - simpl. split_and!; [right; by exists e|done|by exists t].
Qed.

(** A call that raises does not put its key into the cache. *)
Lemma pipeline_call_raised env a p e :
  dict_get (unet_graphs p) (cache_key a) = None →
  (pipeline_call env a p).2 = Raised e →
  dict_get (unet_graphs (pipeline_call env a p).1) (cache_key a) = None.
Proof.
  intros Hget.
  destruct (pipeline_call_cases env a p) as [[_ ->]|[_ [e' ->]]]; [|done].
  unfold unet_cache_step. destruct (compile_unet a); [|done]. rewrite Hget.
  destruct (evict_lru _ _) as [[d gone] x] eqn:Hev.
  assert (Hd : dict_get d (cache_key a) = None).
  { apply dict_get_None. intros Hin. apply dict_get_None in Hget. apply Hget.
    eapply elem_of_sublist; [exact Hin|].
    apply fmap_sublist. by eapply evict_lru_sublist. }
  destruct x; [destruct env|]; done.
Qed.

(** Calls on a cached key, one after the other: none invokes the
    compiler and all that are served are served by the cached graph. *)
Lemma run_calls_cached (cs : list (Compiler * CallArgs)) p k g t :
  dict_get (unet_graphs p) k = Some (t, g) →
  Forall (λ ea, cache_key ea.2 = k ∧ compile_unet ea.2 = true) cs →
  compiler_calls (trace (run_calls p cs).1) = compiler_calls (trace p)
  ∧ Forall (only_served_by g) (run_calls p cs).2.
Proof.
  revert p t. induction cs as [|[env a] cs IH]; intros p t Hget Hall.
  - simpl. by split.
  - apply Forall_cons in Hall as [[Hk Hc] Hall]. simpl in *. subst k.
    destruct (pipeline_call_cached env a p t g Hc Hget) as (Ho & Hn & t' & Hget').
    destruct (pipeline_call env a p) as [p1 o]. simpl in *.
    destruct (IH p1 t' Hget' Hall) as [Hn' Hos].
    destruct (run_calls p1 cs) as [pn os]. simpl in *.
    split; [congruence | by constructor].
Qed.

(** Calls on one key, cached or not: one graph object serves all the
    calls that are served. *)
Lemma run_calls_same_key (cs : list (Compiler * CallArgs)) p k :
  Forall (λ ea, cache_key ea.2 = k ∧ compile_unet ea.2 = true) cs →
  ∃ g, Forall (only_served_by g) (run_calls p cs).2.
Proof.
  revert p. induction cs as [|[env a] cs IH]; intros p Hall.
  - exists 0%nat. simpl. constructor.
  - destruct (dict_get (unet_graphs p) k) as [[t g]|] eqn:Hget.
    { exists g. by eapply run_calls_cached. }
    apply Forall_cons in Hall as [[Hk Hc] Hall]. simpl in *. subst k.
    pose proof (pipeline_call_served env a p) as Hserved.
    pose proof (pipeline_call_unserved env a p Hc) as Hnone.
    pose proof (pipeline_call_raised env a p) as Hraised.
    destruct (pipeline_call env a p) as [p1 [[g|]|e]]; simpl in *; [|done|].
    + destruct (Hserved p1 g eq_refl) as (_ & _ & t & Hget1).
      destruct (run_calls_cached cs p1 _ g t Hget1 Hall) as [_ Hos].
      exists g. destruct (run_calls p1 cs) as [pn os]. simpl in *.
      constructor; [by left|done].
    + destruct (IH p1 Hall) as [g Hos]. exists g.
      destruct (run_calls p1 cs) as [pn os]. simpl in *.
      constructor; [right; by exists e|done].
Qed.

(** Calls whose arguments pass the checks, on a cache of positive size
    and with a compiler that does not fail, are all served. *)
Lemma run_calls_total (cs : list (Compiler * CallArgs)) p :
  1 ≤ unet_graphs_cache_size p →
  Forall (λ ea, ea.1 = CompilerOk ∧ args_ok p ea.2 = true
                ∧ compile_unet ea.2 = true) cs →
  Forall (λ o, ∃ g, o = Returned (Some g)) (run_calls p cs).2.
Proof.
  revert p. induction cs as [|[env a] cs IH]; intros p Hsize Hall.
  - simpl. constructor.
  - apply Forall_cons in Hall as [(Henv & Hok & Hc) Hall]. simpl in *. subst env.
    destruct (pipeline_call_total a p Hok Hc Hsize) as (p1 & g & Hcall).
    pose proof (pipeline_call_cache_size CompilerOk a p) as Hsz.
    pose proof (pipeline_call_in_channels CompilerOk a p) as Hch.
    rewrite Hcall in *. simpl in *.
    assert (Hrest : Forall (λ o, ∃ g, o = Returned (Some g)) (run_calls p1 cs).2).
    { apply IH; [lia|]. eapply Forall_impl; [exact Hall|].
      intros [e' a'] (? & ? & ?). split_and!; [done| |done].
      by rewrite (args_ok_ext p1 p). }
    destruct (run_calls p1 cs) as [pn os]. simpl in *.
    constructor; [by exists g|done].
Qed.

End PipelineFacts.

(** ** Claims about the pipeline cache *)

Section PipelineClaims.
Import PyDict Pipeline.
Local Open Scope Z_scope.
Implicit Types (d : dict Shape Entry) (p : Pipe) (a : CallArgs).

(** *** Filling and overflowing the cache *)






(** *** Changing the capacity *)

Lemma shrink_keeps_entries :
  let p := (run_calls (set_unet_graphs_cache_size 2 sd_pipe)
              [(CompilerOk, request 512 512); (CompilerOk, request 768 768)]).1 in
  let q := set_unet_graphs_cache_size 1 p in
  length (unet_graphs p) = 2%nat
  ∧ unet_graphs_cache_size q = 1
  ∧ unet_graphs q = unet_graphs p
  ∧ ¬ Z.of_nat (length (unet_graphs q)) ≤ unet_graphs_cache_size q.
Proof. vm_compute. split_and!; [done..|]. intros H. by apply H. Qed.

(** C3, as the code has it. [set_unet_graphs_cache_size n] stores [n] and
    deletes nothing. The bound is applied by the next call that misses:
    if it is served, the entries it kept are entries of the old dict,
    none of them older than a deleted one, there are
    [min (len, n - 1)] of them, and with the new entry the dict holds at
    most [n]. A call that hits leaves the number of entries as it is. *)
Theorem capacity_applied_on_miss (n : Z) env a p :
  NoDup (dict_keys (unet_graphs p)) →
  let q := set_unet_graphs_cache_size n p in
  let r := pipeline_call env a q in
  unet_graphs q = unet_graphs p ∧ unet_graphs_cache_size q = n
  ∧ (∀ g, dict_get (unet_graphs p) (cache_key a) = None →
       r.2 = Returned (Some g) →
       Z.of_nat (length (unet_graphs r.1)) ≤ n
       ∧ ∃ kept gone,
           unet_graphs r.1
           = kept ++ [(cache_key a, (unet_graphs_lru_cache_time p + 1, g))]
           ∧ kept `sublist_of` unet_graphs p
           ∧ dict_keys (unet_graphs p) ≡ₚ gone ++ dict_keys kept
           ∧ (∀ k e, k ∈ gone → e ∈ kept → recency (unet_graphs p) k ≤ e.2.1)
           ∧ Z.of_nat (length kept)
             = Z.min (Z.of_nat (length (unet_graphs p))) (n - 1))
  ∧ (is_Some (dict_get (unet_graphs p) (cache_key a)) →
     length (unet_graphs r.1) = length (unet_graphs p)).
Proof.
  intros Hnd. cbv zeta. split_and!; [done..| |].
  - intros g Hget. set (q := set_unet_graphs_cache_size n p).
    destruct (pipeline_call_cases env a q) as [[_ ->]|[_ [e ->]]]; [|done].
    unfold unet_cache_step. destruct (compile_unet a); [|done].
    change (unet_graphs q) with (unet_graphs p). rewrite Hget.
    change (unet_graphs_cache_size q) with n.
    destruct (evict_lru n (unet_graphs p)) as [[d gone] x] eqn:Hev.
    destruct (evict_lru_spec _ _ _ _ _ Hnd Hev) as (Hsub & Hperm & Hold & _).
    apply evict_lru_exit in Hev. destruct x; [|done].
    destruct Hev as [Hlt Hmin].
    assert (Hfresh : dict_get d (cache_key a) = None).
    { apply dict_get_None. intros Hin. apply dict_get_None in Hget.
      apply Hget. rewrite Hperm. apply elem_of_app. by right. }
    destruct env; intros [= <-]; simpl.
    rewrite dict_set_absent by done. split.
    + rewrite length_app. simpl. lia.
    + by exists d, gone.
  - intros [[t g] Hget]. set (q := set_unet_graphs_cache_size n p).
    destruct (pipeline_call_cases env a q) as [[_ ->]|[_ [e ->]]]; [|done].
    unfold unet_cache_step. destruct (compile_unet a); [|done].
    change (unet_graphs q) with (unet_graphs p). rewrite Hget. simpl.
    by eapply dict_set_length_present.
Qed.

(** The same two graphs, capacity set to 1, and a request for a third shape. *)
Lemma capacity_applied_on_miss_witness :
  let p := (run_calls (set_unet_graphs_cache_size 2 sd_pipe)
              [(CompilerOk, request 512 512); (CompilerOk, request 768 768)]).1 in
  NoDup (dict_keys (unet_graphs p))
  ∧ Z.of_nat (length (unet_graphs
       (pipeline_call CompilerOk (request 1024 1024)
          (set_unet_graphs_cache_size 1 p)).1)) ≤ 1.
Proof.
  intros p.
  assert (Hnd : NoDup (dict_keys (unet_graphs p))) by compute_done.
  split; [exact Hnd|].
  destruct (capacity_applied_on_miss 1 CompilerOk (request 1024 1024) p Hnd)
    as (_ & _ & Hmiss & _).
  by apply (Hmiss 2%nat).
Defined.

(** *** Well-formed caches *)

Lemma dict_set_same_graph d k t t' g :
  dict_get d k = Some (t, g) → (dict_set d k (t', g)).*2.*2 = d.*2.*2.
Proof.
  induction d as [|[k0 [t0 g0]] d IH]; csimpl; [done|].
  destruct (decide (k = k0)) as [->|?]; csimpl.
  - by intros [= _ ->].
  - intros. f_equal. by apply IH.
Qed.

Lemma dict_get_graph_in d k t g :
  dict_get d k = Some (t, g) → g ∈ d.*2.*2.
Proof.
  intros Hin%dict_get_Some_in.
  apply list_elem_of_fmap. exists (t, g). split; [done|].
  apply list_elem_of_fmap. by exists (k, (t, g)).
Qed.

(** Two keys that hold the same graph object are the same key. *)
Lemma dict_graph_inj d k1 k2 t1 t2 g :
  NoDup (d.*2.*2) →
  dict_get d k1 = Some (t1, g) → dict_get d k2 = Some (t2, g) → k1 = k2.
Proof.
  induction d as [|[k0 [t0 g0]] d IH]; csimpl; [done|].
  rewrite NoDup_cons. intros [Hg0 Hnd].
  destruct (decide (k1 = k0)) as [->|?], (decide (k2 = k0)) as [->|?];
    [done| | |by apply IH].
  - intros [= _ ->] Hin%dict_get_graph_in. done.
  - intros Hin%dict_get_graph_in [= _ ->]. done.
Qed.

Lemma init_wf ic ml hs : cache_wf (init ic ml hs).
Proof.
  split; simpl; [apply NoDup_nil_2 | apply NoDup_nil_2 |].
  by intros g ?%elem_of_nil.
Qed.

Lemma set_unet_graphs_cache_size_wf n p :
  cache_wf p → cache_wf (set_unet_graphs_cache_size n p).
Proof. by intros []. Qed.

Lemma unet_cache_step_wf env a p :
  cache_wf p → cache_wf (unet_cache_step env a p).1.
Proof.
  intros [Hk Hg Hf]. unfold unet_cache_step.
  destruct (compile_unet a); [|done].
  destruct (dict_get _ _) as [[t g]|] eqn:Hget.
  - split; simpl.
    + by rewrite (dict_set_keys_present _ _ _ _ Hget).
    + by rewrite (dict_set_same_graph _ _ _ _ _ Hget).
    + by rewrite (dict_set_same_graph _ _ _ _ _ Hget).
  - destruct (evict_lru _ _) as [[d gone] x] eqn:Hev.
    destruct (evict_lru_spec _ _ _ _ _ Hk Hev) as (Hsub & Hperm & _ & _).
    assert (Hk' : NoDup (dict_keys d)).
    { eapply sublist_NoDup; [exact Hk|]. by apply fmap_sublist. }
    assert (Hsub' : d.*2.*2 `sublist_of` (unet_graphs p).*2.*2)
      by (by do 2 apply fmap_sublist).
    assert (Hg' : NoDup (d.*2.*2)) by (by eapply sublist_NoDup).
    assert (Hf' : ∀ g, g ∈ d.*2.*2 → (g < objects p)%nat).
    { intros g Hin. apply Hf. by eapply elem_of_sublist. }
    assert (Hfresh : dict_get d (cache_key a) = None).
    { apply dict_get_None. intros Hin. apply dict_get_None in Hget.
      apply Hget. rewrite Hperm. apply elem_of_app. by right. }
    destruct x; [destruct env|]; split; simpl; try done;
      try (intros g Hin; specialize (Hf' g Hin); lia).
    + rewrite dict_set_absent by done. unfold dict_keys.
      rewrite fmap_app. apply NoDup_app. split_and!; [done| |apply NoDup_singleton].
      intros k Hin ->%list_elem_of_singleton.
      by apply dict_get_None in Hfresh.
    + rewrite dict_set_absent, !fmap_app by done. csimpl.
      apply NoDup_app. split_and!; [done| |apply NoDup_singleton].
      intros g Hin Heq%list_elem_of_singleton. specialize (Hf' _ Hin). lia.
    + rewrite dict_set_absent, !fmap_app by done. csimpl.
      intros g [Hin|Heq%list_elem_of_singleton]%elem_of_app; [|lia].
      specialize (Hf' _ Hin). lia.
Qed.

Lemma pipeline_call_wf env a p :
  cache_wf p → cache_wf (pipeline_call env a p).1.
Proof.
  destruct (pipeline_call_cases env a p) as [[_ ->]|[_ [e ->]]]; [|done].
  apply unet_cache_step_wf.
Qed.

(** *** What the key leaves out *)

Lemma batch_size_not_in_key :
  let a1 := request 512 512 in
  let a2 := mkArgs (PromptList 2) 512 512 true None true false in
  let r1 := pipeline_call CompilerOk a1 sd_pipe in
  let r2 := pipeline_call CompilerOk a2 r1.1 in
  shape_signature sd_pipe a1 = [[2; 4; 64; 64]; [2; 77; 768]]
  ∧ shape_signature sd_pipe a2 = [[4; 4; 64; 64]; [4; 77; 768]]
  ∧ r1.2 = Returned (Some 0%nat)
  ∧ r2.2 = Returned (Some 0%nat)
  ∧ compiler_calls (trace r2.1) = compiler_calls (trace r1.1).
Proof. by vm_compute. Qed.

(** C4, as the code has it. The graph that serves a call is looked up
    under [(height, width)] and nothing else. Of two calls made one after
    the other, the first served by [g1]: if the second has the same
    height and width it is served by [g1] without compiling, whatever its
    batch size, guidance or unrolling; if its height or width differs and
    it is served, then by another graph object, and the compiler runs
    exactly when that shape is not in the cache. *)
Theorem served_by_height_and_width env1 env2 a1 a2 p p1 g1 :
  cache_wf p →
  args_ok p a2 = true → compile_unet a2 = true →
  pipeline_call env1 a1 p = (p1, Returned (Some g1)) →
  (cache_key a2 = cache_key a1 →
     (pipeline_call env2 a2 p1).2 = Returned (Some g1)
     ∧ compiler_calls (trace (pipeline_call env2 a2 p1).1)
       = compiler_calls (trace p1))
  ∧ (cache_key a2 ≠ cache_key a1 →
     ∀ g2, (pipeline_call env2 a2 p1).2 = Returned (Some g2) →
       g2 ≠ g1
       ∧ (compiler_calls (trace (pipeline_call env2 a2 p1).1)
            = S (compiler_calls (trace p1))
          ↔ dict_get (unet_graphs p1) (cache_key a2) = None)).
Proof.
  intros Hwf Hok Hc Hfirst.
  pose proof (pipeline_call_wf env1 a1 p Hwf) as Hwf1.
  pose proof (pipeline_call_in_channels env1 a1 p) as Hch.
  rewrite Hfirst in Hwf1, Hch. simpl in Hwf1, Hch.
  apply pipeline_call_served in Hfirst as (_ & _ & t1 & Hget1).
  assert (Hok1 : args_ok p1 a2 = true) by (by rewrite (args_ok_ext p1 p)).
  rewrite pipeline_call_ok by done. split.
  - intros Hkey. rewrite <-Hkey in Hget1.
    rewrite (unet_cache_step_hit _ _ _ _ _ Hc Hget1). simpl.
    by rewrite app_nil_r.
  - intros Hkey g2. unfold unet_cache_step. rewrite Hc.
    destruct (dict_get (unet_graphs p1) (cache_key a2)) as [[t2 g]|] eqn:Hget2.
    + simpl. intros [= ->]. rewrite app_nil_r. split; [|split; [lia|done]].
      intros ->. apply Hkey.
      by eapply (dict_graph_inj (unet_graphs p1)); [apply Hwf1|..].
    + destruct (evict_lru _ _) as [[d gone] []]; [|done].
      destruct env2; simpl; intros [= <-]. split.
      * apply dict_get_graph_in, (wf_fresh _ Hwf1) in Hget1. lia.
      * rewrite !compiler_calls_app, compiler_calls_evict. simpl.
        split; [done|lia].
Qed.

(** The second call differs from the first in batch size, guidance and
    unrolling. *)
Lemma served_by_height_and_width_witness :
  cache_wf sd_pipe
  ∧ (pipeline_call CompilerOk
       (mkArgs (PromptList 2) 512 512 false None true true)
       (pipeline_call CompilerOk (request 512 512) sd_pipe).1).2
    = Returned (Some 0%nat).
Proof.
  split; [apply init_wf|].
  refine (proj1 (proj1 (served_by_height_and_width CompilerOk CompilerOk
            (request 512 512) (mkArgs (PromptList 2) 512 512 false None true true)
            sd_pipe _ 0%nat (init_wf 4 77 768) eq_refl eq_refl eq_refl) eq_refl)).
Defined.

(** *** Warmup *)

Lemma dict_set_graphs_subset d k t g g' :
  g' ∈ (dict_set d k (t, g)).*2.*2 → g' = g ∨ g' ∈ d.*2.*2.
Proof.
  induction d as [|[k0 [t0 g0]] d IH]; csimpl.
  - intros ->%list_elem_of_singleton. by left.
  - destruct (decide (k = k0)) as [->|?]; csimpl.
    + intros [->|?]%elem_of_cons; [by left|]. right. by apply list_elem_of_further.
    + intros [->|Hin]%elem_of_cons; [right; apply list_elem_of_here|].
      destruct (IH Hin) as [->|?]; [by left|].
      right. by apply list_elem_of_further.
Qed.

(** C5. A call that misses and is served has constructed a graph,
    compiled it, run it once and only then stored it, in that order and
    with nothing in between; a miss that raises, in the loop, in the
    compiler or in the warmup run, stores nothing. So if every cached
    graph has completed a run, this is still so after any call, and the
    graph that serves a call has completed a run. *)
Theorem warmup_precedes_insertion env a p :
  cache_warm p →
  let r := pipeline_call env a p in
  (dict_get (unet_graphs p) (cache_key a) = None →
     match r.2 with
     | Returned (Some g) =>
         ∃ gone, trace r.1
           = trace p ++ (EvEvict <$> gone)
             ++ [EvConstruct g (graph_kind a); EvCompile g true;
                 EvWarmup g true; EvInsert (cache_key a) g]
     | Returned None => r.1 = p
     | Raised _ =>
         unet_graphs r.1 `sublist_of` unet_graphs p
         ∧ ∀ k g, EvInsert k g ∉ drop (length (trace p)) (trace r.1)
     end)
  ∧ cache_warm r.1
  ∧ (∀ g, r.2 = Returned (Some g) → EvWarmup g true ∈ trace r.1).
Proof.
  intros Hwarm. cbv zeta. unfold cache_warm in *.
  destruct (pipeline_call_cases env a p) as [[_ ->]|[_ [e ->]]]; simpl.
  2:{ split_and!; [|done|done]. intros _. split; [done|].
      intros k g. rewrite drop_all. apply not_elem_of_nil. }
  unfold unet_cache_step. destruct (compile_unet a); [|by split_and!].
  destruct (dict_get _ _) as [[t g]|] eqn:Hget.
  - simpl. split_and!; [done| |].
    + intros g' Hin. rewrite app_nil_r.
      apply dict_set_graphs_subset in Hin as [->|Hin]; [|by apply Hwarm].
      by eapply Hwarm, dict_get_graph_in.
    + intros g' [= <-]. rewrite app_nil_r.
      by eapply Hwarm, dict_get_graph_in.
  - destruct (evict_lru _ _) as [[d gone] x] eqn:Hev.
    pose proof (evict_lru_sublist _ _ _ _ _ Hev) as Hsub.
    assert (Hwarm' : ∀ g tr, g ∈ d.*2.*2 → EvWarmup g true ∈ trace p ++ tr).
    { intros g tr Hin. apply elem_of_app. left. apply Hwarm.
      eapply elem_of_sublist; [exact Hin|]. by do 2 apply fmap_sublist. }
    assert (Hnoins : ∀ tr, (∀ k g, EvInsert k g ∉ tr) →
              ∀ k g, EvInsert k g
                ∉ drop (length (trace p)) (trace p ++ (EvEvict <$> gone) ++ tr)).
    { intros tr Htr k g. rewrite drop_app_length.
      intros [Hin|Hin]%elem_of_app; [|by eapply Htr].
      apply list_elem_of_fmap in Hin as (? & ? & _). done. }
    destruct x; [destruct env|]; simpl.
    + split_and!.
      * intros _. by exists gone.
      * intros g Hin. apply dict_set_graphs_subset in Hin as [->|Hin]; [|by apply Hwarm'].
        apply elem_of_app. right. apply elem_of_app. right.
        do 2 apply list_elem_of_further. apply list_elem_of_here.
      * intros g [= <-]. apply elem_of_app. right. apply elem_of_app. right.
        do 2 apply list_elem_of_further. apply list_elem_of_here.
    + split_and!; [|by intros g Hin; apply Hwarm'|done].
      intros _. split; [done|]. apply Hnoins. intros k g Hin.
      repeat (apply elem_of_cons in Hin as [?|Hin]; [done|]).
      by apply elem_of_nil in Hin.
    + split_and!; [|by intros g Hin; apply Hwarm'|done].
      intros _. split; [done|]. apply Hnoins. intros k g Hin.
      repeat (apply elem_of_cons in Hin as [?|Hin]; [done|]).
      by apply elem_of_nil in Hin.
    + split_and!; [|by intros g Hin; apply Hwarm'|done].
      intros _. split; [done|]. intros k g.
      rewrite <-(app_nil_r (EvEvict <$> gone)). apply Hnoins.
      intros ? ?. apply not_elem_of_nil.
Qed.

(** The first call on a new pipeline. *)
Lemma warmup_precedes_insertion_witness :
  cache_warm sd_pipe
  ∧ EvWarmup 0%nat true
      ∈ trace (pipeline_call CompilerOk (request 512 512) sd_pipe).1.
Proof.
  assert (Hwarm : cache_warm sd_pipe) by (by intros g ?%elem_of_nil).
  split; [exact Hwarm|].
  destruct (warmup_precedes_insertion CompilerOk (request 512 512) sd_pipe Hwarm)
    as (_ & _ & Hserved).
  by apply Hserved.
Defined.

End PipelineClaims.

(** ** Claims about the deployable module *)

Section DeployableClaims.
Import Deployable.
Context {Device DualModule ToArgs Args Out : Type}.
Variable parse_device : ToArgs → option Device.
Variable check_device : Device → Device → bool.
Variable debug_mode : bool.
Variable graph_blocks : DualModule → nat.
Variable graph_state : DualModule → list Device.
Variable model_to : ToArgs → DualModule → DualModule.
Variable del_oneflow_module : DualModule → DualModule.
Variable graph_out : Args → Out.
Variable eager_out : Args → Out.

Local Abbreviation Mod := (DeployableModule Device DualModule).
Local Abbreviation to' := (to parse_device check_device model_to).
Local Abbreviation get_graph' := (get_graph debug_mode graph_blocks graph_state).
Local Abbreviation call' :=
  (call debug_mode graph_blocks graph_state graph_out eager_out).
Local Abbreviation set_graph_file' :=
  (set_graph_file (Device := Device) del_oneflow_module).

(** C6. [to] moves the wrapped module when no graph is held, and when
    the graph held is bound to a device that [check_device] accepts for
    the target; when the graph is bound to a device that [check_device]
    rejects for the target, [to] raises the [RuntimeError] and the module
    is left where it was. *)
Theorem to_checks_graph_device (args : ToArgs) (m : Mod) :
  let moved := with_model m (model_to args (_deployable_module_model m)) in
  (_deployable_module_dpl_graph m = None → to' args m = (moved, None))
  ∧ (∀ g target current,
       _deployable_module_dpl_graph m = Some g →
       parse_device args = Some target →
       graph_device g = Some current →
       (check_device current target = true → to' args m = (moved, None))
       ∧ (check_device current target = false →
          to' args m = (m, Some (RuntimeError_device current target)))).
Proof.
  cbv zeta. split.
  - intros Hg. unfold to. by rewrite Hg.
  - intros g target current Hg Ht Hdev. unfold to. rewrite Hg, Ht.
    unfold graph_device in Hdev. case_bool_decide; [|done].
    destruct (_state g) as [|t ts]; [done|]. simpl in Hdev.
    injection Hdev as ->. split; by intros ->.
Qed.

Lemma get_graph_new (m : Mod) :
  _deployable_module_dpl_graph m = None → built (get_graph' m).2 = false.
Proof.
  unfold get_graph. intros ->. simpl.
  destruct debug_mode, (_ !! "debug"); done.
Qed.

(** C7. A call with [use_graph] set on a module that holds no graph, when
    building fails: nothing is raised, the caller gets the eager result,
    and the module is what it was before the call, so it still holds no
    graph. The next call tries to build again, and if that succeeds it is
    served by the graph, which the module then holds. *)
Theorem failed_build_falls_back (args : Args) (m : Mod) :
  _deployable_module_use_graph m = true →
  _deployable_module_dpl_graph m = None →
  let __call__ := call debug_mode graph_blocks graph_state graph_out eager_out in
  __call__ BuildRaises args m
  = (m, inl (eager_out args), [EvBuild false; EvEagerRun])
  ∧ (∀ env, ∃ ok evs,
       (__call__ env args (__call__ BuildRaises args m).1.1).2 = EvBuild ok :: evs)
  ∧ (__call__ BuildOk args (__call__ BuildRaises args m).1.1).1.2
    = inl (graph_out args)
  ∧ ∃ g, _deployable_module_dpl_graph
           (__call__ BuildOk args (__call__ BuildRaises args m).1.1).1.1 = Some g
         ∧ built g = true.
Proof.
  intros Huse Hnone. cbv zeta.
  pose proof (get_graph_new m Hnone) as Hg.
  assert (Hfail : call' BuildRaises args m
                  = (m, inl (eager_out args), [EvBuild false; EvEagerRun])).
  { unfold call, handle_deployable_exception, call_body. rewrite Huse.
    destruct (get_graph' m) as [m1 g]. simpl in Hg.
    unfold graph_call. by rewrite Hg. }
  rewrite Hfail. simpl. split_and!; [done| | |].
  - intros env. unfold call, handle_deployable_exception, call_body.
    rewrite Huse. destruct (get_graph' m) as [m1 g]. simpl in Hg.
    unfold graph_call. rewrite Hg. destruct env; simpl; by eexists _, _.
  - unfold call, handle_deployable_exception, call_body. rewrite Huse.
    destruct (get_graph' m) as [m1 g]. simpl in Hg.
    unfold graph_call. by rewrite Hg.
  - unfold call, handle_deployable_exception, call_body. rewrite Huse.
    destruct (get_graph' m) as [m1 g]. simpl in Hg.
    unfold graph_call. rewrite Hg. simpl. by eexists.
Qed.

(** C8, as the code has it. [set_graph_file] is a no-op when the path is
    a non-empty string equal to the one configured. In every other case,
    a different path, an empty one or [None], it records the path, drops
    the graph held, sets [_load_graph_first_run] and deletes the converted
    module. *)
Theorem set_graph_file_guard (file_path : PyVal) (m : Mod) :
  (truthy file_path = true → get_graph_file m = file_path →
   set_graph_file' file_path m = m)
  ∧ (truthy file_path = false ∨ get_graph_file m ≠ file_path →
     let m' := set_graph_file' file_path m in
     get_graph_file m' = file_path
     ∧ _deployable_module_dpl_graph m' = None
     ∧ _load_graph_first_run m' = true
     ∧ _deployable_module_model m'
       = del_oneflow_module (_deployable_module_model m)).
Proof.
  unfold set_graph_file. split.
  - intros -> ->. by rewrite bool_decide_eq_true_2.
  - intros Hcase.
    assert (truthy file_path && bool_decide (get_graph_file m = file_path) = false)
      as ->.
    { destruct Hcase as [->|Hne]; [done|].
      rewrite (bool_decide_eq_false_2 _ Hne). apply andb_false_r. }
    cbv zeta. unfold get_graph_file. simpl.
    by rewrite lookup_insert_eq.
Qed.

End DeployableClaims.

(** A module on the GPU whose graph is built and bound to it. *)
Lemma to_checks_graph_device_witness :
  let g := Deployable.mkGraph string (Deployable.PyInt 9) true [] 1 ["cuda"] true in
  let m := Deployable.mkModule string string "cuda" true true ∅ (Some g) false in
  Deployable.graph_device g = Some "cuda"
  ∧ Deployable.to (λ a : string, Some a) (λ c t, bool_decide (c = t)) (λ a _, a) "cpu" m
    = (m, Some (Deployable.RuntimeError_device "cuda" "cpu")).
Proof.
  intros g m. split; [reflexivity|].
  refine (proj2 (proj2 (to_checks_graph_device (λ a : string, Some a)
            (λ c t, bool_decide (c = t)) (λ a _, a) "cpu" m)
            g "cpu" "cuda" eq_refl eq_refl eq_refl) eq_refl).
Defined.

(** A module that holds no graph yet. *)
Lemma failed_build_falls_back_witness :
  let m := Deployable.mkModule string string "unet" true true ∅ None true in
  Deployable._deployable_module_use_graph m = true
  ∧ Deployable._deployable_module_dpl_graph m = None
  ∧ Deployable.call false (λ _, 1%nat) (λ _, ["cuda"])
      (λ x : nat, (x + 1)%nat) (λ x : nat, x) Deployable.BuildRaises 7%nat m
    = (m, inl 7%nat, [Deployable.EvBuild false; Deployable.EvEagerRun]).
Proof.
  intros m. split; [reflexivity|]. split; [reflexivity|].
  refine (proj1 (failed_build_falls_back false (λ _, 1%nat) (λ _, ["cuda"])
            (λ x : nat, (x + 1)%nat) (λ x : nat, x) 7%nat m eq_refl eq_refl)).
Defined.

(** The configured path and the new path are both the empty string, and
    the graph held is dropped all the same. *)
Lemma set_graph_file_same_empty_path :
  let g := Deployable.mkGraph string (Deployable.PyInt 9) true [] 1 ["cuda"] true in
  let m := Deployable.mkModule string string "unet" true true
             {["graph_file" := Deployable.PyStr ""]} (Some g) false in
  Deployable.get_graph_file m = Deployable.PyStr ""
  ∧ Deployable._deployable_module_dpl_graph
      (Deployable.set_graph_file (λ dm, dm) (Deployable.PyStr "") m) = None
  ∧ Deployable.set_graph_file (λ dm, dm) (Deployable.PyStr "") m ≠ m.
Proof.
  intros g m.
  assert (Hnone : Deployable._deployable_module_dpl_graph
            (Deployable.set_graph_file (λ dm, dm) (Deployable.PyStr "") m) = None)
    by reflexivity.
  split_and!; [reflexivity|exact Hnone|].
  intros Heq. rewrite Heq in Hnone. discriminate Hnone.
Qed.

(** The path configured is set once more. *)
Lemma set_graph_file_guard_witness :
  let g := Deployable.mkGraph string (Deployable.PyInt 9) true [] 1 ["cuda"] true in
  let m := Deployable.mkModule string string "unet" true true
             {["graph_file" := Deployable.PyStr "unet.graph"]} (Some g) false in
  Deployable.truthy (Deployable.PyStr "unet.graph") = true
  ∧ Deployable.get_graph_file m = Deployable.PyStr "unet.graph"
  ∧ Deployable.set_graph_file (λ dm, dm) (Deployable.PyStr "unet.graph") m = m.
Proof.
  intros g m.
  assert (Hpath : Deployable.get_graph_file m = Deployable.PyStr "unet.graph")
    by (unfold Deployable.get_graph_file; simpl; by rewrite lookup_singleton_eq).
  split; [reflexivity|]. split; [exact Hpath|].
  exact (proj1 (set_graph_file_guard (λ dm, dm) (Deployable.PyStr "unet.graph") m)
           eq_refl Hpath).
Defined.

(** ** Claims about the sd-webui script *)

Section WebuiClaims.
Import Webui.
Context {Proc : Type}.
Variable process_images : World → World * (Proc + Exn).
Variable runtime_convnames : Val → list (string * option nat).

Lemma run_prepare_diffusion_model quantization w :
  diffusion_model (run_prepare quantization w).1 = diffusion_model w.
Proof.
  unfold run_prepare, check_model_structure_change.
  destruct (current_type w) as [t|]; simpl.
  - destruct (_ || _ || _ || _); simpl.
    + by rewrite orb_true_r.
    + rewrite orb_false_r. destruct (quantization && _); [done|].
      case_bool_decide; [|done].
      destruct (convname_dict w) as [d|]; [|done].
      destruct (copy_conv_weights d) as [evs []]; done.
  - by rewrite orb_true_r.
Qed.

(** C9. For the model [m] that [shared.sd_model.model.diffusion_model]
    holds where the [with] statement starts: the block runs in the world
    where the attribute is the global [compiled_unet]; when the block is
    left, by its end or by an exception, the attribute is [m] again and
    the rest of the world is as the block left it; an exception of the
    block is the exception of the statement. [Script.run] as a whole
    leaves the attribute as it found it. *)
Theorem unet_ctx_restores_model {A : Type}
    (body : World → World * (A + Exn)) (quantization : QuantArg) (w : World) :
  let inside := set_diffusion_model (compiled_unet w) w in
  let r := with_ctx UnetCompileCtx_enter UnetCompileCtx_exit body w in
  diffusion_model inside = compiled_unet w
  ∧ compiled_unet inside = compiled_unet w
  ∧ r.1 = set_diffusion_model (diffusion_model w) (body inside).1
  ∧ diffusion_model r.1 = diffusion_model w
  ∧ r.2 = match (body inside).2 with
          | inl a => inl (Some a)
          | inr e => inr e
          end
  ∧ diffusion_model (run process_images runtime_convnames quantization w).1
    = diffusion_model w.
Proof.
  cbv zeta. unfold with_ctx, UnetCompileCtx_enter, UnetCompileCtx_exit.
  split_and!; [done|done| | | |].
  - by destruct (body _) as [w2 [a|e]].
  - by destruct (body _) as [w2 [a|e]].
  - by destruct (body _) as [w2 [a|e]].
  - unfold run.
    pose proof (run_prepare_diffusion_model
                  match quantization with QuantBool b => b | QuantHtml => false end w)
      as Hprep.
    destruct (run_prepare _ w) as [w1 [e|]]; [done|]. simpl in Hprep.
    unfold with_ctx, UnetCompileCtx_enter, UnetCompileCtx_exit.
    destruct (process_images _) as [w2 [proc|e]]; simpl; [|done].
    destruct (convname_dict w2); [done|].
    by destruct quantization as [[]|].
Qed.

Lemma compile_unet_calls_app l1 l2 :
  compile_unet_calls (l1 ++ l2)
  = (compile_unet_calls l1 + compile_unet_calls l2)%nat.
Proof.
  induction l1 as [|ev l1 IH]; simpl; [done|]. destruct ev; simpl; lia.
Qed.

Lemma copy_conv_weights_no_compile d :
  compile_unet_calls (copy_conv_weights d).1 = 0%nat.
Proof.
  induction d as [|[k [target|]] d IH]; simpl; [done| |done].
  by destruct (copy_conv_weights d).
Qed.

(** [run] calls [compile_unet], once, exactly when the structure flags
    changed, or the model is quantized and its name changed, or the copy
    loop met a missing target. *)
Lemma run_prepare_compiles_iff (quantization : bool) w :
  let ckpt_name :=
    if quantization then sd_model_checkpoint w +:+ "_quantized"
    else sd_model_checkpoint w in
  let model_changed := Some ckpt_name ≠ compiled_ckpt_name w in
  let r := run_prepare quantization w in
  (compile_unet_calls (log r.1) = S (compile_unet_calls (log w))
   ∨ compile_unet_calls (log r.1) = compile_unet_calls (log w))
  ∧ (compile_unet_calls (log r.1) = S (compile_unet_calls (log w))
     ↔ (check_model_structure_change w).2 = true
       ∨ (quantization = true ∧ model_changed)
       ∨ (model_changed
          ∧ ∃ d, convname_dict w = Some d ∧ (copy_conv_weights d).2 = true)).
Proof.
  cbv zeta. unfold run_prepare.
  set (ckpt_name := if quantization then _ else _).
  assert (Hw1 : log (check_model_structure_change w).1 = log w
                ∧ convname_dict (check_model_structure_change w).1
                  = convname_dict w).
  { unfold check_model_structure_change.
    by destruct (match current_type w with Some _ => _ | None => _ end). }
  destruct (check_model_structure_change w) as [w1 sc]. simpl in *.
  destruct Hw1 as [Hlog Hconv].
  destruct sc.
  { rewrite orb_true_r. simpl. rewrite compile_unet_calls_app, Hlog. simpl.
    split; [left; lia|]. split; [by left | lia]. }
  rewrite orb_false_r.
  destruct (decide (Some ckpt_name ≠ compiled_ckpt_name w)) as [Hmc|Hmc].
  - rewrite (bool_decide_eq_true_2 _ Hmc). rewrite andb_true_r.
    destruct quantization; simpl.
    { rewrite compile_unet_calls_app, Hlog. simpl.
      split; [left; lia|]. split; [right; by left | lia]. }
    rewrite Hconv. destruct (convname_dict w) as [d|]; simpl.
    + pose proof (copy_conv_weights_no_compile d) as Hcopy.
      destruct (copy_conv_weights d) as [evs []] eqn:Hcw; simpl in *.
      * rewrite !compile_unet_calls_app, Hlog, Hcopy. simpl.
        split; [left; lia|]. split; [|lia].
        intros _. right. right. split; [done|]. exists d. by rewrite Hcw.
      * rewrite !compile_unet_calls_app, Hlog, Hcopy.
        split; [right; lia|]. split; [lia|].
        intros [?|[[? _]|[_ (d' & [= <-] & Hd')]]]; [done..|].
        by rewrite Hcw in Hd'.
    + rewrite Hlog. split; [by right|]. split; [lia|].
      intros [?|[[? _]|[_ (d' & ? & _)]]]; done.
  - rewrite (bool_decide_eq_false_2 _ Hmc). rewrite andb_false_r. simpl.
    rewrite Hlog. split; [by right|]. split; [lia|].
    intros [?|[[_ ?]|[? _]]]; done.
Qed.

(** With the structure unchanged, the name changed, quantization off and
    no [convname_dict], [run] stops with a [TypeError] at the head of the
    copy loop and changes nothing. *)
Lemma run_prepare_without_convnames w :
  current_type w = Some (sd_model_type w) →
  Some (sd_model_checkpoint w) ≠ compiled_ckpt_name w →
  convname_dict w = None →
  run_prepare false w = (w, Some TypeError_not_iterable).
Proof.
  intros Htype Hname Hconv. unfold run_prepare, check_model_structure_change.
  rewrite Htype, !eqb_reflx. simpl.
  by rewrite (bool_decide_eq_true_2 _ Hname), Hconv.
Qed.

End WebuiClaims.

(** C10. A quantized run on one checkpoint, then a run without quantization
    after the host has loaded another checkpoint of the same structure: the
    first run compiles and leaves [convname_dict] at [None]; the second sees
    a changed name and unchanged structure, does not compile, and raises
    [TypeError] at [for k in self.convname_dict] before anything is copied
    or [process_images] is reached. *)
Lemma unquantized_after_quantized_raises :
  let process_images := λ w : Webui.World, (w, @inl unit Webui.Exn ()) in
  let r1 := Webui.run process_images (λ _, []) (Webui.QuantBool true) Webui.startup in
  let w1 := Webui.load_checkpoint "dreamshaper_8" (Webui.VObj 7) Webui.sd1 r1.1 in
  let r2 := Webui.run process_images (λ _, []) (Webui.QuantBool false) w1 in
  r1.2 = inl ()
  ∧ Webui.compiled_ckpt_name r1.1 = Some "v1-5-pruned_quantized"
  ∧ Webui.convname_dict r1.1 = None
  ∧ (Webui.check_model_structure_change w1).2 = false
  ∧ r2.2 = inr Webui.TypeError_not_iterable
  ∧ Webui.log r2.1 = Webui.log r1.1
  ∧ Webui.compile_unet_calls (Webui.log r2.1) = 1%nat.
Proof. by vm_compute. Qed.

(** * Further properties *)

(** ** The pipeline cache over sequences of operations *)

Section PipelineOpsFacts.
Import PyDict Pipeline PipelineOps.
Local Open Scope Z_scope.
Implicit Types (d : dict Shape Entry) (p : Pipe) (a : CallArgs).

Lemma dict_set_entry_in d k v x :
  x ∈ dict_set d k v → x = (k, v) ∨ x ∈ d.
Proof.
  induction d as [|[k0 v0] d IH]; simpl.
  - intros ->%list_elem_of_singleton. by left.
  - destruct (decide (k = k0)) as [->|?].
    + intros [->|?]%elem_of_cons; [by left|]. right. by apply list_elem_of_further.
    + intros [->|Hin]%elem_of_cons; [right; apply list_elem_of_here|].
      destruct (IH Hin) as [->|?]; [by left|].
      right. by apply list_elem_of_further.
Qed.

Lemma dict_time_in d (t : Z) :
  t ∈ d.*2.*1 ↔ ∃ k g, (k, (t, g)) ∈ d.
Proof.
  split.
  - intros ([t' g] & Ht & Hin)%list_elem_of_fmap.
    apply list_elem_of_fmap in Hin as ([k e] & He & Hin).
    simpl in *. subst. by exists k, g.
  - intros (k & g & Hin). apply list_elem_of_fmap. exists (t, g). split; [done|].
    apply list_elem_of_fmap. by exists (k, (t, g)).
Qed.

Lemma dict_set_times_hit d k (now : Z) (g : nat) t0 :
  dict_get d k = Some (t0, g) →
  NoDup (d.*2.*1) → (∀ t, t ∈ d.*2.*1 → t < now) →
  NoDup ((dict_set d k (now, g)).*2.*1).
Proof.
  induction d as [|[k0 [t1 g1]] d IH]; csimpl; [done|].
  rewrite NoDup_cons. intros Hget [Ht1 Hnd] Hlt.
  destruct (decide (k = k0)) as [->|Hne]; csimpl.
  - apply NoDup_cons. split; [|done]. intros Hin.
    specialize (Hlt now (list_elem_of_further _ _ _ Hin)). lia.
  - apply NoDup_cons. split.
    + intros (k' & g' & Hin)%dict_time_in.
      apply dict_set_entry_in in Hin as [[= _ Heq _]|Hin].
      * specialize (Hlt t1 (list_elem_of_here _ _)). lia.
      * apply Ht1. apply dict_time_in. by exists k', g'.
    + apply IH; [done|done|]. intros t Hin. apply Hlt. by apply list_elem_of_further.
Qed.

Lemma recency_wf_init ic ml hs : recency_wf (init ic ml hs).
Proof.
  split; [apply NoDup_nil_2|]. by intros t ?%elem_of_nil.
Qed.

Lemma unet_cache_step_recency env a p :
  recency_wf p → recency_wf (unet_cache_step env a p).1.
Proof.
  intros [Hnd Hle]. unfold recency_wf, cached_times in *.
  unfold unet_cache_step. destruct (compile_unet a); [|done].
  destruct (dict_get _ _) as [[t g]|] eqn:Hget.
  - simpl. split.
    + eapply dict_set_times_hit; [done|done|].
      intros t' Hin. specialize (Hle _ Hin). lia.
    + intros t' (k' & g' & Hin)%dict_time_in.
      apply dict_set_entry_in in Hin as [[= _ -> _]|Hin]; [lia|].
      assert (Hin' : t' ∈ (unet_graphs p).*2.*1)
        by (apply dict_time_in; by exists k', g').
      specialize (Hle _ Hin'). lia.
  - destruct (evict_lru _ _) as [[d gone] x] eqn:Hev.
    pose proof (evict_lru_sublist _ _ _ _ _ Hev) as Hsub.
    assert (Hsub' : d.*2.*1 `sublist_of` (unet_graphs p).*2.*1)
      by (by do 2 apply fmap_sublist).
    assert (Hnd' : NoDup (d.*2.*1)) by (by eapply sublist_NoDup).
    assert (Hle' : ∀ t, t ∈ d.*2.*1 → t ≤ unet_graphs_lru_cache_time p).
    { intros t Hin. apply Hle. by eapply elem_of_sublist. }
    assert (Hfresh : dict_get d (cache_key a) = None).
    { apply dict_get_None. intros Hin. apply dict_get_None in Hget. apply Hget.
      eapply elem_of_sublist; [exact Hin|]. by apply fmap_sublist. }
    destruct x; [destruct env|]; simpl;
      try (split; [done|]; intros t Hin; specialize (Hle' _ Hin); lia).
    rewrite dict_set_absent, !fmap_app by done. csimpl. split.
    + apply NoDup_app. split_and!; [done| |apply NoDup_singleton].
      intros t Hin Heq%list_elem_of_singleton. specialize (Hle' _ Hin). lia.
    + intros t [Hin|Heq%list_elem_of_singleton]%elem_of_app; [|lia].
      specialize (Hle' _ Hin). lia.
Qed.

Lemma pipeline_call_recency env a p :
  recency_wf p → recency_wf (pipeline_call env a p).1.
Proof.
  destruct (pipeline_call_cases env a p) as [[_ ->]|[_ [e ->]]]; [|done].
  apply unet_cache_step_recency.
Qed.

Lemma run_ops_wf (ops : list Op) p : cache_wf p → cache_wf (run_ops p ops).
Proof.
  unfold run_ops. revert p.
  induction ops as [|o ops IH]; intros p Hwf; simpl; [done|].
  apply IH. destruct o as [env a|n]; simpl.
  - by apply pipeline_call_wf.
  - by apply set_unet_graphs_cache_size_wf.
Qed.

(** X1. Whatever calls are made and however the cache size is changed
    after [__init__], the entries of the cache have pairwise distinct
    keys and pairwise distinct graph objects, each constructed before. *)
Theorem reachable_cache_wf (ic ml hs : Z) (ops : list Op) :
  cache_wf (run_ops (init ic ml hs) ops).
Proof. apply run_ops_wf, init_wf. Qed.

(** X2. In every state reached from [__init__] the recency counters of
    the entries are pairwise distinct and not ahead of the clock, so the
    entry that the eviction loop picks is strictly older than every other
    entry: no tie is ever broken. *)
Theorem reachable_recency_strict (ic ml hs : Z) (ops : list Op) :
  let p := run_ops (init ic ml hs) ops in
  recency_wf p
  ∧ ∀ k, shape_to_del (unet_graphs p) = Some k →
      ∀ k' e', (k', e') ∈ unet_graphs p → k' ≠ k →
        recency (unet_graphs p) k < e'.1.
Proof.
  cbv zeta.
  assert (Hrec : recency_wf (run_ops (init ic ml hs) ops)).
  { unfold run_ops. generalize (recency_wf_init ic ml hs). generalize (init ic ml hs).
    induction ops as [|o ops IH]; intros p Hwf; simpl; [done|].
    apply IH. destruct o as [env a|n]; simpl; [by apply pipeline_call_recency|done]. }
  split; [done|]. intros k Hk k' e' Hin Hne.
  pose proof (wf_keys _ (run_ops_wf ops _ (init_wf ic ml hs))) as Hkeys.
  destruct Hrec as [Hnd _]. unfold cached_times in Hnd.
  set (d := unet_graphs (run_ops (init ic ml hs) ops)) in *.
  destruct (shape_to_del_first d k Hkeys Hk) as (d1 & e & d2 & Hd & H1 & H2 & _).
  assert (Hke : recency d k = e.1).
  { unfold recency. rewrite (dict_get_in_NoDup d k e); [by destruct e|done|].
    rewrite Hd. apply elem_of_app. right. apply list_elem_of_here. }
  rewrite Hke. rewrite Hd in Hin.
  apply elem_of_app in Hin as [Hin|Hin]; [by apply (H1 (k', e'))|].
  apply elem_of_cons in Hin as [[= -> ->]|Hin]; [done|].
  specialize (H2 (k', e') Hin). simpl in H2.
  assert (e.1 ≠ e'.1); [|lia].
  rewrite Hd, !fmap_app, !fmap_cons in Hnd. simpl in Hnd.
  apply NoDup_app in Hnd as (_ & _ & Hnd). apply NoDup_cons in Hnd as [Hnot _].
  intros Heq. apply Hnot. rewrite Heq. destruct e' as [t' g'].
  apply dict_time_in. by exists k', g'.
Qed.

End PipelineOpsFacts.

Section PipelineBounds.
Import PyDict Pipeline PipelineOps.
Local Open Scope Z_scope.
Implicit Types (d : dict Shape Entry) (p : Pipe) (a : CallArgs).

Lemma evict_lru_keeps_absent size d d' gone x k :
  evict_lru size d = (d', gone, x) →
  dict_get d k = None → dict_get d' k = None.
Proof.
  intros Hev Hget. apply dict_get_None. intros Hin.
  apply dict_get_None in Hget. apply Hget.
  eapply elem_of_sublist; [exact Hin|].
  apply fmap_sublist. by eapply evict_lru_sublist.
Qed.

Lemma pipeline_call_size_bound env a p :
  Z.of_nat (length (unet_graphs p)) ≤ unet_graphs_cache_size p →
  Z.of_nat (length (unet_graphs (pipeline_call env a p).1))
    ≤ unet_graphs_cache_size p.
Proof.
  intros Hle.
  destruct (pipeline_call_cases env a p) as [[_ ->]|[_ [e ->]]]; [|done].
  unfold unet_cache_step. destruct (compile_unet a); [|done].
  destruct (dict_get _ _) as [[t g]|] eqn:Hget.
  - simpl. by erewrite dict_set_length_present.
  - destruct (evict_lru _ _) as [[d gone] x] eqn:Hev.
    pose proof (sublist_length _ _ (evict_lru_sublist _ _ _ _ _ Hev)) as Hlen.
    pose proof (evict_lru_keeps_absent _ _ _ _ _ _ Hev Hget) as Hfresh.
    apply evict_lru_exit in Hev.
    destruct x; [destruct env|]; simpl; try lia.
    rewrite dict_set_absent, length_app by done. simpl. lia.
Qed.

(** X3. Calls never push the number of cached graphs above the cache
    size: if it is within the size before a sequence of calls, it is so
    after it, and the size itself is not changed by calls. *)
Theorem calls_keep_size_bound (cs : list (Compiler * CallArgs)) p :
  Z.of_nat (length (unet_graphs p)) ≤ unet_graphs_cache_size p →
  Z.of_nat (length (unet_graphs (run_calls p cs).1))
    ≤ unet_graphs_cache_size (run_calls p cs).1
  ∧ unet_graphs_cache_size (run_calls p cs).1 = unet_graphs_cache_size p.
Proof.
  revert p. induction cs as [|[env a] cs IH]; intros p Hle; simpl; [done|].
  pose proof (pipeline_call_size_bound env a p Hle) as Hle1.
  pose proof (pipeline_call_cache_size env a p) as Hsz.
  destruct (pipeline_call env a p) as [p1 o]. simpl in *.
  destruct (IH p1) as [Hle' Hsz']; [lia|].
  destruct (run_calls p1 cs) as [pn os]. simpl in *. split; lia.
Qed.

Lemma calls_keep_size_bound_witness :
  Z.of_nat (length (unet_graphs sd_pipe)) ≤ unet_graphs_cache_size sd_pipe
  ∧ Z.of_nat (length (unet_graphs
       (run_calls sd_pipe [(CompilerOk, request 512 512);
                           (CompilerOk, request 768 768)]).1)) ≤ 1.
Proof.
  assert (H0 : Z.of_nat (length (unet_graphs sd_pipe))
               ≤ unet_graphs_cache_size sd_pipe) by (simpl; lia).
  split; [exact H0|].
  destruct (calls_keep_size_bound
              [(CompilerOk, request 512 512); (CompilerOk, request 768 768)]
              sd_pipe H0) as [Hle Hsz].
  rewrite Hsz in Hle. exact Hle.
Defined.

(** X4. With a cache size of zero or less, a call for a shape that is
    not cached deletes every cached graph and then raises the
    [ValueError] of [min] on an empty dict; no graph object is
    constructed and the compiler is not invoked. *)
Theorem nonpositive_size_miss_empties env a p :
  unet_graphs_cache_size p ≤ 0 →
  args_ok p a = true → compile_unet a = true →
  dict_get (unet_graphs p) (cache_key a) = None →
  (pipeline_call env a p).2 = Raised ValueError_min
  ∧ unet_graphs (pipeline_call env a p).1 = []
  ∧ objects (pipeline_call env a p).1 = objects p
  ∧ compiler_calls (trace (pipeline_call env a p).1) = compiler_calls (trace p)
  ∧ unet_graphs_lru_cache_time (pipeline_call env a p).1
    = unet_graphs_lru_cache_time p + 1.
Proof.
  intros Hsize Hok Hc Hget. rewrite pipeline_call_ok by done.
  unfold unet_cache_step. rewrite Hc, Hget.
  destruct (evict_lru _ _) as [[d gone] x] eqn:Hev.
  apply evict_lru_exit in Hev. destruct x; [lia|].
  destruct Hev as [-> _]. simpl.
  by rewrite compiler_calls_app, compiler_calls_evict, Nat.add_0_r.
Qed.

Lemma nonpositive_size_miss_empties_witness :
  let p := set_unet_graphs_cache_size 0
             (pipeline_call CompilerOk (request 512 512) sd_pipe).1 in
  unet_graphs_cache_size p ≤ 0
  ∧ length (unet_graphs p) = 1%nat
  ∧ unet_graphs (pipeline_call CompilerOk (request 768 768) p).1 = [].
Proof.
  intros p. split; [simpl; lia|]. split; [reflexivity|].
  refine (proj1 (proj2 (nonpositive_size_miss_empties CompilerOk (request 768 768) p
                          _ eq_refl eq_refl eq_refl))).
  simpl. lia.
Defined.

(** X7. A miss is not undone when compilation or warmup fails: on a cache
    that is full, the least recently used entries have been deleted by
    then, so the call raises, the shape asked for is not cached, and the
    cache is left with one entry fewer than its size. *)
Theorem failed_miss_still_evicts env a p :
  env ≠ CompilerOk →
  args_ok p a = true → compile_unet a = true →
  dict_get (unet_graphs p) (cache_key a) = None →
  1 ≤ unet_graphs_cache_size p ≤ Z.of_nat (length (unet_graphs p)) →
  let r := pipeline_call env a p in
  (r.2 = Raised CompileError ∨ r.2 = Raised WarmupError)
  ∧ unet_graphs r.1 `sublist_of` unet_graphs p
  ∧ Z.of_nat (length (unet_graphs r.1)) = unet_graphs_cache_size p - 1
  ∧ dict_get (unet_graphs r.1) (cache_key a) = None
  ∧ compiler_calls (trace r.1) = S (compiler_calls (trace p)).
Proof.
  intros Henv Hok Hc Hget Hsize. cbv zeta. rewrite pipeline_call_ok by done.
  unfold unet_cache_step. rewrite Hc, Hget.
  destruct (evict_lru _ _) as [[d gone] x] eqn:Hev.
  pose proof (evict_lru_sublist _ _ _ _ _ Hev) as Hsub.
  pose proof (evict_lru_keeps_absent _ _ _ _ _ _ Hev Hget) as Hfresh.
  apply evict_lru_exit in Hev. destruct x; [|lia].
  destruct env; [done| |]; simpl;
    rewrite !compiler_calls_app, compiler_calls_evict; simpl;
    (split_and!; [auto|done|lia|done|lia]).
Qed.

Lemma failed_miss_still_evicts_witness :
  let p := (pipeline_call CompilerOk (request 512 512) sd_pipe).1 in
  CompileRaises ≠ CompilerOk
  ∧ length (unet_graphs p) = 1%nat
  ∧ Z.of_nat (length (unet_graphs
       (pipeline_call CompileRaises (request 768 768) p).1)) = 0.
Proof.
  intros p. split; [discriminate|]. split; [reflexivity|].
  assert (Hne : CompileRaises ≠ CompilerOk) by discriminate.
  refine (proj1 (proj2 (proj2 (failed_miss_still_evicts CompileRaises
            (request 768 768) p Hne eq_refl eq_refl eq_refl _)))).
  vm_compute. split; discriminate.
Defined.

End PipelineBounds.

Section PipelineLru.
Import PyDict Pipeline PipelineOps.
Local Open Scope Z_scope.
Implicit Types (d : dict Shape Entry) (p : Pipe) (a : CallArgs).

Lemma pipeline_call_graphs env a p g :
  g ∈ cached_graphs (pipeline_call env a p).1 →
  g ∈ cached_graphs p ∨ g = objects p.
Proof.
  unfold cached_graphs.
  destruct (pipeline_call_cases env a p) as [[_ ->]|[_ [e ->]]]; [|by left].
  unfold unet_cache_step. destruct (compile_unet a); [|by left].
  destruct (dict_get _ _) as [[t g0]|] eqn:Hget.
  - simpl. rewrite (dict_set_same_graph _ _ _ _ _ Hget). by left.
  - destruct (evict_lru _ _) as [[d gone] x] eqn:Hev.
    assert (Hsub : ∀ g', g' ∈ d.*2.*2 → g' ∈ (unet_graphs p).*2.*2).
    { intros g' Hin. eapply elem_of_sublist; [exact Hin|].
      do 2 apply fmap_sublist. by eapply evict_lru_sublist. }
    destruct x; [destruct env|]; simpl; try (intros Hin; left; by apply Hsub).
    intros [->|Hin]%dict_set_graphs_subset; [by right|left; by apply Hsub].
Qed.

Lemma pipeline_call_objects env a p :
  (objects p ≤ objects (pipeline_call env a p).1)%nat.
Proof.
  destruct (pipeline_call_cases env a p) as [[_ ->]|[_ [e ->]]]; [|done].
  unfold unet_cache_step. destruct (compile_unet a); [|done].
  destruct (dict_get _ _) as [[t g0]|]; [done|].
  destruct (evict_lru _ _) as [[d gone] []]; [destruct env|]; simpl; lia.
Qed.

Lemma pipeline_call_returns env a p g :
  (pipeline_call env a p).2 = Returned (Some g) →
  g ∈ cached_graphs p ∨ g = objects p.
Proof.
  unfold cached_graphs.
  destruct (pipeline_call_cases env a p) as [[_ ->]|[_ [e ->]]]; [|done].
  unfold unet_cache_step. destruct (compile_unet a); [|done].
  destruct (dict_get _ _) as [[t g0]|] eqn:Hget.
  - simpl. intros [= <-]. left. by eapply dict_get_graph_in.
  - destruct (evict_lru _ _) as [[d gone] []]; [destruct env|]; simpl;
      intros [= <-]. by right.
Qed.

(** X5. A graph object that was constructed earlier and is not in the
    cache, because it was evicted or never stored, is not used again: no
    later call is served by it. *)
Theorem evicted_graph_never_served (cs : list (Compiler * CallArgs)) p (g : nat) :
  (g < objects p)%nat →
  g ∉ cached_graphs p →
  Forall (λ o, o ≠ Returned (Some g)) (run_calls p cs).2.
Proof.
  revert p. induction cs as [|[env a] cs IH]; intros p Hlt Hnot; simpl.
  - constructor.
  - pose proof (pipeline_call_returns env a p g) as Hret.
    pose proof (pipeline_call_graphs env a p g) as Hin.
    pose proof (pipeline_call_objects env a p) as Hobj.
    destruct (pipeline_call env a p) as [p1 o]. simpl in *.
    assert (Hrest : Forall (λ o, o ≠ Returned (Some g)) (run_calls p1 cs).2).
    { apply IH; [lia|]. intros H. destruct (Hin H) as [?|?]; [done|lia]. }
    destruct (run_calls p1 cs) as [pn os]. simpl in *.
    constructor; [|done]. intros ->. destruct (Hret eq_refl) as [?|?]; [done|lia].
Qed.

Lemma evicted_graph_never_served_witness :
  let p := (run_calls sd_pipe [(CompilerOk, request 512 512);
                               (CompilerOk, request 768 768)]).1 in
  (0 < objects p)%nat
  ∧ (0%nat ∉ cached_graphs p)
  ∧ Forall (λ o, o ≠ Returned (Some 0%nat))
      (run_calls p [(CompilerOk, request 512 512)]).2.
Proof.
  intros p.
  assert (Hlt : (0 < objects p)%nat) by (vm_compute; lia).
  assert (Hnot : 0%nat ∉ cached_graphs p).
  { vm_compute. intros Hin. apply list_elem_of_singleton in Hin. discriminate. }
  split; [exact Hlt|]. split; [exact Hnot|].
  exact (evicted_graph_never_served [(CompilerOk, request 512 512)] p 0%nat Hlt Hnot).
Defined.

Lemma dict_time_inj d k1 k2 (t : Z) (g1 g2 : nat) :
  NoDup (d.*2.*1) →
  (k1, (t, g1)) ∈ d → (k2, (t, g2)) ∈ d → k1 = k2.
Proof.
  induction d as [|[k0 [t0 g0]] d IH]; csimpl.
  - by intros _ ?%elem_of_nil.
  - rewrite NoDup_cons. intros [Ht0 Hnd] H1 H2.
    apply elem_of_cons in H1 as [H1|H1]; apply elem_of_cons in H2 as [H2|H2].
    + congruence.
    + injection H1 as -> -> ->. exfalso. apply Ht0. apply dict_time_in.
      by exists k2, g2.
    + injection H2 as -> -> ->. exfalso. apply Ht0. apply dict_time_in.
      by exists k1, g1.
    + by apply IH.
Qed.

(** A call that is served leaves its entry stamped with the clock. *)
Lemma pipeline_call_served_now env a p p' g :
  pipeline_call env a p = (p', Returned (Some g)) →
  dict_get (unet_graphs p') (cache_key a)
  = Some (unet_graphs_lru_cache_time p', g).
Proof.
  destruct (pipeline_call_cases env a p) as [[_ ->]|[_ [e ->]]]; [|done].
  unfold unet_cache_step. destruct (compile_unet a); [|done].
  destruct (dict_get _ _) as [[t g0]|] eqn:Hget.
  - intros [= <- <-]. simpl. apply dict_get_set_eq.
  - destruct (evict_lru _ _) as [[d gone] []]; [|done].
    destruct env; intros [= <- <-]. simpl. apply dict_get_set_eq.
Qed.

(** The entry stamped with the clock is not deleted by the eviction loop
    as long as the loop stops with something left. *)
Lemma evict_lru_spares_newest size d d' gone x k (g : nat) (now : Z) :
  NoDup (dict_keys d) → NoDup (d.*2.*1) →
  (∀ t, t ∈ d.*2.*1 → t ≤ now) →
  dict_get d k = Some (now, g) →
  2 ≤ size →
  evict_lru size d = (d', gone, x) →
  dict_get d' k = Some (now, g).
Proof.
  intros Hkeys Htimes Hle Hget Hsize Hev.
  destruct (evict_lru_spec _ _ _ _ _ Hkeys Hev) as (Hsub & Hperm & Hold & _).
  pose proof (evict_lru_exit _ _ _ _ _ Hev) as Hexit.
  assert (Hkd : NoDup (dict_keys d')).
  { eapply sublist_NoDup; [exact Hkeys|]. by apply fmap_sublist. }
  assert (Hind : (k, (now, g)) ∈ d) by (by apply dict_get_Some_in).
  assert (Hlen : (0 < length d)%nat).
  { destruct d; [by apply elem_of_nil in Hind|simpl; lia]. }
  destruct x; [|lia]. destruct Hexit as [_ Hmin].
  destruct d' as [|[k' [t' g']] d'].
  { simpl in Hmin. lia. }
  assert (Hin' : (k', (t', g')) ∈ d).
  { eapply elem_of_sublist; [|exact Hsub]. apply list_elem_of_here. }
  destruct (decide (k ∈ gone)) as [Hgone|Hkept].
  - exfalso.
    specialize (Hold k (k', (t', g')) Hgone (list_elem_of_here _ _)).
    unfold recency in Hold. rewrite Hget in Hold. simpl in Hold.
    assert (Ht' : t' ≤ now).
    { apply Hle. apply dict_time_in. by exists k', g'. }
    assert (t' = now) as -> by lia.
    pose proof (dict_time_inj d k k' now g g' Htimes Hind Hin') as ->.
    rewrite Hperm in Hkeys. apply NoDup_app in Hkeys as (_ & Hdisj & _).
    apply (Hdisj k' Hgone). csimpl. apply list_elem_of_here.
  - assert (Hk : k ∈ dict_keys ((k', (t', g')) :: d')).
    { assert (Hkin : k ∈ dict_keys d).
      { unfold dict_keys. apply list_elem_of_fmap. by exists (k, (now, g)). }
      rewrite Hperm in Hkin. apply elem_of_app in Hkin as [?|?]; done. }
    unfold dict_keys in Hk. apply list_elem_of_fmap in Hk as ([k0 e0] & Hk0 & Hin0).
    simpl in Hk0. subst k0.
    assert (He0 : (k, e0) ∈ d) by (by eapply elem_of_sublist).
    pose proof (dict_get_in_NoDup d k e0 Hkeys He0) as Hget0.
    rewrite Hget in Hget0. injection Hget0 as <-.
    by apply dict_get_in_NoDup.
Qed.

(** X6. With a cache size of two or more the shape used last survives
    the next call: after a call served by [g], whatever the next call
    asks for, and whether it hits, misses or raises, the shape of the
    first call is still cached with [g]. *)
Theorem recently_used_survives env1 env2 a b p p1 (g : nat) :
  cache_wf p → recency_wf p →
  2 ≤ unet_graphs_cache_size p →
  pipeline_call env1 a p = (p1, Returned (Some g)) →
  ∃ t, dict_get (unet_graphs (pipeline_call env2 b p1).1) (cache_key a)
       = Some (t, g).
Proof.
  intros Hwf Hrec Hsize Hfirst.
  pose proof (pipeline_call_wf env1 a p Hwf) as Hwf1.
  pose proof (pipeline_call_recency env1 a p Hrec) as [Htimes Hle].
  pose proof (pipeline_call_cache_size env1 a p) as Hsz.
  rewrite Hfirst in Hwf1, Htimes, Hle, Hsz. simpl in *.
  unfold cached_times in *.
  apply pipeline_call_served_now in Hfirst as Hnow.
  destruct (pipeline_call_cases env2 b p1) as [[_ ->]|[_ [e ->]]];
    [|by eexists].
  unfold unet_cache_step. destruct (compile_unet b); [|by eexists].
  destruct (dict_get (unet_graphs p1) (cache_key b)) as [[t g0]|] eqn:Hgetb.
  - simpl. destruct (decide (cache_key b = cache_key a)) as [Heq|Hne].
    + rewrite Heq in *. rewrite Hnow in Hgetb. injection Hgetb as <- <-.
      eexists. apply dict_get_set_eq.
    + rewrite dict_get_set_ne by done. by eexists.
  - assert (Hne : cache_key b ≠ cache_key a) by (intros Heq; congruence).
    destruct (evict_lru _ _) as [[d gone] x] eqn:Hev.
    assert (Hkept : dict_get d (cache_key a)
                    = Some (unet_graphs_lru_cache_time p1, g)).
    { eapply evict_lru_spares_newest;
        [apply Hwf1|exact Htimes|exact Hle|exact Hnow| |exact Hev]. lia. }
    destruct x; [destruct env2|]; simpl; try (by eexists).
    rewrite dict_get_set_ne by done. by eexists.
Qed.

Lemma recently_used_survives_witness :
  let p := set_unet_graphs_cache_size 2 sd_pipe in
  cache_wf p ∧ recency_wf p ∧ 2 ≤ unet_graphs_cache_size p
  ∧ ∃ t, dict_get (unet_graphs
             (pipeline_call CompilerOk (request 768 768)
                (pipeline_call CompilerOk (request 512 512) p).1).1) (512, 512)
         = Some (t, 0%nat).
Proof.
  intros p.
  assert (Hwf : cache_wf p) by (apply set_unet_graphs_cache_size_wf, init_wf).
  assert (Hrec : recency_wf p) by (apply (recency_wf_init 4 77 768)).
  assert (Hsize : 2 ≤ unet_graphs_cache_size p) by (simpl; lia).
  split; [exact Hwf|]. split; [exact Hrec|]. split; [exact Hsize|].
  exact (recently_used_survives CompilerOk CompilerOk (request 512 512)
           (request 768 768) p _ 0%nat Hwf Hrec Hsize eq_refl).
Defined.

End PipelineLru.

(** ** The stages of [__call__] around the cache *)

Section PipelineStagesFacts.
Import PyDict Pipeline PipelineStages.
Local Open Scope Z_scope.
Implicit Types (p : Pipe) (a : CallArgs) (fa : FullArgs) (s : State).

Lemma ensure_text_encoder_graph_cache fa s :
  cache (ensure_text_encoder_graph fa s) = cache s.
Proof.
  unfold ensure_text_encoder_graph.
  by destruct (compile_text_encoder fa), (text_encoder_graph s).
Qed.

Lemma ensure_vae_graph_cache fa s :
  cache (ensure_vae_graph fa s) = cache s.
Proof.
  unfold ensure_vae_graph. by destruct (compile_vae fa), (vae_graph s).
Qed.

Lemma decode_ensured fa s : decode fa (ensure_vae_graph fa s) ≠ None.
Proof.
  unfold decode, ensure_vae_graph.
  destruct (compile_vae fa); [|done].
  destruct (vae_graph s) eqn:Hv; simpl; rewrite ?Hv; done.
Qed.

Lemma unet_cache_step_returned env a p p' og :
  unet_cache_step env a p = (p', Returned og) →
  (compile_unet a = true ∧ is_Some og)
  ∨ (compile_unet a = false ∧ og = None ∧ p' = p).
Proof.
  unfold unet_cache_step. destruct (compile_unet a).
  - intros H. left. split; [done|]. revert H.
    destruct (dict_get _ _) as [[t g]|]; [by intros [= _ <-]|].
    destruct (evict_lru _ _) as [[d gone] []]; [|done].
    by destruct env; intros [= _ <-].
  - intros [= <- <-]. by right.
Qed.

(** The cache is handled by [call] as by [pipeline_call], and a call fails
    with the exceptions of the latter. *)
Lemma call_pipeline_call env fa s :
  cache (call env fa s).1 = (pipeline_call env (base fa) (cache s)).1
  ∧ match (pipeline_call env (base fa) (cache s)).2 with
    | Raised e => (call env fa s).2 = Failed e
    | Returned og =>
        match denoise (base fa) og with
        | None => (call env fa s).2 = UnboundLocalError
        | Some den => ∃ dec, (call env fa s).2 = Generated den dec
        end
    end.
Proof.
  unfold call, pipeline_call.
  destruct (batch_size (prompt (base fa))) as [bs|]; [|done].
  case_bool_decide; [done|].
  rewrite !ensure_text_encoder_graph_cache.
  assert (Hstep :
    let r := unet_cache_step env (base fa) (cache s) in
    let c := match r with
             | (p', Raised e) =>
                 (with_pipe (ensure_text_encoder_graph fa s) p', Failed e)
             | (p', Returned unet_graph) =>
                 let s2 := ensure_vae_graph fa
                             (with_pipe (ensure_text_encoder_graph fa s) p') in
                 match denoise (base fa) unet_graph with
                 | None => (s2, UnboundLocalError)
                 | Some den =>
                     match decode fa s2 with
                     | None => (s2, TypeError_none_not_callable)
                     | Some dec => (s2, Generated den dec)
                     end
                 end
             end in
    cache c.1 = r.1
    ∧ match r.2 with
      | Raised e => c.2 = Failed e
      | Returned og =>
          match denoise (base fa) og with
          | None => c.2 = UnboundLocalError
          | Some den => ∃ dec, c.2 = Generated den dec
          end
      end).
  { cbv zeta. destruct (unet_cache_step env (base fa) (cache s)) as [p' [og|e]];
      simpl; [|done].
    destruct (denoise (base fa) og) as [den|]; simpl;
      [|by rewrite ensure_vae_graph_cache].
    pose proof (decode_ensured fa
                  (with_pipe (ensure_text_encoder_graph fa s) p')) as Hdec.
    destruct (decode fa _) as [dec|]; [|done]. simpl.
    rewrite ensure_vae_graph_cache. split; [done|]. by exists dec. }
  destruct (latents (base fa)) as [shp|]; [|exact Hstep].
  case_bool_decide; [simpl; by rewrite ensure_text_encoder_graph_cache|exact Hstep].
Qed.

(** X8. A call ends in [UnboundLocalError] exactly when its arguments
    pass the checks, [unrolled_timesteps] is on and [compile_unet] is
    off; the error comes after the text-encoder and vae graphs have been
    made if asked for, and leaves the cache as it was. *)
Theorem unrolled_needs_compile_unet env fa s :
  ((call env fa s).2 = UnboundLocalError
   ↔ args_ok (cache s) (base fa) = true
     ∧ unrolled_timesteps (base fa) = true
     ∧ compile_unet (base fa) = false)
  ∧ ((call env fa s).2 = UnboundLocalError →
     cache (call env fa s).1 = cache s
     ∧ (compile_text_encoder fa = true →
        is_Some (text_encoder_graph (call env fa s).1))
     ∧ (compile_vae fa = true → is_Some (vae_graph (call env fa s).1))).
Proof.
  assert (Hiff : (call env fa s).2 = UnboundLocalError
   ↔ args_ok (cache s) (base fa) = true
     ∧ unrolled_timesteps (base fa) = true
     ∧ compile_unet (base fa) = false).
  { destruct (call_pipeline_call env fa s) as [_ Hres].
    destruct (pipeline_call_cases env (base fa) (cache s))
      as [[Hok Heq]|[Hbad [e Heq]]]; rewrite Heq in Hres; simpl in Hres.
    - destruct (unet_cache_step env (base fa) (cache s)) as [p' [og|e]] eqn:Hstep;
        simpl in Hres.
      + apply unet_cache_step_returned in Hstep as [[Hc [g ->]]|(Hc & -> & _)];
          unfold denoise in Hres; rewrite Hc in Hres;
          destruct (unrolled_timesteps (base fa)); simpl in Hres.
        * destruct Hres as [dec ->]. split; [done|]. intros (_ & _ & ?). congruence.
        * destruct Hres as [dec ->]. split; [done|]. intros (_ & ? & _). congruence.
        * by rewrite Hres.
        * destruct Hres as [dec ->]. split; [done|]. intros (_ & ? & _). congruence.
      + rewrite Hres. split; [done|]. intros (_ & Hu & Hc).
        unfold unet_cache_step in Hstep. rewrite Hc in Hstep. congruence.
    - rewrite Hres. split; [done|]. intros (? & _). congruence. }
  split; [exact Hiff|]. intros Hub. apply Hiff in Hub as (Hok & Hu & Hc).
  unfold args_ok in Hok. unfold call, denoise.
  destruct (batch_size (prompt (base fa))) as [bs|]; [|done].
  apply andb_prop in Hok as [Hsize Hlat]. apply andb_prop in Hsize as [Hh Hw].
  apply bool_decide_eq_true_1 in Hh, Hw.
  rewrite bool_decide_eq_false_2 by (intros [?|?]; done).
  rewrite ensure_text_encoder_graph_cache.
  assert (Hgood : match latents (base fa) with
                  | Some shp => bool_decide (shp ≠ latents_shape (cache s) (base fa) bs)
                  | None => false
                  end = false).
  { destruct (latents (base fa)) as [shp|]; [|done].
    apply bool_decide_eq_true_1 in Hlat. by apply bool_decide_eq_false_2; intros ?. }
  rewrite Hgood. unfold unet_cache_step. rewrite Hc, Hu.
  simpl. rewrite ensure_vae_graph_cache. simpl.
  split; [done|]. split.
  - intros Ht. unfold ensure_vae_graph, ensure_text_encoder_graph, with_pipe.
    rewrite Ht.
    destruct (compile_vae fa), (text_encoder_graph s) eqn:Hte,
      (vae_graph s) eqn:Hva; simpl; rewrite ?Hte, ?Hva; simpl;
      rewrite ?Hte; by eexists.
  - intros Hv. unfold ensure_vae_graph. rewrite Hv. simpl.
    destruct (vae_graph (ensure_text_encoder_graph fa s)) eqn:Hva; simpl;
      rewrite ?Hva; by eexists.
Qed.

Lemma keeps_stage_graphs_refl s : keeps_stage_graphs s s.
Proof. split_and!; [done|done|lia]. Qed.

Lemma keeps_stage_graphs_trans s1 s2 s3 :
  keeps_stage_graphs s1 s2 → keeps_stage_graphs s2 s3 →
  keeps_stage_graphs s1 s3.
Proof.
  intros (A1 & A2 & A3) (B1 & B2 & B3).
  split_and!; [by intros; apply B1, A1|by intros; apply B2, A2|lia].
Qed.

Lemma ensure_text_encoder_graph_keeps fa s :
  keeps_stage_graphs s (ensure_text_encoder_graph fa s).
Proof.
  unfold ensure_text_encoder_graph.
  destruct (compile_text_encoder fa); [|apply keeps_stage_graphs_refl].
  destruct (text_encoder_graph s) eqn:Ht; [apply keeps_stage_graphs_refl|].
  unfold keeps_stage_graphs. rewrite Ht. simpl. split_and!; [done|done|lia].
Qed.

Lemma ensure_vae_graph_keeps fa s :
  keeps_stage_graphs s (ensure_vae_graph fa s).
Proof.
  unfold ensure_vae_graph.
  destruct (compile_vae fa); [|apply keeps_stage_graphs_refl].
  destruct (vae_graph s) eqn:Hv; [apply keeps_stage_graphs_refl|].
  unfold keeps_stage_graphs. rewrite Hv. simpl. split_and!; [done|done|lia].
Qed.

Lemma call_stage_graphs env fa s :
  keeps_stage_graphs s (call env fa s).1
  ∧ (call env fa s).2 ≠ TypeError_none_not_callable.
Proof.
  unfold call.
  destruct (batch_size (prompt (base fa))) as [bs|];
    [|split; [apply keeps_stage_graphs_refl|done]].
  case_bool_decide; [split; [apply keeps_stage_graphs_refl|done]|].
  pose proof (ensure_text_encoder_graph_keeps fa s) as Ht.
  destruct (match latents (base fa) with Some _ => _ | None => _ end);
    [split; done|].
  destruct (unet_cache_step env (base fa) _) as [p' [og|e]]; [|split; done].
  pose proof (ensure_vae_graph_keeps fa
                (with_pipe (ensure_text_encoder_graph fa s) p')) as Hv.
  pose proof (decode_ensured fa
                (with_pipe (ensure_text_encoder_graph fa s) p')) as Hdec.
  assert (Hk : keeps_stage_graphs s
                 (ensure_vae_graph fa
                    (with_pipe (ensure_text_encoder_graph fa s) p'))).
  { eapply keeps_stage_graphs_trans; [exact Ht|exact Hv]. }
  cbv zeta. destruct (denoise (base fa) og); [|split; done].
  destruct (decode fa _); [|done]. split; done.
Qed.

(** X9. Over any sequence of calls the text-encoder graph and the vae
    graph are each made at most once and then kept: a graph the object
    holds is the one it holds at the end, at most one object is made for
    each of the two that is missing, and decoding never finds [vae_graph]
    to be [None]. *)
Theorem stage_graphs_made_once (cs : list (Compiler * FullArgs)) s :
  (∀ g, text_encoder_graph s = Some g →
        text_encoder_graph (calls s cs).1 = Some g)
  ∧ (∀ g, vae_graph s = Some g → vae_graph (calls s cs).1 = Some g)
  ∧ (made (calls s cs).1
     ≤ made s + missing (text_encoder_graph s) + missing (vae_graph s))%nat
  ∧ Forall (λ r, r ≠ TypeError_none_not_callable) (calls s cs).2.
Proof.
  assert (H : keeps_stage_graphs s (calls s cs).1
              ∧ Forall (λ r, r ≠ TypeError_none_not_callable) (calls s cs).2).
  { revert s. induction cs as [|[env fa] cs IH]; intros s; simpl.
    - split; [apply keeps_stage_graphs_refl|constructor].
    - destruct (call_stage_graphs env fa s) as [H1 H2].
      destruct (call env fa s) as [s1 r]. simpl in *.
      destruct (IH s1) as [I1 I2].
      destruct (calls s1 cs) as [sn rs]. simpl in *.
      split; [by eapply keeps_stage_graphs_trans|by constructor]. }
  destruct H as [(H1 & H2 & H3) H4]. split_and!; [done|done|lia|done].
Qed.

Lemma unet_cache_step_miss_served env a p p' g :
  trace_fresh p →
  dict_get (unet_graphs p) (cache_key a) = None →
  unet_cache_step env a p = (p', Returned (Some g)) →
  dict_get (unet_graphs p') (cache_key a)
    = Some (unet_graphs_lru_cache_time p', g)
  ∧ ∀ kind, EvConstruct g kind ∈ trace p' ↔ kind = graph_kind a.
Proof.
  intros Hfresh Hget. unfold unet_cache_step.
  destruct (compile_unet a); [|done]. rewrite Hget.
  destruct (evict_lru _ _) as [[d gone] []]; [|done].
  destruct env; [|done|done]. intros [= <- <-]. simpl.
  split; [apply dict_get_set_eq|]. intros kind. split.
  - rewrite !elem_of_app. intros [Hin|[Hin|Hin]].
    + apply Hfresh in Hin. lia.
    + apply list_elem_of_fmap in Hin as (? & ? & _). done.
    + apply elem_of_cons in Hin as [[= ->]|Hin]; [done|].
      repeat (apply elem_of_cons in Hin as [?|Hin]; [done|]).
      by apply elem_of_nil in Hin.
  - intros ->. rewrite !elem_of_app. right. right. apply list_elem_of_here.
Qed.

(** X10. The class of a cached graph is not part of the key. A call that
    misses constructs a graph of the class its [unrolled_timesteps] asks
    for; a later call with the same height and width is served by that
    graph object without compiling, and calls it with the arguments its
    own [unrolled_timesteps] asks for. When the two calls differ in
    [unrolled_timesteps] the graph is called as the other class. *)
Theorem cached_graph_class_ignored env1 env2 fa fb s s1 den dec :
  trace_fresh (cache s) →
  dict_get (unet_graphs (cache s)) (cache_key (base fa)) = None →
  compile_unet (base fa) = true →
  call env1 fa s = (s1, Generated den dec) →
  cache_key (base fb) = cache_key (base fa) →
  args_ok (cache s1) (base fb) = true →
  compile_unet (base fb) = true →
  ∃ g den' dec',
    expects den = Some (g, graph_kind (base fa))
    ∧ (∀ kind, constructed_as g kind s1 ↔ kind = graph_kind (base fa))
    ∧ (call env2 fb s1).2 = Generated den' dec'
    ∧ expects den' = Some (g, graph_kind (base fb))
    ∧ trace (cache (call env2 fb s1).1) = trace (cache s1).
Proof.
  intros Hfresh Hmiss Hca Hcall Hkey Hok Hcb.
  destruct (call_pipeline_call env1 fa s) as [Hc1 Hr1].
  rewrite Hcall in Hc1, Hr1. simpl in Hc1, Hr1.
  destruct (pipeline_call_cases env1 (base fa) (cache s))
    as [[_ Heq]|[_ [e Heq]]]; rewrite Heq in Hc1, Hr1; [|done].
  destruct (unet_cache_step env1 (base fa) (cache s)) as [p1 [og|e]] eqn:Hstep;
    [|done].
  simpl in Hc1, Hr1.
  pose proof Hstep as Hret.
  apply unet_cache_step_returned in Hret as [[_ [g ->]]|[? _]]; [|congruence].
  destruct (unet_cache_step_miss_served _ _ _ _ _ Hfresh Hmiss Hstep)
    as [Hnow Hkind].
  assert (Hden : expects den = Some (g, graph_kind (base fa))).
  { unfold denoise, graph_kind in *. rewrite Hca in Hr1.
    destruct (unrolled_timesteps (base fa)); simpl in Hr1;
      destruct Hr1 as [dec0 Heq0]; injection Heq0 as -> _; done. }
  destruct (call_pipeline_call env2 fb s1) as [Hc2 Hr2].
  rewrite (pipeline_call_ok _ _ _ Hok) in Hc2, Hr2.
  rewrite Hc1 in Hc2, Hr2, Hok. unfold unet_cache_step in Hc2, Hr2.
  rewrite Hcb, Hkey, Hnow in Hc2, Hr2. simpl in Hc2, Hr2.
  unfold denoise in Hr2. rewrite Hcb in Hr2.
  assert (∃ den' dec', (call env2 fb s1).2 = Generated den' dec'
                       ∧ expects den' = Some (g, graph_kind (base fb)))
    as (den' & dec' & Hres & Hexp).
  { unfold graph_kind. destruct (unrolled_timesteps (base fb)); simpl in Hr2;
      destruct Hr2 as [dec' Hres]; eexists _, dec'; split; try exact Hres; done. }
  exists g, den', dec'. split; [done|]. split.
  { unfold constructed_as. by rewrite Hc1. }
  split; [done|]. split; [done|].
  rewrite Hc1, Hc2. simpl. apply app_nil_r.
Qed.

Lemma cached_graph_class_ignored_witness :
  let fa := mkFull (mkArgs PromptStr 512 512 true None true true) true true in
  let fb := mkFull (mkArgs PromptStr 512 512 true None true false) true true in
  let s := PipelineStages.init 4 77 768 in
  ∃ g den' dec',
    expects (UnrolledCall 0) = Some (g, UnrolledDenoiseGraph)
    ∧ (∀ kind, constructed_as g kind (call CompilerOk fa s).1
               ↔ kind = UnrolledDenoiseGraph)
    ∧ (call CompilerOk fb (call CompilerOk fa s).1).2 = Generated den' dec'
    ∧ expects den' = Some (g, UNetGraph)
    ∧ trace (cache (call CompilerOk fb (call CompilerOk fa s).1).1)
      = trace (cache (call CompilerOk fa s).1).
Proof.
  intros fa fb s.
  assert (Hfresh : trace_fresh (cache s)) by (by intros g kind ?%elem_of_nil).
  exact (cached_graph_class_ignored CompilerOk CompilerOk fa fb s
           (call CompilerOk fa s).1 (UnrolledCall 0) (DecodeGraph 1)
           Hfresh eq_refl eq_refl eq_refl eq_refl eq_refl eq_refl).
Defined.

End PipelineStagesFacts.

(** ** The deployable module over moves and graph requests *)

Section DeployableOpsFacts.
Import Deployable DeployableOps.
Context {Device DualModule ToArgs : Type}.
Variable parse_device : ToArgs → option Device.
Variable check_device : Device → Device → bool.
Variable debug_mode : bool.
Variable graph_blocks : DualModule → nat.
Variable graph_state : DualModule → list Device.
Variable model_to : ToArgs → DualModule → DualModule.
Variable del_oneflow_module : DualModule → DualModule.

Local Abbreviation Mod := (DeployableModule Device DualModule).
Local Abbreviation step' :=
  (step parse_device check_device debug_mode graph_blocks graph_state model_to).
Local Abbreviation run' :=
  (run parse_device check_device debug_mode graph_blocks graph_state model_to).
Local Abbreviation to' := (to parse_device check_device model_to).
Local Abbreviation get_graph' := (get_graph debug_mode graph_blocks graph_state).

Lemma to_keeps (args : ToArgs) (m : Mod) :
  _deployable_module_dpl_graph (to' args m).1 = _deployable_module_dpl_graph m
  ∧ _deployable_module_options (to' args m).1 = _deployable_module_options m
  ∧ _deployable_module_use_graph (to' args m).1 = _deployable_module_use_graph m.
Proof.
  unfold to. destruct (_deployable_module_dpl_graph m) as [g|] eqn:Hg; [|done].
  destruct (parse_device args) as [t|]; [|done].
  case_bool_decide; [|done].
  destruct (_state g) as [|c cs]; [done|].
  by destruct (check_device c t).
Qed.

Lemma step_held (o : Op) (m : Mod) g :
  _deployable_module_dpl_graph m = Some g →
  _deployable_module_dpl_graph (step' m o) = Some g
  ∧ _deployable_module_options (step' m o) = _deployable_module_options m.
Proof.
  intros Hg. destruct o as [args|]; simpl.
  - destruct (to_keeps args m) as (H1 & H2 & _). by rewrite H1, H2.
  - unfold get_graph. by rewrite Hg.
Qed.

(** X11. Once a module holds a graph, [to] and [get_graph] never replace
    it or touch the options, in whatever order and however often they are
    called: [get_graph] goes on returning that graph, and a move to a
    device that [check_device] rejects for it is refused after the
    sequence as before it. Calls of the module, which pass through
    decorators, are not among the operations. *)
Theorem held_graph_frozen (ops : list Op) (m : Mod) g :
  _deployable_module_dpl_graph m = Some g →
  let m' := run' m ops in
  _deployable_module_dpl_graph m' = Some g
  ∧ _deployable_module_options m' = _deployable_module_options m
  ∧ get_graph' m' = (m', g)
  ∧ (∀ args target current,
       parse_device args = Some target →
       graph_device g = Some current →
       check_device current target = false →
       to' args m' = (m', Some (RuntimeError_device current target))).
Proof.
  intros Hg. cbv zeta.
  assert (Hinv : _deployable_module_dpl_graph (run' m ops) = Some g
                 ∧ _deployable_module_options (run' m ops)
                   = _deployable_module_options m).
  { unfold run. revert m Hg. induction ops as [|o ops IH]; intros m Hg; simpl.
    - done.
    - destruct (step_held o m g Hg) as [H1 H2].
      destruct (IH _ H1) as [I1 I2]. split; [done|congruence]. }
  destruct Hinv as [H1 H2]. split_and!; [done|done| |].
  - unfold get_graph. by rewrite H1.
  - intros args target current Ht Hc Hrej.
    unfold to. rewrite H1, Ht. unfold graph_device in Hc.
    case_bool_decide; [|done].
    destruct (_state g) as [|c cs]; [done|]. simpl in Hc. injection Hc as ->.
    by rewrite Hrej.
Qed.

(** X13. After [set_graph_file] has recorded a path the module holds no
    graph: [to] moves it to any device without a check, and [get_graph]
    makes a new graph that is not built, of the size that the options
    gave before. The other options and the two flags are as they were. *)
Theorem set_graph_file_resets (file_path : PyVal) (m : Mod) :
  truthy file_path = false ∨ get_graph_file m ≠ file_path →
  let m' := set_graph_file del_oneflow_module file_path m in
  (∀ args, to' args m'
           = (with_model m' (model_to args (_deployable_module_model m')), None))
  ∧ (∃ g, get_graph' m' = (with_graph m' (Some g), g)
          ∧ built g = false
          ∧ graph_size g
            = default (PyInt 9) (_deployable_module_options m !! "size")
          ∧ graph_dynamic g = _deployable_module_enable_dynamic m)
  ∧ (∀ k, k ≠ "graph_file" →
          _deployable_module_options m' !! k = _deployable_module_options m !! k)
  ∧ _deployable_module_use_graph m' = _deployable_module_use_graph m
  ∧ _deployable_module_enable_dynamic m' = _deployable_module_enable_dynamic m.
Proof.
  intros Hcase. cbv zeta. unfold set_graph_file.
  assert (truthy file_path && bool_decide (get_graph_file m = file_path) = false)
    as ->.
  { destruct Hcase as [->|Hne]; [done|].
    rewrite (bool_decide_eq_false_2 _ Hne). apply andb_false_r. }
  split_and!; [done| | |done|done].
  - unfold get_graph, _clear_old_graph. simpl.
    rewrite !lookup_insert_ne by done.
    eexists. split; [reflexivity|].
    destruct debug_mode, (_deployable_module_options m !! "debug"),
      (_deployable_module_options m !! "size"); done.
  - intros k Hk. simpl. by rewrite lookup_insert_ne.
Qed.

End DeployableOpsFacts.

Lemma held_graph_frozen_witness :
  let g := Deployable.mkGraph string (Deployable.PyInt 9) true [] 1 ["cuda"] false in
  let m := Deployable.mkModule string string "unet" true true ∅ (Some g) false in
  let ops := [DeployableOps.OpTo "cuda"; DeployableOps.OpGetGraph;
              DeployableOps.OpTo "cpu"] in
  let m' := DeployableOps.run (λ a : string, Some a) (λ c t, bool_decide (c = t))
              false (λ _, 1%nat) (λ _, ["cuda"]) (λ a _, a) m ops in
  Deployable._deployable_module_dpl_graph m' = Some g
  ∧ Deployable.to (λ a : string, Some a) (λ c t, bool_decide (c = t)) (λ a _, a)
      "cpu" m'
    = (m', Some (Deployable.RuntimeError_device "cuda" "cpu")).
Proof.
  intros g m ops m'.
  pose proof (held_graph_frozen (λ a : string, Some a)
                (λ c t, bool_decide (c = t)) false (λ _, 1%nat) (λ _, ["cuda"])
                (λ a _, a) ops m g eq_refl) as (H1 & _ & _ & H4).
  split; [exact H1|].
  exact (H4 "cpu" "cpu" "cuda" eq_refl eq_refl eq_refl).
Defined.

Lemma set_graph_file_resets_witness :
  let g := Deployable.mkGraph string (Deployable.PyInt 9) true [] 1 ["cuda"] true in
  let m := Deployable.mkModule string string "unet" true true
             {["graph_file" := Deployable.PyStr "a.graph"]} (Some g) false in
  let m' := Deployable.set_graph_file (λ dm, dm) (Deployable.PyStr "b.graph") m in
  Deployable.get_graph_file m ≠ Deployable.PyStr "b.graph"
  ∧ Deployable.to (λ a : string, Some a) (λ c t, bool_decide (c = t)) (λ a _, a)
      "cpu" m'
    = (Deployable.with_model m' "cpu", None).
Proof.
  intros g m m'.
  assert (Hne : Deployable.get_graph_file m ≠ Deployable.PyStr "b.graph").
  { unfold Deployable.get_graph_file. simpl. rewrite lookup_singleton_eq.
    simpl. discriminate. }
  split; [exact Hne|].
  exact (proj1 (set_graph_file_resets (λ a : string, Some a)
           (λ c t, bool_decide (c = t)) false (λ _, 1%nat) (λ _, ["cuda"])
           (λ a _, a) (λ dm, dm)
           (Deployable.PyStr "b.graph") m (or_intror Hne)) "cpu").
Defined.

(** ** Modules that share the default options *)

Section DeployableSharedFacts.
Import Deployable DeployableShared.
Context {Device DualModule : Type}.
Variable del_oneflow_module : DualModule → DualModule.

Local Abbreviation set_graph_file_obj' :=
  (set_graph_file_obj (Device:=Device) del_oneflow_module).

Lemma get_graph_file_set_graph_file (file_path : PyVal)
    (m : DeployableModule Device DualModule) :
  get_graph_file (set_graph_file del_oneflow_module file_path m) = file_path.
Proof.
  unfold set_graph_file.
  destruct (truthy file_path); simpl.
  - case_bool_decide as Heq; [done|].
    unfold get_graph_file. simpl. by rewrite lookup_insert_eq.
  - unfold get_graph_file. simpl. by rewrite lookup_insert_eq.
Qed.

(** X14. Two modules whose options are the same dict, as are all that
    are made with [options] left out: when one of them is given a graph
    file, the other one reports that path as its own although it still
    holds the graph it had, and giving it the same path afterwards changes
    nothing, so its graph is not dropped. *)
Theorem default_options_shared (h : Heap) (a b : Obj) (file_path : PyVal) :
  options_ref a = options_ref b →
  truthy file_path = true →
  let h1 := (set_graph_file_obj' file_path h a).1 in
  let r := set_graph_file_obj' file_path h1 b in
  get_graph_file (view h1 b) = file_path
  ∧ _deployable_module_dpl_graph (view h1 b)
    = _deployable_module_dpl_graph (attrs b)
  ∧ view r.1 r.2 = view h1 b
  ∧ options_ref (init (Device:=Device) (_deployable_module_model (attrs a))
                   true true None)
    = options_ref (init (Device:=Device) (_deployable_module_model (attrs b))
                     true true None).
Proof.
  intros Href Htruthy. cbv zeta.
  assert (Hpath : get_graph_file (view (set_graph_file_obj' file_path h a).1 b)
                  = file_path).
  { unfold set_graph_file_obj, method, view. simpl.
    rewrite <- Href, lookup_total_insert_eq.
    pose proof (get_graph_file_set_graph_file file_path
                  (with_options (attrs a) (h !!! options_ref a))) as Hset.
    unfold get_graph_file in *. simpl. exact Hset. }
  split_and!; [exact Hpath|done| |done].
  generalize dependent (set_graph_file_obj' file_path h a).1. intros h1 Hpath.
  unfold set_graph_file_obj, method. simpl.
  unfold set_graph_file. rewrite Htruthy, Hpath, bool_decide_eq_true_2 by done.
  simpl. unfold view. simpl. by rewrite lookup_total_insert_eq.
Qed.

End DeployableSharedFacts.

Lemma default_options_shared_witness :
  let g := Deployable.mkGraph string (Deployable.PyInt 9) true [] 1 ["cuda"] true in
  let a := DeployableShared.init (Device:=string) "unet" true true None in
  let b := DeployableShared.mkObj
             (Deployable.mkModule string string "vae" true true ∅ (Some g) false)
             DeployableShared.default_options in
  let h : gmap nat (gmap string Deployable.PyVal) :=
    {[ DeployableShared.default_options := ∅ ]} in
  let h1 := (DeployableShared.set_graph_file_obj (λ dm, dm)
               (Deployable.PyStr "unet.graph") h a).1 in
  Deployable.get_graph_file (DeployableShared.view h b) = Deployable.PyNone
  ∧ Deployable.get_graph_file (DeployableShared.view h1 b)
    = Deployable.PyStr "unet.graph"
  ∧ Deployable._deployable_module_dpl_graph (DeployableShared.view h1 b) = Some g.
Proof.
  intros g a b h h1.
  pose proof (default_options_shared (λ dm : string, dm) h a b
                (Deployable.PyStr "unet.graph") eq_refl eq_refl)
    as (H1 & H2 & _).
  split; [|split; [exact H1|exact H2]].
  vm_compute. reflexivity.
Defined.


(** ** The sd-webui script over several runs *)

Section WebuiOpsFacts.
Import Webui WebuiOps.
Context {Proc : Type}.
Variable process_images : World → World * (Proc + Exn).
Variable runtime_convnames : Val → list (string * option nat).

Local Abbreviation run' := (run process_images runtime_convnames).

Lemma copy_conv_weights_complete (d : list (string * option nat)) :
  (copy_conv_weights d).2 = false → copy_conv_weights d = (copies d, false).
Proof.
  induction d as [|[k [t|]] d IH]; simpl; [done| |done].
  destruct (copy_conv_weights d) as [evs b]. simpl in *.
  intros ->. unfold copies in *. simpl. by injection (IH eq_refl) as ->.
Qed.

(** X15. The loop over [convname_dict] asks for a recompilation exactly
    when some target tensor is [None]; it then has already overwritten
    the targets listed before the first such entry, and otherwise it
    overwrites every target, in the order of the dict. *)
Theorem copy_conv_weights_stops_at_missing (d : list (string * option nat)) :
  ((copy_conv_weights d).2 = true ↔ ∃ k, (k, None) ∈ d)
  ∧ ((copy_conv_weights d).2 = false → (copy_conv_weights d).1 = copies d)
  ∧ (∀ d1 k d2,
       d = d1 ++ (k, None) :: d2 → Forall (λ e, is_Some e.2) d1 →
       (copy_conv_weights d).1 = copies d1
       ∧ length (copy_conv_weights d).1 = length d1).
Proof.
  split_and!.
  - induction d as [|[k [t|]] d IH]; simpl.
    + split; [done|]. by intros [k ?%elem_of_nil].
    + destruct (copy_conv_weights d) as [evs b]. simpl in *. rewrite IH.
      split.
      * intros [k' Hin]. exists k'. by apply list_elem_of_further.
      * intros [k' Hin]. apply elem_of_cons in Hin as [[=]|Hin]. by exists k'.
    + split; [|done]. intros _. exists k. apply list_elem_of_here.
  - intros Hd. by rewrite (copy_conv_weights_complete d Hd).
  - intros d1 k d2 -> Hall. induction Hall as [|[k1 [t|]] d1 Ht Hall IH]; simpl.
    + done.
    + destruct (copy_conv_weights (d1 ++ (k, None) :: d2)) as [evs b].
      simpl in *. destruct IH as [-> Hlen]. unfold copies. simpl.
      split; [done|]. by rewrite <- Hlen.
    + by destruct Ht.
Qed.

Lemma run_after_prepare (q : bool) w :
  leaves_script_state process_images →
  (run_prepare q w).2 = None →
  convname_dict (run_prepare q w).1 ≠ None →
  (run' (QuantBool q) w).1 = (run_prepare q w).1.
Proof.
  intros Hframe Hok Hconv. unfold run.
  destruct (run_prepare q w) as [w1 [e|]] eqn:Hprep; [done|]. simpl in *.
  unfold with_ctx, UnetCompileCtx_enter, UnetCompileCtx_exit.
  pose proof (Hframe (set_diffusion_model (compiled_unet w1) w1)) as Hw.
  destruct (process_images _) as [w2 [proc|e]]; simpl in *; subst w2; simpl.
  - destruct (convname_dict w1) eqn:Hc; [|done]. by destruct w1.
  - by destruct w1.
Qed.

(** X16. The copy path does not record the checkpoint whose weights it
    copied. With a graph compiled for one checkpoint, a run after the host
    has loaded another one of the same structure overwrites the target
    tensors and leaves [compiled_ckpt_name] alone; a run after the host
    has loaded the first checkpoint again then sees no change, so it
    neither copies nor compiles, and the targets keep the weights of the
    other checkpoint. *)
Theorem switch_back_keeps_copied_weights
    (w : World) (d : list (string * option nat)) (other : string) (model' : Val) :
  leaves_script_state process_images →
  current_type w = Some (sd_model_type w) →
  compiled_ckpt_name w = Some (sd_model_checkpoint w) →
  convname_dict w = Some d →
  (copy_conv_weights d).2 = false →
  other ≠ sd_model_checkpoint w →
  let w1 := load_checkpoint other model' (sd_model_type w) w in
  let r1 := run' (QuantBool false) w1 in
  let w2 := load_checkpoint (sd_model_checkpoint w) (diffusion_model w)
              (sd_model_type w) r1.1 in
  let r2 := run' (QuantBool false) w2 in
  log r1.1 = log w ++ copies d
  ∧ compiled_ckpt_name r1.1 = compiled_ckpt_name w
  ∧ compiled_unet r1.1 = compiled_unet w
  ∧ log r2.1 = log r1.1
  ∧ compiled_unet r2.1 = compiled_unet w.
Proof.
  intros Hframe Htype Hname Hconv Hcopy Hother. cbv zeta.
  pose proof (copy_conv_weights_complete d Hcopy) as Hevs.
  set (w1 := load_checkpoint other model' (sd_model_type w) w).
  assert (Hprep1 : run_prepare false w1 = (emit (copies d) w1, None)).
  { unfold run_prepare, check_model_structure_change. subst w1. simpl.
    rewrite Htype, !eqb_reflx. simpl. rewrite Hname, Hconv.
    rewrite bool_decide_eq_true_2 by (intros [= ?]; done).
    rewrite Hevs. done. }
  assert (Hrun1 : (run' (QuantBool false) w1).1 = emit (copies d) w1).
  { rewrite run_after_prepare;
      [by rewrite Hprep1|done|by rewrite Hprep1|].
    rewrite Hprep1. simpl. by rewrite Hconv. }
  rewrite Hrun1.
  set (w2 := load_checkpoint (sd_model_checkpoint w) (diffusion_model w)
               (sd_model_type w) (emit (copies d) w1)).
  assert (Hprep2 : run_prepare false w2 = (w2, None)).
  { unfold run_prepare, check_model_structure_change. subst w2 w1. simpl.
    rewrite Htype, !eqb_reflx. simpl. rewrite Hname.
    by rewrite bool_decide_eq_false_2 by (intros ?; done). }
  assert (Hrun2 : (run' (QuantBool false) w2).1 = w2).
  { rewrite run_after_prepare;
      [by rewrite Hprep2|done|by rewrite Hprep2|].
    rewrite Hprep2. simpl. by rewrite Hconv. }
  rewrite Hrun2. by split_and!.
Qed.

(** X17. A completed run without quantization leaves a [convname_dict],
    so the next run without quantization gets past the loop over it,
    whatever checkpoint the host has loaded in between. *)
Theorem unquantized_run_leaves_convnames
    (w w1 : World) (proc : Proc) (quantization : QuantArg) :
  leaves_script_state process_images →
  quantization ≠ QuantBool true →
  run' quantization w = (w1, inl proc) →
  convname_dict w1 ≠ None
  ∧ ∀ name model t,
      (run_prepare false (load_checkpoint name model t w1)).2 = None.
Proof.
  intros Hframe Hq Hrun.
  assert (Hconv : convname_dict w1 ≠ None).
  { revert Hrun. unfold run.
    assert ((match quantization with QuantBool b => b | QuantHtml => false end)
            = false) as ->.
    { destruct quantization as [[]|]; done. }
    destruct (run_prepare false w) as [w0 [e|]]; [done|].
    destruct (with_ctx _ _ _ w0) as [w2 [[proc'|]|e]]; [|done|done].
    destruct (convname_dict w2) eqn:Hc; intros [= <- _]; [by rewrite Hc|done]. }
  split; [done|]. intros name model t.
  unfold run_prepare, check_model_structure_change.
  destruct (current_type (load_checkpoint name model t w1)) as [ty|]; simpl; [|done].
  destruct (_ || _ || _ || _); simpl; [done|].
  case_bool_decide; [|done].
  destruct (convname_dict w1) as [d|]; [|done].
  by destruct (copy_conv_weights d) as [evs []].
Qed.

End WebuiOpsFacts.


(** The first run compiles for the checkpoint loaded at startup. *)
Lemma switch_back_keeps_copied_weights_witness :
  let process_images := λ w : Webui.World, (w, @inl unit Webui.Exn ()) in
  let names := λ _ : Webui.Val, [("input_blocks.0.0.weight", Some 5%nat)] in
  let w := (Webui.run process_images names (Webui.QuantBool false) Webui.startup).1 in
  let w1 := Webui.load_checkpoint "dreamshaper_8" (Webui.VObj 7) Webui.sd1 w in
  let r1 := Webui.run process_images names (Webui.QuantBool false) w1 in
  let w2 := Webui.load_checkpoint "v1-5-pruned" (Webui.VObj 0) Webui.sd1 r1.1 in
  let r2 := Webui.run process_images names (Webui.QuantBool false) w2 in
  Webui.compiled_ckpt_name w = Some "v1-5-pruned"
  ∧ Webui.log r1.1
    = Webui.log w ++ [Webui.EvCopy "input_blocks.0.0.weight" 5]
  ∧ Webui.compiled_ckpt_name r1.1 = Some "v1-5-pruned"
  ∧ Webui.log r2.1 = Webui.log r1.1.
Proof.
  intros process_images names w w1 r1 w2 r2.
  assert (Hframe : WebuiOps.leaves_script_state process_images)
    by (intros w0; reflexivity).
  assert (Hother : "dreamshaper_8" ≠ Webui.sd_model_checkpoint w)
    by (vm_compute; discriminate).
  pose proof (switch_back_keeps_copied_weights process_images names w
                [("input_blocks.0.0.weight", Some 5%nat)] "dreamshaper_8"
                (Webui.VObj 7) Hframe eq_refl eq_refl eq_refl eq_refl Hother)
    as (H1 & H2 & _ & H4 & _).
  split; [reflexivity|]. split; [exact H1|]. split; [exact H2|exact H4].
Defined.

Lemma unquantized_run_leaves_convnames_witness :
  let process_images := λ w : Webui.World, (w, @inl unit Webui.Exn ()) in
  let names := λ _ : Webui.Val, [("input_blocks.0.0.weight", Some 5%nat)] in
  let w1 := (Webui.run process_images names Webui.QuantHtml Webui.startup).1 in
  Webui.convname_dict w1 ≠ None
  ∧ (Webui.run_prepare false
       (Webui.load_checkpoint "dreamshaper_8" (Webui.VObj 7) Webui.sd1 w1)).2
    = None.
Proof.
  intros process_images names w1.
  assert (Hframe : WebuiOps.leaves_script_state process_images)
    by (intros w0; reflexivity).
  assert (Hq : Webui.QuantHtml ≠ Webui.QuantBool true) by discriminate.
  pose proof (unquantized_run_leaves_convnames process_images names
                Webui.startup w1 () Webui.QuantHtml Hframe Hq eq_refl)
    as [H1 H2].
  split; [exact H1|]. exact (H2 "dreamshaper_8" (Webui.VObj 7) Webui.sd1).
Defined.


(** ** The mock-torch context *)

Section MockTorchFacts.
Import Webui MockTorch.
Context {C A E : Type}.
Variable enable_enter : Interp → Interp * C.
Variable enable_exit : C → option E → Interp → Interp * bool.

Local Abbreviation mock' := (onediff_mock_torch (A:=A) enable_enter enable_exit).

(** X18. When the block under [onediff_mock_torch] is left without an
    exception, [oneflow.__version__] is what it was at entry whatever the
    block did to it, and [sys.modules] has as many entries as at entry:
    it is put back only if the count changed, so a change that keeps the
    count stays. *)
Theorem mock_torch_exit_restores
    (body : Interp → Interp * (A + E)) (w w' : Interp) (r : option A) :
  mock' body w = (w', inl r) →
  (is_Some (flow_version w) → is_Some (torch_version w) →
   flow_version w' = flow_version w)
  ∧ size (sys_modules w') = size (sys_modules w)
  ∧ (∀ inside,
       (with_ctx enable_enter enable_exit body
          (set_flow_version (torch_version w) w)).1 = inside →
       is_Some (flow_version w) → is_Some (torch_version w) →
       sys_modules w'
       = if bool_decide (size (sys_modules inside) = size (sys_modules w))
         then sys_modules inside else sys_modules w).
Proof.
  unfold onediff_mock_torch.
  destruct (bool_decide (is_Some (flow_version w) ∧ is_Some (torch_version w)))
    eqn:Hboth.
  - apply bool_decide_eq_true_1 in Hboth.
    destruct (with_ctx _ _ _ _) as [w2 [r'|e]]; [|done].
    intros [= <- <-]. simpl. split_and!.
    + intros _ _. by case_bool_decide.
    + by case_bool_decide.
    + intros inside <- _ _. simpl.
      case_bool_decide as Hne; simpl.
      * by rewrite bool_decide_eq_false_2.
      * by rewrite bool_decide_eq_true_2.
  - apply bool_decide_eq_false_1 in Hboth.
    destruct (with_ctx _ _ _ _) as [w2 [r'|e]]; [|done].
    intros [= <- <-]. simpl. split_and!.
    + intros ? ?. by destruct Hboth.
    + by case_bool_decide.
    + intros ? _ ? ?. by destruct Hboth.
Qed.

Lemma mock_torch_versions (body : Interp → Interp * (A + E)) (w : Interp) tv :
  (∀ w0, keeps_versions w0 (enable_enter w0).1) →
  (∀ c e w0, keeps_versions w0 (enable_exit c e w0).1) →
  (∀ w0, keeps_versions w0 (body w0).1) →
  torch_version w = Some tv →
  torch_version (mock' body w).1 = Some tv
  ∧ (flow_version w = Some tv → flow_version (mock' body w).1 = Some tv)
  ∧ (is_Some (flow_version w) → ∀ e, (mock' body w).2 = inr e →
     flow_version (mock' body w).1 = Some tv).
Proof.
  intros Henter Hexit Hbody Htv. unfold onediff_mock_torch.
  set (w1 := if bool_decide _ then set_flow_version (torch_version w) w else w).
  assert (Hinner : keeps_versions w1
            (with_ctx enable_enter enable_exit body w1).1).
  { unfold with_ctx. pose proof (Henter w1) as [H1 H2].
    destruct (enable_enter w1) as [wa c]. simpl in *.
    pose proof (Hbody wa) as [H3 H4].
    destruct (body wa) as [wb [a|e]]; simpl in *.
    - pose proof (Hexit c None wb) as [H5 H6].
      destruct (enable_exit c None wb) as [wc sw]. simpl in *.
      split; congruence.
    - pose proof (Hexit c (Some e) wb) as [H5 H6].
      destruct (enable_exit c (Some e) wb) as [wc sw]. simpl in *.
      split; congruence. }
  destruct Hinner as [Hf Ht].
  assert (Ht1 : torch_version w1 = Some tv).
  { subst w1. by case_bool_decide. }
  destruct (with_ctx enable_enter enable_exit body w1) as [w2 [r|e]]; simpl in *.
  - assert (Hfold : ∀ l w0, torch_version
              (foldl (λ w' orig, set_flow_version orig w') w0 l)
              = torch_version w0).
    { induction l as [|o l IH]; intros w0; simpl; [done|]. by rewrite IH. }
    split_and!; [| |done].
    + case_bool_decide; simpl; rewrite Hfold; congruence.
    + intros Hfv. subst w1. case_bool_decide as Hboth; simpl.
      * by case_bool_decide.
      * destruct Hboth. rewrite Hfv, Htv. by split.
  - split_and!; [congruence| |].
    + intros Hfv. rewrite Hf. subst w1. case_bool_decide; simpl; congruence.
    + intros Hsome e' _. rewrite Hf. subst w1.
      rewrite bool_decide_eq_true_2; [done|]. split; [done|]. by rewrite Htv.
Qed.

(** X19. When the block under [onediff_mock_torch] raises and
    [mock_torch.enable] lets the exception through, nothing is put back:
    [oneflow.__version__] keeps the value of [torch.__version__], and
    every later use of the context saves and restores that value, so the
    version that [oneflow] had is not seen again. The block and
    [mock_torch.enable] are taken not to assign the two attributes. *)
Theorem mock_torch_raise_loses_version
    (body body2 : Interp → Interp * (A + E)) (w w' : Interp) (e : E)
    (tv : string) :
  (∀ w0, keeps_versions w0 (enable_enter w0).1) →
  (∀ c e0 w0, keeps_versions w0 (enable_exit c e0 w0).1) →
  (∀ w0, keeps_versions w0 (body w0).1) →
  (∀ w0, keeps_versions w0 (body2 w0).1) →
  is_Some (flow_version w) →
  torch_version w = Some tv →
  mock' body w = (w', inr e) →
  flow_version w' = Some tv
  ∧ flow_version (mock' body2 w').1 = Some tv.
Proof.
  intros Henter Hexit Hbody Hbody2 Hfv Htv Hrun.
  destruct (mock_torch_versions body w tv Henter Hexit Hbody Htv)
    as (Ht & _ & Hraise).
  specialize (Hraise Hfv e). rewrite Hrun in Ht, Hraise. simpl in *.
  specialize (Hraise eq_refl). split; [done|].
  by destruct (mock_torch_versions body2 w' tv Henter Hexit Hbody2 Ht)
    as (_ & Hkeep & _); apply Hkeep.
Qed.

End MockTorchFacts.

Lemma mock_torch_exit_restores_witness :
  let w := MockTorch.mkInterp (Some "0.9.1") (Some "2.1.0")
             {["torch" := 1%nat; "oneflow" := 2%nat]} in
  let enter := λ w0 : MockTorch.Interp,
    (MockTorch.set_sys_modules (<["torch" := 2%nat]> (MockTorch.sys_modules w0)) w0, ()) in
  let exit := λ (_ : ()) (_ : option nat) (w0 : MockTorch.Interp), (w0, false) in
  let body := λ w0 : MockTorch.Interp,
    (MockTorch.set_flow_version (Some "patched") w0, @inl unit nat ()) in
  let w' := (MockTorch.onediff_mock_torch enter exit body w).1 in
  MockTorch.flow_version w' = Some "0.9.1"
  ∧ size (MockTorch.sys_modules w') = size (MockTorch.sys_modules w).
Proof.
  intros w enter exit body w'.
  pose proof (mock_torch_exit_restores enter exit body w w' (Some ()) eq_refl)
    as (H1 & H2 & _).
  split; [apply H1; by eexists|exact H2].
Defined.

Lemma mock_torch_raise_loses_version_witness :
  let w := MockTorch.mkInterp (Some "0.9.1") (Some "2.1.0")
             {["torch" := 1%nat; "oneflow" := 2%nat]} in
  let enter := λ w0 : MockTorch.Interp, (w0, ()) in
  let exit := λ (_ : ()) (_ : option nat) (w0 : MockTorch.Interp), (w0, false) in
  let body := λ w0 : MockTorch.Interp, (w0, @inr unit nat 1%nat) in
  let body2 := λ w0 : MockTorch.Interp, (w0, @inl unit nat ()) in
  let w' := (MockTorch.onediff_mock_torch enter exit body w).1 in
  MockTorch.flow_version w' = Some "2.1.0"
  ∧ MockTorch.flow_version (MockTorch.onediff_mock_torch enter exit body2 w').1
    = Some "2.1.0".
Proof.
  intros w enter exit body body2 w'.
  assert (Hk : ∀ w0 : MockTorch.Interp, MockTorch.keeps_versions w0 w0)
    by (intros w0; split; reflexivity).
  assert (Hsome : is_Some (MockTorch.flow_version w)) by (by eexists).
  exact (mock_torch_raise_loses_version enter exit body body2 w w' 1%nat "2.1.0"
           Hk (λ _ _, Hk) Hk Hk Hsome eq_refl eq_refl).
Defined.


(** ** Names of the transposed variables *)

Section ConvNamesFacts.
Import Stdlib.Strings.Ascii ConvNames.
Local Open Scope string_scope.

Lemma strip_prefix_app (p s : string) : strip_prefix p (p +:+ s) = Some s.
Proof.
  induction p as [|a p IH]; simpl; [by destruct s|]. by rewrite decide_True.
Qed.

Lemma removeprefix_app (p s : string) : removeprefix p (p +:+ s) = s.
Proof. unfold removeprefix. by rewrite strip_prefix_app. Qed.

Lemma drop_digits_suffix (s tail : string) :
  ∃ t, drop_digits (s +:+ String "_" tail) = t +:+ String "_" tail.
Proof.
  induction s as [|c s IH]; simpl.
  - by exists "".
  - destruct (is_digit c); [exact IH|]. by exists (String c s).
Qed.

Lemma drop_digits_all (ds : string) : digits ds → drop_digits ds = "".
Proof.
  unfold digits. induction ds as [|c ds IH]; simpl; [done|].
  intros [Hc Hds]%Forall_cons. rewrite Hc. by apply IH.
Qed.

Lemma match_numbered_before (c : ascii) (s ds : string) :
  ds ≠ "" → match_numbered (String c (s +:+ String "_" ds)) = None.
Proof.
  intros Hds. unfold match_numbered.
  destruct (decide (c = "_"%char)) as [->|Hc].
  - destruct s as [|d s]; simpl; [done|].
    destruct (is_digit d); [|done].
    destruct (drop_digits_suffix s ds) as [t ->].
    rewrite decide_False; [done|].
    intros [Heq|Heq]; destruct t as [|? [|? ?]], ds; simplify_eq/=.
  - destruct c as [[] [] [] [] [] [] [] []]; try done.
Qed.

Lemma sub_numbered_suffix (s ds : string) :
  ds ≠ "" → digits ds → sub_numbered (s +:+ String "_" ds) = s.
Proof.
  intros Hne Hds. induction s as [|c s IH].
  - simpl. destruct ds as [|d ds]; [done|].
    unfold digits in Hds. simpl in Hds.
    apply Forall_cons in Hds as [Hd Hds]. rewrite Hd.
    rewrite (drop_digits_all ds Hds). by rewrite decide_True by (by left).
  - change (String c s +:+ String "_" ds) with (String c (s +:+ String "_" ds)).
    cbn [sub_numbered]. rewrite (match_numbered_before c s ds Hne).
    fold sub_numbered. by rewrite IH.
Qed.

(** X20. [convert_var_name] maps the name of a transposed variable back
    to the parameter it was made from: for every parameter name [n] and
    every non-empty run of digits [ds], the name
    [variable_transpose_model.n_ds] is converted to [n], also when [n]
    itself ends in an underscore and digits. *)
Theorem convert_var_name_round_trip (n ds : string) :
  ds ≠ "" → digits ds →
  convert_var_name ("variable_transpose_" +:+ "model." +:+ n +:+ "_" +:+ ds)
                   "variable_transpose_"
  = n.
Proof.
  intros Hne Hds. unfold convert_var_name.
  rewrite removeprefix_app.
  replace ("model." +:+ n +:+ "_" +:+ ds)
    with (("model." +:+ n) +:+ String "_" ds) by (simpl; done).
  rewrite sub_numbered_suffix by done. apply removeprefix_app.
Qed.

Lemma convert_var_name_round_trip_witness :
  "239" ≠ "" ∧ digits "239"
  ∧ convert_var_name
      "variable_transpose_model.input_blocks.1.0.in_layers.2.weight_239"
      "variable_transpose_"
    = "input_blocks.1.0.in_layers.2.weight".
Proof.
  assert (Hne : "239" ≠ "") by discriminate.
  assert (Hds : digits "239") by (repeat constructor).
  split; [exact Hne|]. split; [exact Hds|].
  exact (convert_var_name_round_trip "input_blocks.1.0.in_layers.2.weight"
           "239" Hne Hds).
Defined.

End ConvNamesFacts.


(** ** The attention patches of the ComfyUI nodes *)

Section ComfyPatchesFacts.
Import PyDict ComfyPatches.
Context {Key : Type} `{EqDecision Key}.
Implicit Types (s : State Key) (key : Key) (d : dict Key nat).

Lemma dict_get_set_is_Some d key key' (v : nat) :
  is_Some (dict_get (dict_set d key v) key')
  ↔ key' = key ∨ is_Some (dict_get d key').
Proof.
  destruct (decide (key = key')) as [->|Hne].
  - rewrite dict_get_set_eq. split; [by left|by eexists].
  - rewrite dict_get_set_ne by done. split; [by right|].
    by intros [->|?].
Qed.

Lemma dict_set_length d key (v : nat) :
  length (dict_set d key v)
  = (length d + match dict_get d key with Some _ => 0 | None => 1 end)%nat.
Proof.
  induction d as [|[k0 v0] d IH]; simpl; [done|].
  destruct (decide (key = k0)) as [->|?]; simpl; [lia|]. by rewrite IH.
Qed.

Lemma patches_made_app evs1 evs2 :
  patches_made (evs1 ++ evs2) = (patches_made evs1 + patches_made evs2)%nat.
Proof.
  induction evs1 as [|ev evs1 IH]; simpl; [done|]. destruct ev; simpl; lia.
Qed.

Lemma attn2_emit evs s : attn2 (emit evs s) = attn2 s.
Proof. done. Qed.

Lemma attn2_ensure_attn2 s : attn2 (ensure_attn2 s) = attn2 s.
Proof. done. Qed.

Lemma attn2_set_attn2 d s : attn2 (set_attn2 d s) = d.
Proof. done. Qed.

Lemma attn2_set_cache_dict key (patch : nat) s :
  attn2 (set_cache_dict key patch s) = attn2 s.
Proof. done. Qed.

Lemma attn2_new_patch s : attn2 (new_patch s).1 = attn2 s.
Proof. done. Qed.

Local Ltac patches :=
  repeat first
    [ rewrite attn2_emit | rewrite attn2_ensure_attn2 | rewrite attn2_set_attn2
    | rewrite attn2_set_cache_dict | rewrite attn2_new_patch ].

(** One call of the IPAdapter function. *)
Lemma ipadapter_step key s :
  let r := set_model_patch_replace_fn_of key s in
  r.2 = None
  ∧ is_Some (dict_get (attn2 r.1) key)
  ∧ (∀ k p, dict_get (cache_dict s) k = Some p →
            dict_get (cache_dict r.1) k = Some p)
  ∧ (∀ k, is_Some (dict_get (cache_dict r.1) k)
          ↔ (k = key ∧ dict_get (attn2 s) key = None)
            ∨ is_Some (dict_get (cache_dict s) k))
  ∧ (∀ k, is_Some (dict_get (attn2 r.1) k)
          ↔ k = key ∨ is_Some (dict_get (attn2 s) k))
  ∧ (patches_made (log r.1) + length (cache_dict s)
     = patches_made (log s) + length (cache_dict r.1))%nat.
Proof.
  cbv zeta. unfold set_model_patch_replace_fn_of.
  destruct (dict_get (cache_dict s) key) as [p|] eqn:Hc;
    destruct (dict_get (attn2 s) key) as [q|] eqn:Ha;
    repeat (progress (simpl; patches; rewrite ?Hc, ?Ha, ?dict_get_set_eq)).
  - split_and!; [done|by eexists|done| | |rewrite ?patches_made_app; simpl; lia].
    + intros k. split; [by right|]. by intros [[_ ?]|?].
    + intros k. split; [by right|]. intros [->|?]; [by rewrite Ha|done].
  - split_and!; [done|by eexists|done| |
                 |rewrite ?patches_made_app; simpl; lia].
    + intros k. split; [by right|]. intros [[-> _]|?]; [by rewrite Hc|done].
    + intros k. apply dict_get_set_is_Some.
  - split_and!; [done|by eexists|done| | |
                 rewrite ?patches_made_app; simpl; lia].
    + intros k. split; [by right|]. by intros [[_ ?]|?].
    + intros k. split; [by right|]. intros [->|?]; [by rewrite Ha|done].
  - split_and!; [done|by eexists| | | |].
    + intros k p Hk. destruct (decide (key = k)) as [->|Hne]; [congruence|].
      by rewrite dict_get_set_ne.
    + intros k. rewrite dict_get_set_is_Some. split.
      * intros [->|?]; [by left|by right].
      * intros [[-> _]|?]; [by left|by right].
    + intros k. apply dict_get_set_is_Some.
    + rewrite !patches_made_app, dict_set_length, Hc. simpl. lia.
Qed.

(** One call of the InstantID function. *)
Lemma instantid_step retrieved key s :
  let r := _set_model_patch_replace retrieved key s in
  (r.2 = Some UnboundLocalError
   ↔ dict_get (cache_dict s) key = None ∧ is_Some (dict_get (attn2 s) key))
  ∧ r.2 ≠ Some KeyError
  ∧ (∀ k, is_Some (dict_get (cache_dict r.1) k)
          ↔ (k = key ∧ dict_get (attn2 s) key = None
             ∧ (retrieved = false ∨ dict_get (cache_dict s) key = None))
            ∨ is_Some (dict_get (cache_dict s) k))
  ∧ (∀ k, is_Some (dict_get (attn2 r.1) k)
          ↔ (k = key ∧ (retrieved = false ∨ dict_get (cache_dict s) key = None))
            ∨ is_Some (dict_get (attn2 s) k)).
Proof.
  cbv zeta. unfold _set_model_patch_replace.
  destruct (dict_get (cache_dict s) key) as [p|] eqn:Hc;
    destruct (dict_get (attn2 s) key) as [q|] eqn:Ha;
    destruct retrieved;
    repeat (progress (simpl; patches; rewrite ?Hc, ?Ha, ?dict_get_set_eq)).
  - split_and!; [split; [done|by intros [? _]]|done| |].
    + intros k. split; [by right|]. intros [(_ & ? & _)|?]; done.
    + intros k. split; [by right|]. intros [(_ & [?|?])|?]; done.
  - split_and!; [split; [done|by intros [? _]]|done| |].
    + intros k. split; [by right|]. intros [(_ & ? & _)|?]; done.
    + intros k. split; [by right|]. intros [[-> _]|?]; [by rewrite Ha|done].
  - split_and!; [split; [done|by intros [? _]]|done| |].
    + intros k. split; [by right|]. intros [(_ & _ & [?|?])|?]; done.
    + intros k. split; [by right|]. intros [(_ & [?|?])|?]; done.
  - split_and!; [split; [done|by intros [? _]]|done| |].
    + intros k. rewrite dict_get_set_is_Some. split.
      * intros [->|?]; [left; by split_and!; [| |left]|by right].
      * intros [(-> & _)|?]; [by left|by right].
    + intros k. rewrite dict_get_set_is_Some. split.
      * intros [->|?]; [left; by split; [|left]|by right].
      * intros [(-> & _)|?]; [by left|by right].
  - split_and!; [split; [by intros _; split; [|eexists]|done]|done| |].
    + intros k. split; [by right|]. intros [(_ & ? & _)|?]; done.
    + intros k. split; [by right|]. intros [[-> _]|?]; [by rewrite Ha|done].
  - split_and!; [split; [by intros _; split; [|eexists]|done]|done| |].
    + intros k. split; [by right|]. intros [(_ & ? & _)|?]; done.
    + intros k. split; [by right|]. intros [[-> _]|?]; [by rewrite Ha|done].
  - split_and!; [split; [done|by intros [_ [? ?]]]|done| |].
    + intros k. rewrite dict_get_set_is_Some. split.
      * intros [->|?]; [left; by split_and!; [| |right]|by right].
      * intros [(-> & _)|?]; [by left|by right].
    + intros k. rewrite dict_get_set_is_Some. split.
      * intros [->|?]; [left; by split; [|right]|by right].
      * intros [(-> & _)|?]; [by left|by right].
  - split_and!; [split; [done|by intros [_ [? ?]]]|done| |].
    + intros k. rewrite dict_get_set_is_Some. split.
      * intros [->|?]; [left; by split_and!; [| |right]|by right].
      * intros [(-> & _)|?]; [by left|by right].
    + intros k. rewrite dict_get_set_is_Some. split.
      * intros [->|?]; [left; by split; [|right]|by right].
      * intros [(-> & _)|?]; [by left|by right].
Qed.

(** X21. The InstantID function raises [UnboundLocalError] exactly when
    the key is installed in the options but has no patch in the cache:
    the local name [patch] is then not bound where [set_cache] is called
    on it, after [set_new_condition] has already been applied to the
    installed patch. It never raises [KeyError]. *)
Theorem instantid_unbound_iff (retrieved : bool) key s :
  let r := _set_model_patch_replace retrieved key s in
  (r.2 = Some UnboundLocalError
   ↔ dict_get (cache_dict s) key = None ∧ is_Some (dict_get (attn2 s) key))
  ∧ r.2 ≠ Some KeyError
  ∧ (r.2 = Some UnboundLocalError →
     ∃ installed, dict_get (attn2 s) key = Some installed
                  ∧ log r.1 = log s ++ [EvSetNewCondition installed]
                  ∧ cache_dict r.1 = cache_dict s).
Proof.
  cbv zeta.
  destruct (instantid_step retrieved key s) as (Hiff & Hkey & _).
  split; [exact Hiff|]. split; [exact Hkey|].
  intros Hub. apply Hiff in Hub as [Hc [q Ha]].
  exists q. unfold _set_model_patch_replace.
  change (attn2 (ensure_attn2 s)) with (attn2 s).
  change (cache_dict (ensure_attn2 s)) with (cache_dict s).
  by rewrite Hc, Ha.
Qed.

Lemma step_installed_cached (o : Op Key) s :
  installed_cached s →
  (step o s).2 = None ∧ installed_cached (step o s).1.
Proof.
  intros Hinv. destruct o as [key|retrieved key]; simpl.
  - destruct (ipadapter_step key s) as (Hok & _ & _ & Hc & Ha & _).
    split; [done|]. intros k Hk. apply Ha in Hk. apply Hc.
    destruct Hk as [->|Hk]; [|right; by apply Hinv].
    destruct (dict_get (attn2 s) key) eqn:Hkey; [|by left].
    right. apply Hinv. by rewrite Hkey.
  - destruct (instantid_step retrieved key s) as (Hiff & Hkey & Hc & Ha).
    split.
    + destruct (_set_model_patch_replace retrieved key s) as [s' [[]|]];
        simpl in *; [done| |done].
      destruct Hiff as [Hiff _]. destruct (Hiff eq_refl) as [Hnone Hsome].
      apply Hinv in Hsome. rewrite Hnone in Hsome. by destruct Hsome.
    + intros k Hk. apply Ha in Hk. apply Hc.
      destruct Hk as [[-> Hcase]|Hk]; [|right; by apply Hinv].
      destruct (dict_get (attn2 s) key) eqn:Hin.
      * right. apply Hinv. by rewrite Hin.
      * left. by split_and!.
Qed.

(** X22. As long as every key installed in the options has a patch in
    the cache, which is so for options that hold no patch yet, no
    sequence of calls of the two functions raises, and it stays so. *)
Theorem patch_calls_never_raise (ops : list (Op Key)) s :
  installed_cached s →
  (run ops s).2 = None ∧ installed_cached (run ops s).1.
Proof.
  revert s. induction ops as [|o ops IH]; intros s Hinv; simpl; [done|].
  destruct (step_installed_cached o s Hinv) as [Hok Hinv'].
  destruct (step o s) as [s' [e|]]; simpl in *; [done|]. by apply IH.
Qed.

Lemma ipadapter_run_installed (keys : list Key) s k :
  is_Some (dict_get (attn2 s) k) →
  is_Some (dict_get (attn2 (run (OpIPAdapter <$> keys) s).1) k).
Proof.
  revert s. induction keys as [|k0 keys IH]; intros s Hk; csimpl; [done|].
  destruct (ipadapter_step k0 s) as (Hok & _ & _ & _ & Ha & _).
  destruct (set_model_patch_replace_fn_of k0 s) as [s' [e|]];
    simpl in *; [done|].
  apply IH. apply Ha. by right.
Qed.

(** X23. The IPAdapter function makes one patch for a key and keeps it:
    over any sequence of its calls nothing is raised, all the keys are
    installed in the options, a patch in the cache is never replaced, and
    as many patches are made as the cache gets new keys. *)
Theorem ipadapter_reuses_patches (keys : list Key) s :
  let r := run (OpIPAdapter <$> keys) s in
  r.2 = None
  ∧ (∀ key, key ∈ keys → is_Some (dict_get (attn2 r.1) key))
  ∧ (∀ key patch, dict_get (cache_dict s) key = Some patch →
                  dict_get (cache_dict r.1) key = Some patch)
  ∧ (patches_made (log r.1) + length (cache_dict s)
     = patches_made (log s) + length (cache_dict r.1))%nat.
Proof.
  cbv zeta. revert s. induction keys as [|key keys IH]; intros s; csimpl.
  - split_and!; [done| |done|lia]. by intros key ?%elem_of_nil.
  - destruct (ipadapter_step key s) as (Hok & Hin & Hkeep & _ & Ha & Hcount).
    destruct (set_model_patch_replace_fn_of key s) as [s' [e|]]; simpl in *;
      [done|].
    destruct (IH s') as (I1 & I2 & I3 & I4).
    split_and!; [done| | |lia].
    + intros k [->|Hk]%elem_of_cons; [by apply ipadapter_run_installed|by apply I2].
    + intros k p Hk. by apply I3, Hkeep.
Qed.

End ComfyPatchesFacts.

Lemma patch_calls_never_raise_witness :
  let s := ComfyPatches.mkState [] None 0 [] : ComfyPatches.State nat in
  let ops := [ComfyPatches.OpIPAdapter 4%nat;
              ComfyPatches.OpInstantID false 4%nat;
              ComfyPatches.OpInstantID true 5%nat] in
  ComfyPatches.installed_cached s
  ∧ (ComfyPatches.run ops s).2 = None.
Proof.
  intros s ops.
  assert (Hinv : ComfyPatches.installed_cached s).
  { intros key [p Hp]. discriminate Hp. }
  split; [exact Hinv|].
  exact (proj1 (patch_calls_never_raise ops s Hinv)).
Defined.


Section WebuiFailedRun.
Import Webui WebuiOps.
Context {Proc : Type}.
Variable process_images : World → World * (Proc + Exn).
Variable runtime_convnames : Val → list (string * option nat).

Local Abbreviation run' := (run process_images runtime_convnames).

(** X24. The [TypeError] at the loop over [convname_dict] does not need
    quantization. A run without quantization that compiles and whose
    [process_images] raises leaves [compiled_ckpt_name] set and
    [convname_dict] at [None]; after the host has loaded another
    checkpoint of the same structure, the next run without quantization
    raises at the head of the loop and changes nothing. *)
Theorem failed_run_then_switch_raises
    (w : World) (e : Exn) (other : string) (model' : Val) :
  leaves_script_state process_images →
  (check_model_structure_change w).2 = true →
  (run' (QuantBool false) w).2 = inr e →
  other ≠ sd_model_checkpoint w →
  let w1 := (run' (QuantBool false) w).1 in
  let w2 := load_checkpoint other model' (sd_model_type w) w1 in
  convname_dict w1 = None
  ∧ compiled_ckpt_name w1 = Some (sd_model_checkpoint w)
  ∧ compile_unet_calls (log w1) = S (compile_unet_calls (log w))
  ∧ run' (QuantBool false) w2 = (w2, inr TypeError_not_iterable).
Proof.
  intros Hframe Hchanged Hraise Hother. cbv zeta.
  assert (Hprep : run_prepare false w
                  = (recompile false (sd_model_checkpoint w)
                       (set_current_type (Some (sd_model_type w)) w), None)).
  { unfold run_prepare. unfold check_model_structure_change in *.
    simpl in Hchanged. rewrite Hchanged. done. }
  assert (Hrun : (run' (QuantBool false) w).1
                 = recompile false (sd_model_checkpoint w)
                     (set_current_type (Some (sd_model_type w)) w)).
  { revert Hraise. unfold run. rewrite Hprep.
    unfold with_ctx, UnetCompileCtx_enter, UnetCompileCtx_exit.
    match goal with |- context [process_images ?x] =>
      pose proof (Hframe x) as Hw; destruct (process_images x) as [wp [proc|e']]
    end; simpl in *; subst wp; simpl; [done|]. intros _. done. }
  rewrite Hrun. simpl. split_and!; [done|done| |].
  - rewrite compile_unet_calls_app. simpl. lia.
  - unfold run.
    assert (Hprep2 :
      run_prepare false
        (load_checkpoint other model' (sd_model_type w)
           (recompile false (sd_model_checkpoint w)
              (set_current_type (Some (sd_model_type w)) w)))
      = (load_checkpoint other model' (sd_model_type w)
           (recompile false (sd_model_checkpoint w)
              (set_current_type (Some (sd_model_type w)) w)),
         Some TypeError_not_iterable)).
    { apply run_prepare_without_convnames; simpl; [done| |done].
      intros [= ?]. done. }
    by rewrite Hprep2.
Qed.

End WebuiFailedRun.

Lemma failed_run_then_switch_raises_witness :
  let process_images := λ w : Webui.World,
    (w, @inr unit Webui.Exn (Webui.HostError 1)) in
  let names := λ _ : Webui.Val, [("input_blocks.0.0.weight", Some 5%nat)] in
  let w1 := (Webui.run process_images names (Webui.QuantBool false) Webui.startup).1 in
  let w2 := Webui.load_checkpoint "dreamshaper_8" (Webui.VObj 7) Webui.sd1 w1 in
  Webui.convname_dict w1 = None
  ∧ Webui.run process_images names (Webui.QuantBool false) w2
    = (w2, inr Webui.TypeError_not_iterable).
Proof.
  intros process_images names w1 w2.
  assert (Hframe : WebuiOps.leaves_script_state process_images)
    by (intros w0; reflexivity).
  assert (Hother : "dreamshaper_8" ≠ Webui.sd_model_checkpoint Webui.startup)
    by (vm_compute; discriminate).
  pose proof (failed_run_then_switch_raises process_images names Webui.startup
                (Webui.HostError 1) "dreamshaper_8" (Webui.VObj 7)
                Hframe eq_refl eq_refl Hother) as (H1 & _ & _ & H4).
  split; [exact H1|exact H4].
Defined.


Section WebuiRepeatedRun.
Import Webui WebuiOps.
Context {Proc : Type}.
Variable process_images : World → World * (Proc + Exn).
Variable runtime_convnames : Val → list (string * option nat).

Local Abbreviation run' := (run process_images runtime_convnames).

Lemma run_state (quantization : QuantArg) w :
  leaves_script_state process_images →
  let w1 := (run_prepare (quantized quantization) w).1 in
  (run' quantization w).1 = w1
  ∨ ((run' quantization w).1
       = set_convname_dict (Some (runtime_convnames (compiled_unet w1))) w1
     ∧ convname_dict w1 = None
     ∧ (run_prepare (quantized quantization) w).2 = None).
Proof.
  intros Hframe. cbv zeta. unfold run. fold (quantized quantization).
  destruct (run_prepare (quantized quantization) w) as [w1 [e|]]; [by left|].
  simpl. unfold with_ctx, UnetCompileCtx_enter, UnetCompileCtx_exit.
  pose proof (Hframe (set_diffusion_model (compiled_unet w1) w1)) as Hw.
  destruct (process_images _) as [w2 [proc|e]]; simpl in *; subst w2; simpl.
  - destruct (convname_dict w1) eqn:Hc.
    + left. by destruct w1.
    + destruct (quantized quantization); [left; by destruct w1|].
      right. split; [|done]. by destruct w1.
  - left. by destruct w1.
Qed.

Lemma check_model_structure_change_twice w :
  (check_model_structure_change (check_model_structure_change w).1)
  = ((check_model_structure_change w).1, false).
Proof.
  unfold check_model_structure_change.
  destruct (current_type w) as [t|] eqn:Ht; simpl.
  - destruct (_ || _ || _ || _) eqn:Hch; simpl.
    + by rewrite !eqb_reflx.
    + by rewrite Ht, Hch.
  - by rewrite !eqb_reflx.
Qed.

(** What [run] up to the [with] statement leaves: the structure is the
    recorded one, and either the name compiled for is that of this run or
    the run went without compiling. *)
Lemma run_prepare_settled (q : bool) w :
  let ckpt_name :=
    if q then sd_model_checkpoint w +:+ "_quantized"
    else sd_model_checkpoint w in
  let w1 := (run_prepare q w).1 in
  (check_model_structure_change w1).2 = false
  ∧ sd_model_checkpoint w1 = sd_model_checkpoint w
  ∧ (compiled_ckpt_name w1 = Some ckpt_name
     ∨ (q = false ∧ compiled_ckpt_name w1 ≠ Some ckpt_name
        ∧ (convname_dict w1 = None
           ∨ ∃ d, convname_dict w1 = Some d ∧ (copy_conv_weights d).2 = false))).
Proof.
  cbv zeta. unfold run_prepare.
  pose proof (check_model_structure_change_twice w) as Htwice.
  destruct (check_model_structure_change w) as [w0 msc] eqn:Hcheck.
  simpl in Htwice.
  assert (Hsame : sd_model_checkpoint w0 = sd_model_checkpoint w
                  ∧ compiled_ckpt_name w0 = compiled_ckpt_name w
                  ∧ convname_dict w0 = convname_dict w).
  { revert Hcheck. unfold check_model_structure_change.
    destruct (current_type w); [destruct (_ || _ || _ || _)|];
      intros [= <- _]; done. }
  destruct Hsame as (Hs1 & Hs2 & Hs3).
  assert (Hrec : ∀ name w', (check_model_structure_change w').2 = false →
            (check_model_structure_change (recompile q name w')).2 = false).
  { intros name w'. unfold check_model_structure_change, recompile. simpl.
    by destruct (current_type w'). }
  assert (Hemit : ∀ evs w', (check_model_structure_change w').2 = false →
            (check_model_structure_change (emit evs w')).2 = false).
  { intros evs w'. unfold check_model_structure_change, emit. simpl.
    by destruct (current_type w'). }
  assert (Hw0 : (check_model_structure_change w0).2 = false) by (by rewrite Htwice).
  destruct msc; cbn [orb andb fst snd].
  - rewrite orb_true_r. cbn [fst snd].
    split_and!; [by apply (Hrec _)|done|by left].
  - rewrite orb_false_r. destruct q; cbn [andb fst snd].
    + case_bool_decide as Hname; cbn [fst snd].
      * split_and!; [by apply (Hrec _)|done|by left].
      * split_and!; [done|done|]. left. rewrite Hs2.
        destruct (decide (compiled_ckpt_name w
                          = Some (sd_model_checkpoint w +:+ "_quantized")));
          [done|]. destruct Hname. congruence.
    + case_bool_decide as Hname; cbn [fst snd].
      * destruct (convname_dict w0) as [d|] eqn:Hd; cbn [fst snd].
        -- destruct (copy_conv_weights d) as [evs need] eqn:Hcopy.
           destruct need; cbn [fst snd].
           ++ split_and!; [by apply (Hrec _), Hemit|done|by left].
           ++ split_and!; [by apply Hemit|done|]. right.
              split_and!; [done|simpl; congruence|]. right. exists d.
              by rewrite Hcopy.
        -- split_and!; [done|done|]. right.
           split_and!; [done|congruence|by left].
      * split_and!; [done|done|]. left. rewrite Hs2.
        destruct (decide (compiled_ckpt_name w = Some (sd_model_checkpoint w)));
          [done|]. destruct Hname. congruence.
Qed.

(** With a [compile_unet] that returns, a second run with the same
    [quantization] on the same checkpoint does not call it. *)
Lemma run_twice_no_compile (quantization : QuantArg) (w : World) :
  leaves_script_state process_images →
  let w1 := (run' quantization w).1 in
  compile_unet_calls (log (run' quantization w1).1)
  = compile_unet_calls (log w1).
Proof.
  intros Hframe. cbv zeta.
  set (q := quantized quantization).
  pose proof (run_prepare_settled q w) as Hsettled. cbv zeta in Hsettled.
  assert (Hgoal : ∀ w1,
    (check_model_structure_change w1).2 = false →
    (compiled_ckpt_name w1
     = Some (if q then sd_model_checkpoint w1 +:+ "_quantized"
             else sd_model_checkpoint w1)
     ∨ (q = false
        ∧ (convname_dict w1 = None
           ∨ ∃ d, convname_dict w1 = Some d ∧ (copy_conv_weights d).2 = false))) →
    compile_unet_calls (log (run_prepare q w1).1) = compile_unet_calls (log w1)).
  { intros w1 Hch Hcase. unfold run_prepare.
    destruct (check_model_structure_change w1) as [w0 msc] eqn:Hcheck.
    simpl in Hch. subst msc.
    assert (Hw0 : w0 = w1).
    { revert Hcheck. unfold check_model_structure_change.
      destruct (current_type w1); [destruct (_ || _ || _ || _)|];
        intros Heq; congruence. }
    subst w0. rewrite orb_false_r.
    destruct Hcase as [Hname|(Hq & Hconv)].
    - rewrite (bool_decide_eq_false_2 (Some _ ≠ _)) by (intros Hne; by destruct Hne).
      by rewrite andb_false_r.
    - rewrite Hq. simpl. case_bool_decide; [|done].
      destruct Hconv as [->|(d & -> & Hcopy)]; [done|].
      destruct (copy_conv_weights d) as [evs need] eqn:Hd. simpl in Hcopy.
      subst need. simpl. rewrite compile_unet_calls_app.
      pose proof (copy_conv_weights_no_compile d) as Hno. rewrite Hd in Hno.
      simpl in Hno. lia. }
  assert (Hrun : ∀ w1, compile_unet_calls (log (run' quantization w1).1)
                       = compile_unet_calls (log (run_prepare q w1).1)).
  { intros w1. destruct (run_state quantization w1 Hframe) as [->|[-> _]]; done. }
  rewrite Hrun.
  destruct Hsettled as (Hch & Hckpt & Hcase).
  destruct (run_state quantization w Hframe) as [Heq|(Heq & Hnone & Hok)];
    fold q in Heq; rewrite Heq.
  - apply Hgoal; [done|]. rewrite Hckpt.
    destruct Hcase as [?|(? & _ & ?)]; [by left|by right].
  - fold q in Hnone, Hok.
    assert (Hname : compiled_ckpt_name (run_prepare q w).1
                    = Some (if q then sd_model_checkpoint w +:+ "_quantized"
                            else sd_model_checkpoint w)).
    { destruct Hcase as [?|(Hq & Hne & Hconv)]; [done|]. exfalso.
      revert Hok Hne Hnone. unfold run_prepare. rewrite Hq.
      destruct (check_model_structure_change w) as [w0 msc] eqn:Hcheck.
      assert (compiled_ckpt_name w0 = compiled_ckpt_name w) as Hs2.
      { revert Hcheck. unfold check_model_structure_change.
        destruct (current_type w); [destruct (_ || _ || _ || _)|];
          intros [= <- _]; done. }
      simpl. destruct msc; simpl; [by intros _ []|].
      case_bool_decide as Hn; simpl.
      - destruct (convname_dict w0) as [d|] eqn:Hd; [|done].
        destruct (copy_conv_weights d) as [evs []]; simpl; [by intros _ []|].
        intros _ _. by rewrite Hd.
      - intros _ Hne _. apply Hne. rewrite Hs2.
        destruct (decide (compiled_ckpt_name w = Some (sd_model_checkpoint w)));
          [done|]. destruct Hn. congruence. }
    apply Hgoal.
    + revert Hch. unfold check_model_structure_change. simpl.
      by destruct (current_type _).
    + left. simpl. by rewrite Hname, Hckpt.
Qed.

Local Abbreviation run_env' := (run_env process_images runtime_convnames).

Lemma run_calls_prepare (quantization : QuantArg) (w : World) :
  leaves_script_state process_images →
  compile_unet_calls (log (run' quantization w).1)
  = compile_unet_calls (log (run_prepare (quantized quantization) w).1).
Proof.
  intros Hframe.
  destruct (run_state quantization w Hframe) as [->|[-> _]]; done.
Qed.

Lemma run_env_state (env : CompileEnv) (quantization : QuantArg) w :
  leaves_script_state process_images →
  let r := run_prepare_env env (quantized quantization) w in
  match r.2 with
  | Some e => run_env' env quantization w = (r.1, inr e)
  | None =>
      (run_env' env quantization w).1 = r.1
      ∨ (run_env' env quantization w).1
        = set_convname_dict (Some (runtime_convnames (compiled_unet r.1))) r.1
  end.
Proof.
  intros Hframe. cbv zeta. unfold run_env.
  destruct (run_prepare_env env (quantized quantization) w) as [w1 [e|]];
    [done|].
  simpl. unfold with_ctx, UnetCompileCtx_enter, UnetCompileCtx_exit.
  pose proof (Hframe (set_diffusion_model (compiled_unet w1) w1)) as Hw.
  destruct (process_images _) as [w2 [proc|e]]; simpl in *; subst w2; simpl.
  - destruct (convname_dict w1) eqn:Hc.
    + left. by destruct w1.
    + destruct (quantized quantization); [left; by destruct w1|].
      right. by destruct w1.
  - left. by destruct w1.
Qed.

Lemma run_env_calls (env : CompileEnv) (quantization : QuantArg) w :
  leaves_script_state process_images →
  compile_unet_calls (log (run_env' env quantization w).1)
  = compile_unet_calls (log (run_prepare_env env (quantized quantization) w).1).
Proof.
  intros Hframe. pose proof (run_env_state env quantization w Hframe) as Hst.
  cbv zeta in Hst.
  destruct (run_prepare_env env (quantized quantization) w) as [w1 [e|]];
    simpl in *; [by rewrite Hst|].
  by destruct Hst as [->| ->].
Qed.

(** The call of [compile_unet] is made in the same runs whether it
    returns or raises. *)
Lemma run_prepare_env_calls (env : CompileEnv) (q : bool) w :
  compile_unet_calls (log (run_prepare_env env q w).1)
  = compile_unet_calls (log (run_prepare q w).1).
Proof.
  unfold run_prepare_env, run_prepare.
  destruct (check_model_structure_change w) as [w0 msc].
  destruct (_ || _).
  - destruct env; simpl; by rewrite ?compile_unet_calls_app.
  - case_bool_decide; [|done].
    destruct (convname_dict w0) as [d|]; [|done].
    destruct (copy_conv_weights d) as [evs []]; [|done].
    destruct env; simpl; by rewrite ?compile_unet_calls_app.
Qed.

(** A run that does not get to [compile_unet] is the same for both. *)
Lemma run_prepare_env_same (env : CompileEnv) (q : bool) w :
  env = UnetCompiles
  ∨ compile_unet_calls (log (run_prepare q w).1) = compile_unet_calls (log w) →
  run_prepare_env env q w = run_prepare q w.
Proof.
  intros Hcase. unfold run_prepare_env, run_prepare in *.
  destruct (check_model_structure_change w) as [w0 msc] eqn:Hcheck.
  assert (Hlog : log w0 = log w).
  { revert Hcheck. unfold check_model_structure_change.
    destruct (current_type w); [destruct (_ || _ || _ || _)|];
      intros [= <- _]; done. }
  destruct (_ || _).
  - destruct Hcase as [->|Hno]; [done|]. exfalso. revert Hno. simpl.
    rewrite compile_unet_calls_app, Hlog. simpl. lia.
  - case_bool_decide; [|done].
    destruct (convname_dict w0) as [d|]; [|done].
    pose proof (copy_conv_weights_no_compile d) as Hcopy.
    destruct (copy_conv_weights d) as [evs []]; [|done].
    destruct Hcase as [->|Hno]; [done|]. exfalso. revert Hno. simpl in *.
    rewrite !compile_unet_calls_app, Hlog, Hcopy. simpl. lia.
Qed.

Lemma run_env_same (env : CompileEnv) (quantization : QuantArg) w :
  run_prepare_env env (quantized quantization) w
  = run_prepare (quantized quantization) w →
  run_env' env quantization w = run' quantization w.
Proof.
  intros Heq. unfold run_env, run. fold (quantized quantization).
  by rewrite Heq.
Qed.

(** After [check_model_structure_change] the type recorded is that of
    the model. *)
Lemma check_model_structure_change_type w :
  current_type (check_model_structure_change w).1 = Some (sd_model_type w).
Proof.
  unfold check_model_structure_change.
  destruct (current_type w) as [t|] eqn:Ht; [|done].
  destruct (_ || _ || _ || _) eqn:Hch; [done|]. simpl. rewrite Ht.
  destruct t as [a1 a2 a3 a4], (sd_model_type w) as [b1 b2 b3 b4].
  simpl in Hch.
  by destruct a1, a2, a3, a4, b1, b2, b3, b4.
Qed.

(** A run whose [compile_unet] raises: the state it leaves. *)
Lemma run_prepare_env_raises (code : nat) (q : bool) w :
  compile_unet_calls (log (run_prepare q w).1) = S (compile_unet_calls (log w)) →
  let r := run_prepare_env (UnetCompileRaises code) q w in
  r.2 = Some (HostError code)
  ∧ compiled_unet r.1 = compiled_unet w
  ∧ compiled_ckpt_name r.1 = compiled_ckpt_name w
  ∧ convname_dict r.1 = convname_dict w
  ∧ current_type r.1 = Some (sd_model_type w)
  ∧ sd_model_type r.1 = sd_model_type w
  ∧ sd_model_checkpoint r.1 = sd_model_checkpoint w.
Proof.
  cbv zeta. unfold run_prepare_env, run_prepare.
  pose proof (check_model_structure_change_type w) as Hty.
  destruct (check_model_structure_change w) as [w0 msc] eqn:Hcheck.
  assert (Hsame : log w0 = log w
                  ∧ compiled_unet w0 = compiled_unet w
                  ∧ compiled_ckpt_name w0 = compiled_ckpt_name w
                  ∧ convname_dict w0 = convname_dict w
                  ∧ sd_model_type w0 = sd_model_type w
                  ∧ sd_model_checkpoint w0 = sd_model_checkpoint w).
  { revert Hcheck. unfold check_model_structure_change.
    destruct (current_type w); [destruct (_ || _ || _ || _)|];
      intros [= <- _]; done. }
  destruct Hsame as (Hlog & H1 & H2 & H3 & H4 & H5). simpl in Hty.
  destruct (_ || _).
  - intros _. simpl. by split_and!.
  - case_bool_decide; [|simpl; rewrite Hlog; lia].
    destruct (convname_dict w0) as [d|] eqn:Hd; [|simpl; rewrite Hlog; lia].
    pose proof (copy_conv_weights_no_compile d) as Hcopy.
    destruct (copy_conv_weights d) as [evs []].
    + intros _. simpl. rewrite Hd. by split_and!.
    + simpl in *. rewrite compile_unet_calls_app, Hlog, Hcopy. lia.
Qed.

(** X25. Running again with nothing changed. After a run in which
    [compile_unet] returned or was not called, a second run with the same
    [quantization] on the same checkpoint does not call [compile_unet].
    After a run in which [compile_unet] raised, the structure of the model
    has been recorded but [compiled_unet] and [compiled_ckpt_name] are
    what they were: the second run calls [compile_unet] again exactly
    when the name differs from [compiled_ckpt_name] and either
    quantization is on or the copy loop meets a missing target, and not
    for the change of structure that the first run saw.
    [process_images] is taken to leave the script's state alone. *)
Theorem repeated_run_recompiles_only_after_failure
    (env1 env2 : CompileEnv) (quantization : QuantArg) (w : World) :
  leaves_script_state process_images →
  let q := quantized quantization in
  let ckpt_name :=
    if q then sd_model_checkpoint w +:+ "_quantized"
    else sd_model_checkpoint w in
  let r1 := run_env' env1 quantization w in
  let r2 := run_env' env2 quantization r1.1 in
  (env1 = UnetCompiles
   ∨ compile_unet_calls (log r1.1) = compile_unet_calls (log w) →
   compile_unet_calls (log r2.1) = compile_unet_calls (log r1.1))
  ∧ (∀ code, env1 = UnetCompileRaises code →
     compile_unet_calls (log r1.1) = S (compile_unet_calls (log w)) →
     r1.2 = inr (HostError code)
     ∧ compiled_unet r1.1 = compiled_unet w
     ∧ compiled_ckpt_name r1.1 = compiled_ckpt_name w
     ∧ current_type r1.1 = Some (sd_model_type w)
     ∧ (compile_unet_calls (log r2.1) = S (compile_unet_calls (log r1.1))
        ↔ Some ckpt_name ≠ compiled_ckpt_name w
          ∧ (q = true
             ∨ ∃ d, convname_dict w = Some d
                    ∧ (copy_conv_weights d).2 = true))).
Proof.
  intros Hframe. cbv zeta. set (q := quantized quantization).
  assert (Hsecond : ∀ w1,
    compile_unet_calls (log (run_env' env2 quantization w1).1)
    = compile_unet_calls (log (run_prepare q w1).1)).
  { intros w1. by rewrite run_env_calls, run_prepare_env_calls. }
  split.
  - intros Hcase.
    assert (Hsame : run_prepare_env env1 q w = run_prepare q w).
    { apply run_prepare_env_same. destruct Hcase as [?|Hno]; [by left|right].
      by rewrite run_env_calls, run_prepare_env_calls in Hno. }
    rewrite (run_env_same env1 quantization w Hsame), Hsecond.
    rewrite <- (run_calls_prepare quantization _ Hframe).
    by apply run_twice_no_compile.
  - intros code -> Hcalled.
    rewrite run_env_calls, run_prepare_env_calls in Hcalled by done.
    fold q in Hcalled.
    destruct (run_prepare_env_raises code q w Hcalled)
      as (Hexn & Hu & Hn & Hd & Hty & Hst & Hck).
    pose proof (run_env_state (UnetCompileRaises code) quantization w Hframe)
      as Hrun. cbv zeta in Hrun. fold q in Hrun. rewrite Hexn in Hrun.
    rewrite Hrun. simpl. split_and!; [done|done|done|done|].
    rewrite Hsecond.
    set (w1 := (run_prepare_env (UnetCompileRaises code) q w).1) in *.
    destruct (run_prepare_compiles_iff q w1) as [_ Hiff]. rewrite Hiff.
    assert (Hnochange : (check_model_structure_change w1).2 = false).
    { unfold check_model_structure_change. rewrite Hty, Hst.
      by rewrite !eqb_reflx. }
    rewrite Hnochange, Hn, Hd, Hck. split.
    + intros [?|[[-> ?]|[? ?]]]; [done|split; [done|by left]|
                                   split; [done|by right]].
    + intros [? [->|?]]; [right; left; by split|right; right; by split].
Qed.

End WebuiRepeatedRun.

(** The first run compiles; in the second [compile_unet] would raise but
    is not called. *)
Lemma repeated_run_recompiles_only_after_failure_witness :
  let process_images := λ w : Webui.World, (w, @inl unit Webui.Exn ()) in
  let names := λ _ : Webui.Val, [("input_blocks.0.0.weight", Some 5%nat)] in
  let r1 := WebuiOps.run_env process_images names WebuiOps.UnetCompiles
              (Webui.QuantBool true) Webui.startup in
  let r2 := WebuiOps.run_env process_images names (WebuiOps.UnetCompileRaises 1)
              (Webui.QuantBool true) r1.1 in
  Webui.compile_unet_calls (Webui.log r1.1) = 1%nat
  ∧ Webui.compile_unet_calls (Webui.log r2.1)
    = Webui.compile_unet_calls (Webui.log r1.1).
Proof.
  intros process_images names r1 r2.
  assert (Hframe : WebuiOps.leaves_script_state process_images)
    by (intros w0; reflexivity).
  split; [reflexivity|].
  exact (proj1 (repeated_run_recompiles_only_after_failure process_images names
                  WebuiOps.UnetCompiles (WebuiOps.UnetCompileRaises 1)
                  (Webui.QuantBool true) Webui.startup Hframe)
           (or_introl eq_refl)).
Defined.



(** ** Calls with one key, one after the other *)

Section SameKey.
Import PyDict Pipeline PipelineOps.
Local Open Scope Z_scope.
Implicit Types (d : dict Shape Entry) (p : Pipe) (a : CallArgs).

(** The first compilation fails in the warmup, so the second call with
    the same arguments compiles again: the compiler is invoked twice, the
    second time not on the first call, and the call is served by the
    object of the second compilation. *)
Lemma failed_compile_is_retried :
  let cs := [(WarmupRaises, request 512 512); (CompilerOk, request 512 512)] in
  Forall (λ ea, cache_key ea.2 = (512, 512)
                ∧ shape_signature sd_pipe ea.2
                  = shape_signature sd_pipe (request 512 512)) cs
  ∧ compiler_calls (trace (run_calls sd_pipe cs).1) = 2%nat
  ∧ (run_calls sd_pipe cs).2 = [Raised WarmupError; Returned (Some 1%nat)]
  ∧ trace (run_calls sd_pipe cs).1
    = [EvConstruct 0 UNetGraph; EvCompile 0 true; EvWarmup 0 false;
       EvConstruct 1 UNetGraph; EvCompile 1 true; EvWarmup 1 true;
       EvInsert (512, 512) 1].
Proof.
  intros cs. split; [by repeat constructor|]. by vm_compute.
Qed.

(** A call that misses on a cache of size at least 1. *)
Lemma pipeline_call_miss env a p :
  args_ok p a = true → compile_unet a = true →
  dict_get (unet_graphs p) (cache_key a) = None →
  1 ≤ unet_graphs_cache_size p →
  (pipeline_call env a p).2 = miss_outcome env (objects p)
  ∧ objects (pipeline_call env a p).1 = S (objects p)
  ∧ compiler_calls (trace (pipeline_call env a p).1)
    = S (compiler_calls (trace p))
  ∧ match env with
    | CompilerOk =>
        dict_get (unet_graphs (pipeline_call env a p).1) (cache_key a)
        = Some (unet_graphs_lru_cache_time (pipeline_call env a p).1, objects p)
        ∧ ∃ before,
            trace (pipeline_call env a p).1
            = before ++ [EvConstruct (objects p) (graph_kind a);
                         EvCompile (objects p) true;
                         EvWarmup (objects p) true;
                         EvInsert (cache_key a) (objects p)]
    | _ => dict_get (unet_graphs (pipeline_call env a p).1) (cache_key a) = None
    end.
Proof.
  intros Hok Hc Hget Hsize. rewrite pipeline_call_ok by done.
  unfold unet_cache_step. rewrite Hc, Hget.
  destruct (evict_lru _ _) as [[d gone] x] eqn:Hev.
  pose proof (evict_lru_keeps_absent _ _ _ _ _ _ Hev Hget) as Hd.
  apply evict_lru_exit in Hev. destruct x; [|lia].
  destruct env; simpl;
    rewrite !compiler_calls_app, compiler_calls_evict; simpl.
  - split_and!; [done|done|lia|apply dict_get_set_eq|].
    exists (trace p ++ (EvEvict <$> gone)). by rewrite <- app_assoc.
  - split_and!; [done|done|lia|done].
  - split_and!; [done|done|lia|done].
Qed.

(** Calls with a key that is cached: all of them hit. *)
Lemma run_calls_hits (cs : list (Compiler * CallArgs)) (k : Shape) p t g :
  dict_get (unet_graphs p) k = Some (t, g) →
  Forall (λ ea, cache_key ea.2 = k ∧ compile_unet ea.2 = true
                ∧ args_ok p ea.2 = true) cs →
  (run_calls p cs).2 = replicate (length cs) (Returned (Some g))
  ∧ trace (run_calls p cs).1 = trace p
  ∧ ∃ t', dict_get (unet_graphs (run_calls p cs).1) k = Some (t', g).
Proof.
  revert p t. induction cs as [|[env a] cs IH]; intros p t Hget Hall.
  - simpl. split_and!; [done|done|by exists t].
  - apply Forall_cons in Hall as [(Hk & Hc & Hok) Hall]. simpl in *. subst k.
    pose proof (pipeline_call_in_channels env a p) as Hch.
    rewrite pipeline_call_ok in * by done.
    rewrite (unet_cache_step_hit _ _ _ _ _ Hc Hget) in *. simpl in Hch.
    set (p1 := with_cache p _ _ _ _) in *.
    assert (Hget1 : dict_get (unet_graphs p1) (cache_key a)
                    = Some (unet_graphs_lru_cache_time p + 1, g))
      by apply dict_get_set_eq.
    assert (Hall1 : Forall (λ ea, cache_key ea.2 = cache_key a
                                  ∧ compile_unet ea.2 = true
                                  ∧ args_ok p1 ea.2 = true) cs).
    { eapply Forall_impl; [exact Hall|]. intros ea (? & ? & ?).
      split_and!; [done|done|]. by rewrite (args_ok_ext p1 p). }
    destruct (IH p1 _ Hget1 Hall1) as (Hos & Htr & Hfin).
    destruct (run_calls p1 cs) as [pn os]. simpl in *.
    split_and!; [by rewrite Hos| |done].
    rewrite Htr. subst p1. simpl. apply app_nil_r.
Qed.

(** C1, as the code has it. Calls that all have the same key
    [(height, width)], with [compile_unet] on and arguments that pass the
    checks. When the key is cached, every call is served by the graph
    cached under it and nothing is compiled. When it is not, on a cache of
    size at least 1: every call up to the first one whose compilation and
    warmup succeed raises and invokes the compiler once; that first
    successful call constructs, compiles, warms up and stores a new graph
    object, and it and every later call are served by this very object
    without another compilation; the object is the one cached under the
    key at the end. If no call succeeds the key stays out of the cache. *)
Theorem same_key_compiled_until_served
    (cs : list (Compiler * CallArgs)) (k : Shape) p :
  Forall (λ ea, cache_key ea.2 = k ∧ compile_unet ea.2 = true
                ∧ args_ok p ea.2 = true) cs →
  let r := run_calls p cs in
  let n := failing_prefix cs in
  let g := (objects p + n)%nat in
  (∀ t g0, dict_get (unet_graphs p) k = Some (t, g0) →
     r.2 = replicate (length cs) (Returned (Some g0))
     ∧ trace r.1 = trace p
     ∧ ∃ t', dict_get (unet_graphs r.1) k = Some (t', g0))
  ∧ (dict_get (unet_graphs p) k = None → 1 ≤ unet_graphs_cache_size p →
     r.2 = ((λ ea, miss_outcome ea.1 g) <$> take (S n) cs)
           ++ replicate (length cs - S n) (Returned (Some g))
     ∧ compiler_calls (trace r.1)
       = (compiler_calls (trace p) + length (take (S n) cs))%nat
     ∧ ((n < length cs)%nat →
        ∃ a t before,
          cs !! n = Some (CompilerOk, a)
          ∧ dict_get (unet_graphs r.1) k = Some (t, g)
          ∧ trace r.1
            = before ++ [EvConstruct g (graph_kind a); EvCompile g true;
                         EvWarmup g true; EvInsert k g])
     ∧ ((length cs ≤ n)%nat → dict_get (unet_graphs r.1) k = None)).
Proof.
  intros Hall. cbv zeta. split.
  { intros t g0 Hget. by eapply run_calls_hits. }
  revert p Hall. induction cs as [|[env a] cs IH]; intros p Hall Hget Hsize.
  { simpl. split_and!; [done|lia|lia|done]. }
  apply Forall_cons in Hall as [(Hk & Hc & Hok) Hall]. simpl in Hk. subst k.
  simpl in Hc, Hok.
  destruct (pipeline_call_miss env a p Hok Hc Hget Hsize)
    as (Hout & Hobj & Hcomp & Hstate).
  pose proof (pipeline_call_in_channels env a p) as Hch.
  pose proof (pipeline_call_cache_size env a p) as Hsz.
  assert (Hall1 : Forall (λ ea, cache_key ea.2 = cache_key a
                                ∧ compile_unet ea.2 = true
                                ∧ args_ok (pipeline_call env a p).1 ea.2 = true) cs).
  { eapply Forall_impl; [exact Hall|]. intros ea (? & ? & ?).
    split_and!; [done|done|]. by rewrite (args_ok_ext _ p). }
  cbn [run_calls].
  destruct (pipeline_call env a p) as [p1 o]. simpl in Hout, Hobj, Hcomp, Hstate, Hch, Hsz, Hall1.
  subst o.
  destruct env.
  - (* the first call succeeds: the rest hit *)
    destruct Hstate as [Hget1 [before Htr]].
    destruct (run_calls_hits cs _ p1 _ _ Hget1 Hall1) as (Hos & Htr' & t' & Hfin).
    destruct (run_calls p1 cs) as [pn os]. simpl in *.
    rewrite !Nat.add_0_r, Nat.sub_0_r.
    split_and!.
    + by rewrite Hos.
    + rewrite Htr'. simpl. lia.
    + intros _. exists a, t', before. split_and!; [done|done|]. by rewrite Htr'.
    + lia.
  - (* [_compile] raises: the next call misses again *)
    destruct (IH p1 Hall1 Hstate ltac:(lia)) as (Hos & Hcnt & Hsucc & Hnone).
    destruct (run_calls p1 cs) as [pn os]. simpl in *.
    rewrite Hobj in Hos, Hsucc.
    replace (S (objects p) + failing_prefix cs)%nat
      with (objects p + S (failing_prefix cs))%nat in Hos, Hsucc by lia.
    split_and!.
    + by rewrite Hos.
    + rewrite Hcnt. lia.
    + intros Hlt. apply Hsucc. lia.
    + intros Hle. apply Hnone. lia.
  - (* the warmup raises: the next call misses again *)
    destruct (IH p1 Hall1 Hstate ltac:(lia)) as (Hos & Hcnt & Hsucc & Hnone).
    destruct (run_calls p1 cs) as [pn os]. simpl in *.
    rewrite Hobj in Hos, Hsucc.
    replace (S (objects p) + failing_prefix cs)%nat
      with (objects p + S (failing_prefix cs))%nat in Hos, Hsucc by lia.
    split_and!.
    + by rewrite Hos.
    + rewrite Hcnt. lia.
    + intros Hlt. apply Hsucc. lia.
    + intros Hle. apply Hnone. lia.
Qed.

(** Three calls for 512x512 on a new pipeline: the warmup of the first
    fails, the second compiles again and is served, the third would fail
    to compile but hits. *)
Lemma same_key_compiled_until_served_witness :
  let cs := [(WarmupRaises, request 512 512); (CompilerOk, request 512 512);
             (CompileRaises, request 512 512)] in
  Forall (λ ea, cache_key ea.2 = (512, 512) ∧ compile_unet ea.2 = true
                ∧ args_ok sd_pipe ea.2 = true) cs
  ∧ (run_calls sd_pipe cs).2
    = [Raised WarmupError; Returned (Some 1%nat); Returned (Some 1%nat)]
  ∧ compiler_calls (trace (run_calls sd_pipe cs).1) = 2%nat.
Proof.
  intros cs.
  assert (Hcs : Forall (λ ea, cache_key ea.2 = (512, 512)
                              ∧ compile_unet ea.2 = true
                              ∧ args_ok sd_pipe ea.2 = true) cs)
    by (repeat constructor).
  split; [exact Hcs|].
  destruct (same_key_compiled_until_served cs (512, 512) sd_pipe Hcs)
    as [_ Hmiss].
  destruct (Hmiss eq_refl ltac:(simpl; lia)) as (Hos & Hcnt & _).
  split; [exact Hos|exact Hcnt].
Defined.

End SameKey.
